(** * Cognito export / clean-up tool: a shallow embedding and its properties

    The development follows the two entry points of the repository,
    [src/index.ts] and [src/unnamed/part_000].  Both share the paged fetch
    engine, the user enumeration, the two inventory caches and the two
    classification loops word for word; they differ in the retirement loop
    (only [src/index.ts] removes a pool's domain first) and in the
    anonymization helpers (only [src/unnamed/part_000] has them).

    Remote calls of the AWS SDK are a parameter of the model (class
    [Remote]); so is the name generator of the moniker package (class
    [Moniker]).  Console output and the creation of the data directory
    are left out: they never influence control flow. *)

From Stdlib Require Import ZArith String Ascii List Bool Lia.
From stdpp Require Import base option list strings gmap.

Open Scope string_scope.
Open Scope list_scope.

(* ===================================================================== *)
(** ** JavaScript values: truthiness and the string methods the code uses *)
(* ===================================================================== *)

(** [!!v], the coercion behind [if (v)], [v && w] and [while (!!v)]. *)
Class Truthy (A : Type) := truthy : A -> bool.

(** The empty string is the only falsy string. *)
#[export] Instance string_truthy : Truthy string :=
  fun s => negb (String.eqb s "").

#[export] Instance bool_truthy : Truthy bool := fun b => b.

(** Arrays are objects: truthy even when empty. *)
#[export] Instance array_truthy {A} : Truthy (list A) := fun _ => true.

(** [undefined] is falsy; a present value has its own truthiness. *)
#[export] Instance undefined_truthy {A} `{Truthy A} : Truthy (option A) :=
  fun o => match o with Some a => truthy a | None => false end.

Module JS.

(** [s.startsWith(p)] *)
Definition startsWith (s p : string) : bool := String.prefix p s.

(** [s.endsWith(suffix)] *)
Definition endsWith (s suffix : string) : bool :=
  let n := String.length s in
  let m := String.length suffix in
  if (m <=? n)%nat then String.eqb (String.substring (n - m) m s) suffix
  else false.

(** [s.indexOf(needle)]: the first position, or -1. *)
Definition indexOf (s needle : string) : Z :=
  match String.index 0 needle s with
  | Some i => Z.of_nat i
  | None => (-1)%Z
  end.

(** [s.substring(start)]: a negative start counts as 0, one past the end
    as the length. *)
Definition substring (s : string) (start : Z) : string :=
  let n := Z.to_nat (Z.max 0 start) in
  String.substring n (String.length s - n) s.

(** [s.split(sep)] for a one-character separator: never empty. *)
Fixpoint split (s : string) (sep : ascii) : list string :=
  match s with
  | EmptyString => [EmptyString]
  | String c s' =>
      if Ascii.eqb c sep then EmptyString :: split s' sep
      else match split s' sep with
           | h :: t => String c h :: t
           | [] => [String c EmptyString]
           end
  end.

(** [s.replace(pat, by)] for a one-character string pattern: only the
    first occurrence is replaced. *)
Fixpoint replace (s : string) (pat : ascii) (by_ : string) : string :=
  match s with
  | EmptyString => EmptyString
  | String c s' =>
      if Ascii.eqb c pat then by_ +:+ s'
      else String c (replace s' pat by_)
  end.

(** [arr.includes(x)] on an array of strings. *)
Definition includes (arr : list string) (x : string) : bool :=
  existsb (String.eqb x) arr.

(** A template literal hole, [`${v}`], for a possibly undefined string. *)
Definition template (v : option string) : string :=
  match v with Some s => s | None => "undefined" end.

End JS.

(** A thrown value: the code only reads [error.name] and [error.message]. *)
Module Error.
Record t := mk { name : string; message : string }.
Definition TypeError (msg : string) : t := mk "TypeError" msg.
End Error.

(* ===================================================================== *)
(** ** Data model (SDK shapes, restricted to the fields the code reads)   *)
(* ===================================================================== *)

(** An entry of [user.Attributes]. [Value] may be [undefined]. *)
Record AttributeType := mkAttr { Name : string; Value : option string }.

(** A user as returned by [listUsers]. *)
Record UserType := mkUser {
  Username : string;
  Attributes : list AttributeType;
  UserCreateDate : option string;
  UserLastModifiedDate : option string;
  Enabled : option bool;
  UserStatus : option string;
  MFAOptions : list (string * string)
}.

(* ===================================================================== *)
(** ** Anonymization ([src/unnamed/part_000], lines 122-169)              *)
(* ===================================================================== *)

(** [names = moniker.generator([moniker.adjective, moniker.noun])]: the
    package is not part of the repository; [choose] is [names.choose()],
    a draw that advances the generator. *)
Class Moniker := {
  Rng : Type;
  choose : Rng -> string * Rng
}.

(** What the memoized function returns. [split('-')[i]] is [undefined]
    when the name has fewer parts. *)
Record Identity := mkIdentity {
  first : option string;
  last : option string;
  email : string
}.

(** A DynamoDB member item: [member.email.S] and the remaining columns. *)
Record Member := mkMember {
  member_email_S : string;
  member_columns : list (string * string)
}.

Section Anonymize.
Context `{Moniker}.

(** The state the helpers touch: lodash's cache (a map keyed by the first
    argument) and the generator. *)
Record ScrubState := mkScrub {
  cache : gmap string Identity;
  rng : Rng
}.

(** The function under [memoize] (lines 122-134). *)
Definition scrubbedEmail (email : string) (g : Rng) : Identity * Rng :=
  let domain := JS.substring email (JS.indexOf email "@") in
  let '(name, g') := choose g in
  let first := JS.split name "-" !! 0%nat in
  let last := JS.split name "-" !! 1%nat in
  let newEmail := JS.replace name "-" "." +:+ domain in
  (mkIdentity first last newEmail, g').

(** [memoize(func)] of lodash: the cached value when the key is present,
    otherwise the computed value, stored under the key. *)
Definition memoize (func : string -> Rng -> Identity * Rng)
    (key : string) (st : ScrubState) : Identity * ScrubState :=
  match cache st !! key with
  | Some v => (v, st)
  | None =>
      let '(v, g') := func key (rng st) in
      (v, mkScrub (<[key := v]> (cache st)) g')
  end.

Definition scrubbedEmailMemo : string -> ScrubState -> Identity * ScrubState :=
  memoize scrubbedEmail.

(** The names whose attributes are dropped before the new ones are added
    (line 149). *)
Definition scrubbedNames : list string :=
  ["given_name"; "family_name"; "preferred_name"; "email"].

(** [oldEmail] of line 137. *)
Definition oldEmail (user : UserType) : option string :=
  Value (default (mkAttr "email" (Some ""))
           (List.find (fun attr => String.eqb (Name attr) "email")
                      (Attributes user))).

(** Lines 136-156. Calling [endsWith] on [undefined] throws. *)
Definition scrubPoolUser (user : UserType) (st : ScrubState)
  : (Error.t + UserType) * ScrubState :=
  match oldEmail user with
  | None =>
      (inl (Error.TypeError "Cannot read properties of undefined (reading 'endsWith')"), st)
  | Some oldEmail =>
      if JS.endsWith oldEmail "cleo.com" || JS.endsWith oldEmail "mailosaur.io"
      then (inr user, st)
      else
        let '(id, st') := scrubbedEmailMemo oldEmail st in
        let newEmail := email id in
        let isUserNameAnEmail := (0 <=? JS.indexOf (Username user) "@")%Z in
        (inr {| Username := if isUserNameAnEmail then newEmail else Username user;
                Attributes :=
                  List.filter (fun attr => negb (JS.includes scrubbedNames (Name attr)))
                              (Attributes user)
                  ++ [ mkAttr "email" (Some newEmail);
                       mkAttr "given_name" (first id);
                       mkAttr "family_name" (last id) ];
                UserCreateDate := UserCreateDate user;
                UserLastModifiedDate := UserLastModifiedDate user;
                Enabled := Enabled user;
                UserStatus := UserStatus user;
                MFAOptions := MFAOptions user |}, st')
  end.

(** Lines 158-169. *)
Definition scrubMember (member : Member) (st : ScrubState) : Member * ScrubState :=
  let domain := JS.substring (member_email_S member)
                             (JS.indexOf (member_email_S member) "@") in
  if JS.endsWith domain "cleo.com" || JS.endsWith domain "mailosaur.io"
  then (member, st)
  else
    let '(id, st') := scrubbedEmailMemo (member_email_S member) st in
    (mkMember (email id) (member_columns member), st').

(** Calling the memoized transform on a list of addresses, in order. *)
Fixpoint scrubAll (emails : list string) (st : ScrubState) : ScrubState :=
  match emails with
  | [] => st
  | e :: es => scrubAll es (snd (scrubbedEmailMemo e st))
  end.

(** [id] is what the function under [memoize] makes of [key] at some
    draw of the generator. *)
Definition fabricated (key : string) (id : Identity) : Prop :=
  exists g, id = fst (scrubbedEmail key g).

(** Every cached identity was made by the function under [memoize] for
    its key: true of the empty cache, and kept by every call. *)
Definition cacheFabricated (st : ScrubState) : Prop :=
  forall key id, cache st !! key = Some id -> fabricated key id.

(** The predicates of lines 137 and 149. *)
Definition isEmailAttr (attr : AttributeType) : bool :=
  String.eqb (Name attr) "email".

Definition isScrubbedAttr (attr : AttributeType) : bool :=
  JS.includes scrubbedNames (Name attr).

End Anonymize.

(** A generator for the examples: it walks through a fixed word list. *)
Definition sampleNames : list string :=
  ["quiet-river"; "brave-otter"; "calm-meadow"].

#[export] Instance sampleMoniker : Moniker := {|
  Rng := nat;
  choose := fun n => (List.nth (n mod 3) sampleNames "quiet-river", S n)
|}.

(** A generator that draws a name of three parts, as happens when the
    adjective has a hyphen of its own. *)
Definition hyphenatedMoniker : Moniker := {|
  Rng := unit;
  choose := fun g => ("old-fashioned-sponge", g)
|}.


(* ===================================================================== *)
(** ** The remote service                                                 *)
(* ===================================================================== *)

(** A user pool as listed by [listUserPools]. *)
Module UserPoolDescriptionType.
Record t := mk { Id : string; Name : string }.
End UserPoolDescriptionType.

(** An identity pool as listed by [listIdentityPools]. *)
Module IdentityPoolShortDescription.
Record t := mk { IdentityPoolId : string; IdentityPoolName : string }.
End IdentityPoolShortDescription.

Module ListUserPoolsResponse.
Record t := mk {
  UserPools : option (list UserPoolDescriptionType.t);
  NextToken : option string
}.
End ListUserPoolsResponse.

Module ListIdentityPoolsResponse.
Record t := mk {
  IdentityPools : option (list IdentityPoolShortDescription.t);
  NextToken : option string
}.
End ListIdentityPoolsResponse.

Module ListUsersResponse.
Record t := mk {
  Users : option (list UserType);
  PaginationToken : option string
}.
End ListUsersResponse.

Module CognitoIdentityProvider.
Record t := mk {
  ProviderName : option string;
  ClientId : option string;
  ServerSideTokenCheck : option bool
}.
End CognitoIdentityProvider.

(** The answer of [describeIdentityPool]. *)
Module IdentityPool.
Record t := mk {
  IdentityPoolId : string;
  CognitoIdentityProviders : option (list CognitoIdentityProvider.t)
}.
End IdentityPool.

Module UserPoolType.
Record t := mk { Id : option string; Domain : option string }.
End UserPoolType.

Module DescribeUserPoolResponse.
Record t := mk { UserPool : option UserPoolType.t }.
End DescribeUserPoolResponse.

(** The SDK calls the code issues, with the parameters it passes. *)
Inductive Request :=
| ListUserPools (MaxResults : nat) (NextToken : option string)
| ListIdentityPools (MaxResults : nat) (NextToken : option string)
| ListUsers (UserPoolId : string) (PaginationToken : option string)
| DescribeIdentityPool (IdentityPoolId : string)
| DescribeUserPool (UserPoolId : string)
| DeleteUserPoolDomain (UserPoolId : string) (Domain : string)
| DeleteUserPool (UserPoolId : string)
| DeleteIdentityPool (IdentityPoolId : string).

(** What each call resolves to. *)
Definition Response (r : Request) : Type :=
  match r with
  | ListUserPools _ _ => ListUserPoolsResponse.t
  | ListIdentityPools _ _ => ListIdentityPoolsResponse.t
  | ListUsers _ _ => ListUsersResponse.t
  | DescribeIdentityPool _ => IdentityPool.t
  | DescribeUserPool _ => DescribeUserPoolResponse.t
  | DeleteUserPoolDomain _ _ => unit
  | DeleteUserPool _ => unit
  | DeleteIdentityPool _ => unit
  end.

(** The backend: every call either rejects with an error or resolves, and
    moves the backend to a new state. *)
Class Remote := {
  World : Type;
  send : forall r : Request, World -> (Error.t + Response r) * World
}.

(** SDK responses are objects, hence truthy. *)
#[export] Instance ListUserPoolsResponse_truthy : Truthy ListUserPoolsResponse.t :=
  fun _ => true.
#[export] Instance ListIdentityPoolsResponse_truthy : Truthy ListIdentityPoolsResponse.t :=
  fun _ => true.

(* ===================================================================== *)
(** ** Records the run annotates                                          *)
(* ===================================================================== *)

(** A listed user pool, with the fields the classification may add. *)
Module UserPool.
Record t := mk {
  description : UserPoolDescriptionType.t;
  isPrepareToDelete : option bool;
  reasonDelete : option string;
  poolUsers : option (list UserType)
}.
Definition Id (pool : t) : string := UserPoolDescriptionType.Id (description pool).
Definition Name (pool : t) : string := UserPoolDescriptionType.Name (description pool).
(** The object as the SDK hands it over. *)
Definition listed (d : UserPoolDescriptionType.t) : t := mk d None None None.
End UserPool.

(** A listed identity pool, with the fields the classification may add. *)
Module IdentityPoolRecord.
Record t := mk {
  description : IdentityPoolShortDescription.t;
  isPrepareToDelete : option bool;
  reasonDelete : option string
}.
Definition IdentityPoolId (pool : t) : string :=
  IdentityPoolShortDescription.IdentityPoolId (description pool).
Definition listed (d : IdentityPoolShortDescription.t) : t := mk d None None.
End IdentityPoolRecord.

(** What [jsonfile.writeFileSync] is given. *)
Inductive Snapshot :=
| UserPools (pools : list UserPool.t)
| IdentityPools (pools : list IdentityPoolRecord.t).

(** What a run does to the outside, in order. *)
Inductive Event :=
| Sent (r : Request) (rejected : bool)
| Wrote (path : string) (content : Snapshot).

(* ===================================================================== *)
(** ** The program monad: state, rejections, and a step budget            *)
(* ===================================================================== *)

Section Program.
Context `{Remote}.

(** The process state: the backend, what has been done to the outside so
    far, and the two module-level caches (lines 81-82). *)
Record State := mkState {
  world : World;
  trace : list Event;
  cachedUserPoolIds : list UserPool.t;
  cachedIdentityPoolIds : list IdentityPoolRecord.t
}.

(** How an awaited computation ends: it resolves, it rejects, or it is
    still running when the step budget of the model is used up. *)
Inductive Outcome (A : Type) :=
| Returned (a : A) (st : State)
| Thrown (error : Error.t) (st : State)
| Pending.
Global Arguments Returned {A} a st.
Global Arguments Thrown {A} error st.
Global Arguments Pending {A}.

Definition M (A : Type) : Type := State -> Outcome A.

Global Instance M_ret : MRet M := fun A a st => Returned a st.

Global Instance M_bind : MBind M := fun A B k m st =>
  match m st with
  | Returned a st' => k a st'
  | Thrown e st' => Thrown e st'
  | Pending => Pending
  end.

Definition throw {A} (error : Error.t) : M A := fun st => Thrown error st.

Definition pending {A} : M A := fun _ => Pending.

(** The [try] block of a [try]/[catch]: a rejection becomes a value. *)
Definition attempt {A} (body : M A) : M (Error.t + A) := fun st =>
  match body st with
  | Returned a st' => Returned (inr a) st'
  | Thrown e st' => Returned (inl e) st'
  | Pending => Pending
  end.

(** [await sdk.operation(request).promise()] *)
Definition call (r : Request) : M (Response r) := fun st =>
  match send r (world st) with
  | (inr response, w) =>
      Returned response
        (mkState w (trace st ++ [Sent r false])
                 (cachedUserPoolIds st) (cachedIdentityPoolIds st))
  | (inl error, w) =>
      Thrown error
        (mkState w (trace st ++ [Sent r true])
                 (cachedUserPoolIds st) (cachedIdentityPoolIds st))
  end.

(** [jsonfile.writeFileSync(path, content, { spaces: 2 })] *)
Definition writeFileSync (path : string) (content : Snapshot) : M unit := fun st =>
  Returned tt
    (mkState (world st) (trace st ++ [Wrote path content])
             (cachedUserPoolIds st) (cachedIdentityPoolIds st)).

Definition getState : M State := fun st => Returned st st.

Definition setCachedUserPoolIds (pools : list UserPool.t) : M unit := fun st =>
  Returned tt (mkState (world st) (trace st) pools (cachedIdentityPoolIds st)).

Definition setCachedIdentityPoolIds (pools : list IdentityPoolRecord.t) : M unit :=
  fun st =>
  Returned tt (mkState (world st) (trace st) (cachedUserPoolIds st) pools).

(** [for (const x of items) { body }] where the body may replace fields
    of [x]: the loop yields the items as the bodies leave them. *)
Fixpoint forOf {A B} (items : list A) (body : A -> M B) : M (list B) :=
  match items with
  | [] => mret []
  | x :: rest =>
      y ← body x;
      ys ← forOf rest body;
      mret (y :: ys)
  end.

(** [for (const x of items) { body }] where [items] is the array a cache
    holds. The items are the cached objects themselves, so what the body
    assigns to the fields of [x] is assigned in the cache at once:
    [store i y] puts the object as the body left it at index [i]. When a
    body rejects, the objects before it stay as they were marked. *)
Fixpoint forOfCached {A} (store : nat -> A -> M unit) (i : nat)
    (items : list A) (body : A -> M A) : M (list A) :=
  match items with
  | [] => mret []
  | x :: rest =>
      y ← body x;
      store i y;;
      ys ← forOfCached store (S i) rest body;
      mret (y :: ys)
  end.

(** The object at index [i] of [cachedUserPoolIds] gets the fields of
    [pool]. *)
Definition storeCachedUserPool (i : nat) (pool : UserPool.t) : M unit :=
  st ← getState;
  setCachedUserPoolIds (<[i := pool]> (cachedUserPoolIds st)).

(** The object at index [i] of [cachedIdentityPoolIds] gets the fields
    of [pool]. *)
Definition storeCachedIdentityPool (i : nat) (pool : IdentityPoolRecord.t) : M unit :=
  st ← getState;
  setCachedIdentityPoolIds (<[i := pool]> (cachedIdentityPoolIds st)).

(* =================================================================== *)
(** ** Paged fetch ([src/index.ts] 36-56, [src/unnamed/part_000] 37-58) *)
(* =================================================================== *)

Section PagedFetch.
Context {TAPIResult TData TNextToken TParams : Type}.
Context `{Truthy TAPIResult} `{Truthy TNextToken}.
Variable action : TParams -> option TNextToken -> M TAPIResult.
Variable params : TParams.
Variable accessor : TAPIResult -> option (list TData).
Variable getNextToken : TAPIResult -> list TData -> M (option TNextToken).

(** The [do ... while (!!nextToken)] loop, one iteration per unit of
    [fuel].  [accessor(response)] is an array whenever it is truthy. *)
Fixpoint pagedAWSCall_loop (fuel : nat) (result : list TData)
    (nextToken : option TNextToken) : M (list TData) :=
  match fuel with
  | O => pending
  | S fuel =>
      response ← action params nextToken;
      let result :=
        if truthy response && truthy (accessor response)
        then result ++ default [] (accessor response)
        else result in
      nextToken ← (if truthy response
                   then getNextToken response result
                   else mret None);
      if truthy nextToken
      then pagedAWSCall_loop fuel result nextToken
      else mret result
  end.

Definition pagedAWSCall (fuel : nat) : M (list TData) :=
  pagedAWSCall_loop fuel [] None.

(** The items a fetched page carries (none when the response or the
    accessed field is falsy). *)
Definition pageItems (response : TAPIResult) : list TData :=
  if truthy response then default [] (accessor response) else [].

(** The cursor after a fetched page: what the cursor-extraction
    function yields, and no cursor when there is no response to ask
    it about. *)
Definition pageCursor (response : TAPIResult) (result : list TData)
  : M (option TNextToken) :=
  if truthy response then getNextToken response result else mret None.

(** [Fetched st cursor result pages st']: from state [st], with
    [cursor] as the token to send and [result] accumulated so far, the
    action is invoked once per element of [pages], its successive
    answers. The cursor extracted after a page is truthy exactly when
    another page follows, and is then the token of the next
    invocation. [st'] is the state after the last extraction. *)
Inductive Fetched : State -> option TNextToken -> list TData ->
                    list TAPIResult -> State -> Prop :=
| Fetched_last st cursor result response st1 next st2 :
    action params cursor st = Returned response st1 ->
    pageCursor response (result ++ pageItems response) st1 = Returned next st2 ->
    truthy next = false ->
    Fetched st cursor result [response] st2
| Fetched_more st cursor result response st1 next st2 pages st3 :
    action params cursor st = Returned response st1 ->
    pageCursor response (result ++ pageItems response) st1 = Returned next st2 ->
    truthy next = true ->
    Fetched st2 next (result ++ pageItems response) pages st3 ->
    Fetched st cursor result (response :: pages) st3.

End PagedFetch.

(* =================================================================== *)
(** ** User enumeration ([src/index.ts] 58-79, part_000 182-206)        *)
(* =================================================================== *)

(** The test of the [catch] block, lines 71-73. *)
Definition isMissingAttributes (error : Error.t) : bool :=
  String.eqb (Error.name error) "InvalidParameterException"
  && (0 <=? JS.indexOf (Error.message error)
                       "One or more requested attributes do not exist")%Z.

(** One unit of [fuel] per [listUsers] call. Spreading an undefined
    [Users] throws inside the [try]; the recursive calls are returned
    without [await], so their rejections bypass this frame's [catch]. *)
Fixpoint getAllUsers (fuel : nat) (poolId : string)
    (accumedUsers : list UserType) (includeCustomAttrs : bool)
    (pageToken : option string) : M (list UserType) :=
  match fuel with
  | O => pending
  | S fuel =>
      tried ← attempt (
        response ← call (ListUsers poolId pageToken);
        match ListUsersResponse.Users response with
        | Some cognitoUsers =>
            mret (cognitoUsers, ListUsersResponse.PaginationToken response)
        | None => throw (Error.TypeError "cognitoUsers is not iterable")
        end);
      match tried with
      | inr (cognitoUsers, nextPageToken) =>
          if truthy nextPageToken
          then getAllUsers fuel poolId (accumedUsers ++ cognitoUsers)
                           includeCustomAttrs nextPageToken
          else mret (accumedUsers ++ cognitoUsers)
      | inl error =>
          if includeCustomAttrs && isMissingAttributes error
          then getAllUsers fuel poolId accumedUsers false pageToken
          else throw error
      end
  end.

(** The enumeration as the specification words the retry: after a
    missing-attributes rejection it starts over, with no accumulated
    users and no page token. Only used for comparison. *)
Fixpoint getAllUsers_restarting (fuel : nat) (poolId : string)
    (accumedUsers : list UserType) (includeCustomAttrs : bool)
    (pageToken : option string) : M (list UserType) :=
  match fuel with
  | O => pending
  | S fuel =>
      tried ← attempt (
        response ← call (ListUsers poolId pageToken);
        match ListUsersResponse.Users response with
        | Some cognitoUsers =>
            mret (cognitoUsers, ListUsersResponse.PaginationToken response)
        | None => throw (Error.TypeError "cognitoUsers is not iterable")
        end);
      match tried with
      | inr (cognitoUsers, nextPageToken) =>
          if truthy nextPageToken
          then getAllUsers_restarting fuel poolId (accumedUsers ++ cognitoUsers)
                                      includeCustomAttrs nextPageToken
          else mret (accumedUsers ++ cognitoUsers)
      | inl error =>
          if includeCustomAttrs && isMissingAttributes error
          then getAllUsers_restarting fuel poolId [] false None
          else throw error
      end
  end.

(** The number of rejected calls in a trace. *)
Definition rejections (events : list Event) : nat :=
  length (List.filter (fun ev => match ev with Sent _ rejected => rejected | _ => false end)
                      events).

(** The calls of a trace, each with whether it was rejected. *)
Definition requests (events : list Event) : list (Request * bool) :=
  omap (fun ev => match ev with
                  | Sent r rejected => Some (r, rejected)
                  | Wrote _ _ => None
                  end) events.

(** The state after [call r] when the backend moved to [w]. *)
Definition afterCall (st : State) (r : Request) (rejected : bool) (w : World) : State :=
  mkState w (trace st ++ [Sent r rejected])
          (cachedUserPoolIds st) (cachedIdentityPoolIds st).

(* =================================================================== *)
(** ** Inventory caches ([src/index.ts] 81-141, part_000 208-271)       *)
(* =================================================================== *)

Definition listIdentityPools (fuel : nat) : M (list IdentityPoolRecord.t) :=
  st ← getState;
  (if (length (cachedIdentityPoolIds st) =? 0)%nat then
     result ← pagedAWSCall
       (fun (params : nat) nextToken => call (ListIdentityPools params nextToken))
       60%nat
       (fun response => ListIdentityPoolsResponse.IdentityPools response)
       (fun response _ => mret (ListIdentityPoolsResponse.NextToken response))
       fuel;
     st ← getState;
     setCachedIdentityPoolIds
       (cachedIdentityPoolIds st ++ map IdentityPoolRecord.listed result)
   else mret tt);;
  st ← getState;
  mret (cachedIdentityPoolIds st).

Definition listUserPools (fuel : nat) : M (list UserPool.t) :=
  st ← getState;
  (if (length (cachedUserPoolIds st) =? 0)%nat then
     result ← pagedAWSCall
       (fun (params : nat) nextToken => call (ListUserPools params nextToken))
       60%nat
       (fun response => ListUserPoolsResponse.UserPools response)
       (fun response _ => mret (ListUserPoolsResponse.NextToken response))
       fuel;
     st ← getState;
     setCachedUserPoolIds (cachedUserPoolIds st ++ map UserPool.listed result)
   else mret tt);;
  st ← getState;
  mret (cachedUserPoolIds st).

(* =================================================================== *)
(** ** Classification ([src/index.ts] 143-234, part_000 273-364)        *)
(* =================================================================== *)

(** The body of the loop over user pools, lines 148-173. The [catch]
    only logs. *)
Definition classifyUserPool (fuel : nat) (pool : UserPool.t) : M UserPool.t :=
  let poolId := UserPool.Id pool in
  tried ← attempt (
    poolUsers ← getAllUsers fuel poolId [] true None;
    let isAllUserForceChangePassword :=
      (0 <? length poolUsers)%nat
      && forallb (fun poolUser =>
                    bool_decide (UserStatus poolUser = Some "FORCE_CHANGE_PASSWORD"))
                 poolUsers in
    let isEmptyUsers := (length poolUsers =? 0)%nat in
    let pool :=
      if isEmptyUsers
      then UserPool.mk (UserPool.description pool)
                       (Some true) (Some "Is empty users") (Some poolUsers)
      else pool in
    let pool :=
      if isAllUserForceChangePassword
      then UserPool.mk (UserPool.description pool)
                       (Some true) (Some "Is all users force change password")
                       (Some poolUsers)
      else pool in
    mret pool);
  match tried with
  | inr pool => mret pool
  | inl error => mret pool
  end.

(** Lines 200-206; [realPools] is the variable the closure captures. *)
Definition findUserPoolByProviderName (realPools : list UserPool.t)
    (providerName : option string) : list UserPool.t :=
  let userPoolMatchs :=
    List.filter
      (fun pool =>
         truthy ((fun p => JS.endsWith p ("/" +:+ UserPool.Id pool)) <$> providerName))
      realPools in
  if truthy ((fun p => JS.startsWith p "cognito-idp") <$> providerName)
     && (0 <? length userPoolMatchs)%nat
  then userPoolMatchs
  else [].

(** The body of the loop over identity pools, lines 208-224. When the
    answer has no [CognitoIdentityProviders], the first test is false
    and the second reads [length] of [undefined]. *)
Definition classifyIdentityPool (realPools : list UserPool.t)
    (identityPool : IdentityPoolRecord.t) : M IdentityPoolRecord.t :=
  response ← call (DescribeIdentityPool (IdentityPoolRecord.IdentityPoolId identityPool));
  match IdentityPool.CognitoIdentityProviders response with
  | None =>
      throw (Error.TypeError "Cannot read properties of undefined (reading 'length')")
  | Some providers =>
      if (length providers =? 0)%nat then
        mret (IdentityPoolRecord.mk (IdentityPoolRecord.description identityPool)
                (Some true) (Some "CognitoIdentityProviders empty"))
      else if (length providers =? 1)%nat then
        let providerName := providers !! 0%nat ≫= CognitoIdentityProvider.ProviderName in
        let userPoolMatchs := findUserPoolByProviderName realPools providerName in
        if (length userPoolMatchs =? 0)%nat then
          mret (IdentityPoolRecord.mk (IdentityPoolRecord.description identityPool)
                  (Some true)
                  (Some ("ProviderName " +:+ JS.template providerName
                         +:+ " not match any user pool")))
        else mret identityPool
      else mret identityPool
  end.

(** Lines 145-195: list the user pools, classify them, write their two
    snapshots. [pools] is the array of the cache, so the loop marks the
    cached objects (the body assigns after its last [await]: nothing
    rejects between the assignments and the end of the body). It yields
    [deletePools] and [realPools]. *)
Definition auditUserPools (fuel : nat) : M (list UserPool.t * list UserPool.t) :=
  pools ← listUserPools fuel;
  pools ← forOfCached storeCachedUserPool 0 pools (classifyUserPool fuel);
  let deletePools :=
    List.filter (fun pool => truthy (UserPool.isPrepareToDelete pool)) pools in
  writeFileSync "./data/eu-central-1/delete-pools.json" (UserPools deletePools);;
  let realPools :=
    List.filter (fun pool => negb (truthy (UserPool.isPrepareToDelete pool))) pools in
  writeFileSync "./data/eu-central-1/keep-pools.json" (UserPools realPools);;
  mret (deletePools, realPools).

(** Lines 197-234: list the identity pools, classify them against
    [realPools], write their two snapshots. [identityPools] is the array
    of the cache, and the assignments are the last statements of the
    body. It yields [deleteIdentityPools]. *)
Definition auditIdentityPools (fuel : nat) (realPools : list UserPool.t)
  : M (list IdentityPoolRecord.t) :=
  identityPools ← listIdentityPools fuel;
  identityPools ← forOfCached storeCachedIdentityPool 0 identityPools
                              (classifyIdentityPool realPools);
  let deleteIdentityPools :=
    List.filter (fun pool => truthy (IdentityPoolRecord.isPrepareToDelete pool))
                identityPools in
  writeFileSync "./data/eu-central-1/delete-identity-pools.json"
                (IdentityPools deleteIdentityPools);;
  let keepIdentityPools :=
    List.filter (fun pool => negb (truthy (IdentityPoolRecord.isPrepareToDelete pool)))
                identityPools in
  writeFileSync "./data/eu-central-1/keep-identity-pools.json"
                (IdentityPools keepIdentityPools);;
  mret deleteIdentityPools.

(** The part both entry points share, lines 145-234: the two phases in
    turn. It yields [deletePools] and [deleteIdentityPools]. *)
Definition audit (fuel : nat) : M (list UserPool.t * list IdentityPoolRecord.t) :=
  '(deletePools, realPools) ← auditUserPools fuel;
  deleteIdentityPools ← auditIdentityPools fuel realPools;
  mret (deletePools, deleteIdentityPools).

(* =================================================================== *)
(** ** Retirement                                                       *)
(* =================================================================== *)

(** The body of the last loop of both entry points. *)
Definition retireIdentityPool (deleteIdentityPool : IdentityPoolRecord.t) : M unit :=
  call (DeleteIdentityPool (IdentityPoolRecord.IdentityPoolId deleteIdentityPool)).

End Program.

(** [src/index.ts]: the domain of a pool is removed before the pool. *)
Module Index.
Section Index.
Context `{Remote}.

(** The body of the loop of lines 237-253. *)
Definition retireUserPool (deletePool : UserPool.t) : M unit :=
  deleteUP ← call (DescribeUserPool (UserPool.Id deletePool));
  let domain :=
    DescribeUserPoolResponse.UserPool deleteUP ≫= UserPoolType.Domain in
  (if truthy domain
   then call (DeleteUserPoolDomain (UserPool.Id deletePool) (default "" domain))
   else mret tt);;
  call (DeleteUserPool (UserPool.Id deletePool)).

Definition main (fuel : nat) : M unit :=
  '(deletePools, deleteIdentityPools) ← audit fuel;
  forOf deletePools retireUserPool;;
  forOf deleteIdentityPools retireIdentityPool;;
  mret tt.

End Index.
End Index.

(** [src/unnamed/part_000]: the pool is deleted directly. *)
Module Part000.
Section Part000.
Context `{Remote}.

(** The body of the loop of lines 367-373. *)
Definition retireUserPool (deletePool : UserPool.t) : M unit :=
  call (DeleteUserPool (UserPool.Id deletePool)).

Definition main (fuel : nat) : M unit :=
  '(deletePools, deleteIdentityPools) ← audit fuel;
  forOf deletePools retireUserPool;;
  forOf deleteIdentityPools retireIdentityPool;;
  mret tt.

End Part000.
End Part000.

(* ===================================================================== *)
(** ** A scripted backend for the examples                                *)
(* ===================================================================== *)

(** One prepared answer. *)
Inductive Scripted :=
| Rejects (error : Error.t)
| UserPoolsPage (page : ListUserPoolsResponse.t)
| IdentityPoolsPage (page : ListIdentityPoolsResponse.t)
| UsersPage (page : ListUsersResponse.t)
| IdentityPoolAnswer (answer : IdentityPool.t)
| UserPoolAnswer (answer : DescribeUserPoolResponse.t)
| Deleted.

Definition unexpectedAnswer : Error.t :=
  Error.mk "UnexpectedAnswer" "the script has no fitting answer".

(** The prepared answer as the answer to request [r]. *)
Definition answerTo (r : Request) (x : Scripted) : Error.t + Response r :=
  match r return Error.t + Response r with
  | ListUserPools _ _ =>
      match x with UserPoolsPage p => inr p | Rejects e => inl e | _ => inl unexpectedAnswer end
  | ListIdentityPools _ _ =>
      match x with IdentityPoolsPage p => inr p | Rejects e => inl e | _ => inl unexpectedAnswer end
  | ListUsers _ _ =>
      match x with UsersPage p => inr p | Rejects e => inl e | _ => inl unexpectedAnswer end
  | DescribeIdentityPool _ =>
      match x with IdentityPoolAnswer a => inr a | Rejects e => inl e | _ => inl unexpectedAnswer end
  | DescribeUserPool _ =>
      match x with UserPoolAnswer a => inr a | Rejects e => inl e | _ => inl unexpectedAnswer end
  | DeleteUserPoolDomain _ _ =>
      match x with Deleted => inr tt | Rejects e => inl e | _ => inl unexpectedAnswer end
  | DeleteUserPool _ =>
      match x with Deleted => inr tt | Rejects e => inl e | _ => inl unexpectedAnswer end
  | DeleteIdentityPool _ =>
      match x with Deleted => inr tt | Rejects e => inl e | _ => inl unexpectedAnswer end
  end.

(** The backend answers the calls with the prepared answers, in order. *)
Definition scripted : Remote := {|
  World := list Scripted;
  send := fun r w =>
    match w with
    | [] => (inl unexpectedAnswer, [])
    | x :: w' => (answerTo r x, w')
    end
|}.

(** A fresh process in front of a backend in state [w]. *)
Definition start `{Remote} (w : World) : State := mkState w [] [] [].

Definition startScript (script : list Scripted) : @State scripted :=
  @start scripted script.

Definition missingAttributes : Error.t :=
  Error.mk "InvalidParameterException"
           "One or more requested attributes do not exist.".

Definition throttled : Error.t :=
  Error.mk "TooManyRequestsException" "Rate exceeded".

Definition userWithStatus (username status : string) : UserType :=
  mkUser username [] None None (Some true) (Some status) [].

Definition alice : UserType := userWithStatus "alice" "CONFIRMED".
Definition bob : UserType := userWithStatus "bob" "FORCE_CHANGE_PASSWORD".
Definition carol : UserType := userWithStatus "carol" "FORCE_CHANGE_PASSWORD".

Definition usersPage (users : list UserType) (token : option string) : Scripted :=
  UsersPage (ListUsersResponse.mk (Some users) token).

Definition poolA : UserPoolDescriptionType.t :=
  UserPoolDescriptionType.mk "eu-central-1_A" "pool-a".
Definition poolB : UserPoolDescriptionType.t :=
  UserPoolDescriptionType.mk "eu-central-1_B" "pool-b".
Definition poolC : UserPoolDescriptionType.t :=
  UserPoolDescriptionType.mk "eu-central-1_C" "pool-c".

Definition identityX : IdentityPoolShortDescription.t :=
  IdentityPoolShortDescription.mk "eu-central-1:x" "identity-x".
Definition identityY : IdentityPoolShortDescription.t :=
  IdentityPoolShortDescription.mk "eu-central-1:y" "identity-y".

(* ===================================================================== *)
(** ** A small in-memory account for the examples                         *)
(* ===================================================================== *)

(** User pools with their domain and users; identity pools with their
    providers. *)
Record Account := mkAccount {
  accountUserPools :
    list (UserPoolDescriptionType.t * option string * list UserType);
  accountIdentityPools :
    list (IdentityPoolShortDescription.t * list CognitoIdentityProvider.t)
}.

Definition notFound : Error.t :=
  Error.mk "ResourceNotFoundException" "Resource not found".

Definition findUserPool (acc : Account) (id : string) :=
  List.find (fun p => String.eqb (UserPoolDescriptionType.Id (fst (fst p))) id)
            (accountUserPools acc).

Definition findIdentityPool (acc : Account) (id : string) :=
  List.find (fun p => String.eqb (IdentityPoolShortDescription.IdentityPoolId (fst p)) id)
            (accountIdentityPools acc).

(** Listings fit in one page; deletions take effect at once. *)
Definition accountSend (r : Request) (acc : Account)
  : (Error.t + Response r) * Account :=
  match r return (Error.t + Response r) * Account with
  | ListUserPools _ _ =>
      (inr (ListUserPoolsResponse.mk
              (Some (map (fun p => fst (fst p)) (accountUserPools acc))) None), acc)
  | ListIdentityPools _ _ =>
      (inr (ListIdentityPoolsResponse.mk
              (Some (map fst (accountIdentityPools acc))) None), acc)
  | ListUsers id _ =>
      match findUserPool acc id with
      | Some p => (inr (ListUsersResponse.mk (Some (snd p)) None), acc)
      | None => (inl notFound, acc)
      end
  | DescribeIdentityPool id =>
      match findIdentityPool acc id with
      | Some p => (inr (IdentityPool.mk id (Some (snd p))), acc)
      | None => (inl notFound, acc)
      end
  | DescribeUserPool id =>
      match findUserPool acc id with
      | Some p =>
          (inr (DescribeUserPoolResponse.mk
                  (Some (UserPoolType.mk (Some id) (snd (fst p))))), acc)
      | None => (inl notFound, acc)
      end
  | DeleteUserPoolDomain id _ =>
      (inr tt,
       mkAccount
         (map (fun p => if String.eqb (UserPoolDescriptionType.Id (fst (fst p))) id
                        then (fst (fst p), None, snd p) else p)
              (accountUserPools acc))
         (accountIdentityPools acc))
  | DeleteUserPool id =>
      (inr tt,
       mkAccount
         (List.filter
            (fun p => negb (String.eqb (UserPoolDescriptionType.Id (fst (fst p))) id))
            (accountUserPools acc))
         (accountIdentityPools acc))
  | DeleteIdentityPool id =>
      (inr tt,
       mkAccount
         (accountUserPools acc)
         (List.filter
            (fun p => negb (String.eqb
                              (IdentityPoolShortDescription.IdentityPoolId (fst p)) id))
            (accountIdentityPools acc)))
  end.

Definition account : Remote := {| World := Account; send := accountSend |}.

(** Pool A has no users and a domain. *)
Definition accountWithDomain : Account :=
  mkAccount [(poolA, Some "auth-a", [])] [].

(** No user pools, no identity pools. *)
Definition emptyAccount : Account := mkAccount [] [].

(** Sample users for the anonymization examples. *)
Definition bobby : UserType :=
  mkUser "bob@example.org"
         [ mkAttr "preferred_name" (Some "Bobby");
           mkAttr "email" (Some "bob@example.org");
           mkAttr "custom:company" (Some "Example") ]
         None None (Some true) (Some "CONFIRMED") [].

Definition internalUser : UserType :=
  mkUser "dana" [ mkAttr "email" (Some "dana@cleo.com") ]
         None None (Some true) (Some "CONFIRMED") [].

Definition noAtUser : UserType :=
  mkUser "erin" [ mkAttr "email" (Some "cleo.com") ]
         None None (Some true) (Some "CONFIRMED") [].

Definition emailLess1 : UserType :=
  mkUser "frank" [ mkAttr "custom:title" (Some "Dr") ]
         None None (Some true) (Some "CONFIRMED") [].

Definition emailLess2 : UserType :=
  mkUser "grace" [] None None (Some true) (Some "UNCONFIRMED") [].

Definition freshScrub : @ScrubState sampleMoniker := mkScrub ∅ 0%nat.

(** Three pages of user pools: the second carries no items but a cursor. *)
Definition threePages : list Scripted :=
  [ UserPoolsPage (ListUserPoolsResponse.mk (Some [poolA; poolB]) (Some "t1"));
    UserPoolsPage (ListUserPoolsResponse.mk (Some []) (Some "t2"));
    UserPoolsPage (ListUserPoolsResponse.mk (Some [poolC]) None) ].

(** The callbacks [listUserPools] hands to [pagedAWSCall]. *)
Definition fetchUserPools (fuel : nat) : @M scripted (list UserPoolDescriptionType.t) :=
  pagedAWSCall
    (fun (params : nat) nextToken => call (ListUserPools params nextToken))
    60%nat
    (fun response => ListUserPoolsResponse.UserPools response)
    (fun response _ => mret (ListUserPoolsResponse.NextToken response))
    fuel.

(** The first page resolves, the second call is rejected for missing
    attributes, the third resolves. *)
Definition rejectedOnSecondPage : list Scripted :=
  [ usersPage [alice] (Some "t1");
    Rejects missingAttributes;
    usersPage [bob] None ].

(** An account with an empty pool, a pool of never-signed-in users, and a
    pool with one confirmed user; one identity pool per provider shape. *)
Definition sampleAccount : Account :=
  mkAccount
    [ (poolA, None, []);
      (poolB, None, [bob; carol]);
      (poolC, None, [bob; alice]) ]
    [ (identityX, []);
      (identityY,
       [ CognitoIdentityProvider.mk
           (Some "cognito-idp.eu-central-1.amazonaws.com/eu-central-1_C") None None ]) ].

Definition startAccount (acc : Account) : @State account := @start account acc.








(* ===================================================================== *)
(** ** What a run may do: footprints and verdicts                         *)
(* ===================================================================== *)

(** The paths of the four snapshots. *)
Definition deletePoolsPath : string := "./data/eu-central-1/delete-pools.json".
Definition keepPoolsPath : string := "./data/eu-central-1/keep-pools.json".
Definition deleteIdentityPoolsPath : string :=
  "./data/eu-central-1/delete-identity-pools.json".
Definition keepIdentityPoolsPath : string :=
  "./data/eu-central-1/keep-identity-pools.json".

(** The calls that change the account. *)
Definition isDeletion (ev : Event) : Prop :=
  match ev with
  | Sent (DeleteUserPoolDomain _ _) _
  | Sent (DeleteUserPool _) _
  | Sent (DeleteIdentityPool _) _ => True
  | _ => False
  end.

(** The calls of the inventory and classification phase. *)
Definition readsOnly (r : Request) : Prop :=
  match r with
  | ListUserPools _ _ | ListIdentityPools _ _ | ListUsers _ _
  | DescribeIdentityPool _ => True
  | _ => False
  end.

(** The calls the retirement of the user pools [ids] may send. *)
Definition retiresUserPool (ids : list string) (ev : Event) : Prop :=
  match ev with
  | Sent (DescribeUserPool id) _
  | Sent (DeleteUserPoolDomain id _) _
  | Sent (DeleteUserPool id) _ => In id ids
  | _ => False
  end.

(** The calls the retirement of the identity pools [ids] may send. *)
Definition retiresIdentityPool (ids : list string) (ev : Event) : Prop :=
  match ev with
  | Sent (DeleteIdentityPool id) _ => In id ids
  | _ => False
  end.

(** A record the classification has not marked. *)
Definition unmarked (pool : UserPool.t) : Prop :=
  UserPool.isPrepareToDelete pool = None.

Definition unmarkedIdentity (pool : IdentityPoolRecord.t) : Prop :=
  IdentityPoolRecord.isPrepareToDelete pool = None.

(** The calls that delete the user pool [id] or its domain. *)
Definition deletesUserPool (id : string) (ev : Event) : Prop :=
  match ev with
  | Sent (DeleteUserPoolDomain id' _) _
  | Sent (DeleteUserPool id') _ => id' = id
  | _ => False
  end.



Section Footprints.
Context `{Remote}.

(** [settled R m]: whenever [m] resolves or rejects, the states before
    and after are related by [R]. *)
Definition settled {A} (R : State -> State -> Prop) (m : M A) : Prop :=
  forall st,
    match m st with
    | Returned _ st' | Thrown _ st' => R st st'
    | Pending => True
    end.

(** [appended P st st']: the trace of [st'] is the trace of [st] followed
    by events that satisfy [P]. *)
Definition appended (P : Event -> Prop) (st st' : State) : Prop :=
  exists more, trace st' = trace st ++ more /\ Forall P more.

(** The identity-pool cache is the same in both states. *)
Definition sameIdentityCache (st st' : State) : Prop :=
  cachedIdentityPoolIds st' = cachedIdentityPoolIds st.

(** The user-pool cache is the same in both states. *)
Definition sameUserCache (st st' : State) : Prop :=
  cachedUserPoolIds st' = cachedUserPoolIds st.

(** [m] has run to an end in [st']. *)
Definition endsIn (m : M unit) (st st' : State) : Prop :=
  m st = Returned tt st' \/ exists error, m st = Thrown error st'.




(** In the audit that starts in [st], the enumeration of the users of
    [pool] returned [users]: the list call put the pool after the pools
    [listedBefore], the loop over these ended in [st1], and from there the
    enumeration returned [users]. *)
Definition enumeratedAs (fuel : nat) (st : State) (pool : UserPool.t)
    (users : list UserType) : Prop :=
  exists listedBefore listedPool listedAfter st0 done st1 st2,
    listUserPools fuel st = Returned (listedBefore ++ listedPool :: listedAfter) st0
    /\ forOfCached storeCachedUserPool 0 listedBefore (classifyUserPool fuel) st0
       = Returned done st1
    /\ UserPool.description listedPool = UserPool.description pool
    /\ getAllUsers fuel (UserPool.Id pool) [] true None st1 = Returned users st2.

(** In the audit that starts in [st], the describe call for the identity
    pool [pool] was answered with [response], and the user pools retained
    at that time were [realPools]. *)
Definition describedAs (fuel : nat) (st : State) (pool : IdentityPoolRecord.t)
    (realPools : list UserPool.t) (response : IdentityPool.t) : Prop :=
  exists deletePools stA listedBefore listedPool listedAfter st0 done st1 st2,
    auditUserPools fuel st = Returned (deletePools, realPools) stA
    /\ listIdentityPools fuel stA
       = Returned (listedBefore ++ listedPool :: listedAfter) st0
    /\ forOfCached storeCachedIdentityPool 0 listedBefore
                   (classifyIdentityPool realPools) st0
       = Returned done st1
    /\ IdentityPoolRecord.description listedPool = IdentityPoolRecord.description pool
    /\ call (DescribeIdentityPool (IdentityPoolRecord.IdentityPoolId pool)) st1
       = Returned response st2.

End Footprints.

(** The events of the inventory and classification phase. *)
Definition readEvent (ev : Event) : Prop :=
  match ev with
  | Sent r _ => readsOnly r
  | Wrote _ _ => False
  end.

(** The trace the audit leaves when it completes: reads, the two
    user-pool snapshots, reads, the two identity-pool snapshots. *)
Definition auditTrace (reads1 reads2 : list Event)
    (deletePools keepPools : list UserPool.t)
    (deleteIdentityPools keepIdentityPools : list IdentityPoolRecord.t) : list Event :=
  reads1
  ++ [ Wrote deletePoolsPath (UserPools deletePools);
       Wrote keepPoolsPath (UserPools keepPools) ]
  ++ reads2
  ++ [ Wrote deleteIdentityPoolsPath (IdentityPools deleteIdentityPools);
       Wrote keepIdentityPoolsPath (IdentityPools keepIdentityPools) ].


(** The fresh process of [startAccount sampleAccount] has empty caches. *)
Definition sampleStart : @State account := startAccount sampleAccount.

(** The shape both entry points share: the audit, then the two
    retirement loops, the first with the loop body [retire]. *)
Definition runWith `{Remote} (retire : UserPool.t -> M unit) (fuel : nat) : M unit :=
  '(deletePools, deleteIdentityPools) ← audit fuel;
  forOf deletePools retire;;
  forOf deleteIdentityPools retireIdentityPool;;
  mret tt.

(** The state in which the run of [src/index.ts] on [sampleAccount] ends. *)
Definition sampleEnd : @State account :=
  Eval vm_compute in
    match @Index.main account 5 sampleStart with
    | Returned _ st' => st'
    | _ => sampleStart
    end.


(* ===================================================================== *)
(** ** Table scan ([src/unnamed/part_000], lines 171-180)                 *)
(* ===================================================================== *)

(** A DynamoDB item or key: an object of named attribute values. *)
Record AttributeMap := mkAttributeMap { attributeValues : list (string * string) }.

(** The answer of [dynamo.scan]. *)
Record ScanOutput := mkScanOutput {
  Items : option (list AttributeMap);
  LastEvaluatedKey : option AttributeMap
}.

(** Objects are truthy. *)
#[export] Instance AttributeMap_truthy : Truthy AttributeMap := fun _ => true.
#[export] Instance ScanOutput_truthy : Truthy ScanOutput := fun _ => true.
#[export] Instance ListUsersResponse_truthy : Truthy ListUsersResponse.t := fun _ => true.

Section Scan.
Context `{Remote}.

(** [dynamo.scan({ TableName, ExclusiveStartKey }).promise()]: the table
    service is not among the calls of [Request]; it is a parameter. *)
Variable scan : string -> option AttributeMap -> M ScanOutput.

(** One unit of [fuel] per scan. Spreading an undefined [Items] throws;
    there is no [try] around it. *)
Fixpoint getAllItems (fuel : nat) (tableName : string)
    (accumedMembers : list AttributeMap) (startKey : option AttributeMap)
  : M (list AttributeMap) :=
  match fuel with
  | O => pending
  | S fuel =>
      response ← scan tableName startKey;
      match Items response with
      | Some items =>
          if truthy (LastEvaluatedKey response)
          then getAllItems fuel tableName (accumedMembers ++ items)
                           (LastEvaluatedKey response)
          else mret (accumedMembers ++ items)
      | None => throw (Error.TypeError "items is not iterable")
      end
  end.

End Scan.

(** A table service for the examples: a first page of two items with a
    last key, and a final page of one item for any start key. It leaves
    the state alone. *)
Definition itemNamed (name : string) : AttributeMap :=
  mkAttributeMap [("name", name)].

Definition sampleScan (tableName : string) (startKey : option AttributeMap)
  : @M scripted ScanOutput :=
  match startKey with
  | None => mret (mkScanOutput (Some [itemNamed "a"; itemNamed "b"])
                               (Some (itemNamed "b")))
  | Some _ => mret (mkScanOutput (Some [itemNamed "c"]) None)
  end.

(** The part of an address [scrubbedEmail] and [scrubMember] call the
    domain: from the first [@] on, or the whole address without one. *)
Definition domainOf (address : string) : string :=
  JS.substring address (JS.indexOf address "@").

(** The allow-list tests of [scrubPoolUser] (line 138) and of
    [scrubMember] (line 160). *)
Definition userAllowListed (oldEmail : string) : bool :=
  JS.endsWith oldEmail "cleo.com" || JS.endsWith oldEmail "mailosaur.io".

Definition memberAllowListed (address : string) : bool :=
  JS.endsWith (domainOf address) "cleo.com"
  || JS.endsWith (domainOf address) "mailosaur.io".

Definition sampleMember : Member :=
  mkMember "bob@example.org" [("authPoolId", "eu-central-1_C")].


(** Two pages of users, no rejection. *)
Definition twoUserPages : list Scripted :=
  [ usersPage [alice] (Some "t1"); usersPage [bob] None ].

(** A listing answer without a [Users] array. *)
Definition noUsersArray : list Scripted :=
  [ UsersPage (ListUsersResponse.mk None None) ].

(** Two retained pools with the ids [B] and [AB]. *)
Definition poolShortId : UserPool.t :=
  UserPool.listed (UserPoolDescriptionType.mk "B" "short").
Definition poolLongId : UserPool.t :=
  UserPool.listed (UserPoolDescriptionType.mk "AB" "long").

(** A process whose identity-pool cache holds X and Y as listed, in front
    of a backend that describes X without providers and rejects the
    describe call for Y. *)
Definition secondDescribeRejected : @State scripted :=
  mkState (H := scripted)
    [ IdentityPoolAnswer (IdentityPool.mk "eu-central-1:x" (Some []));
      Rejects throttled ]
    [] []
    [ IdentityPoolRecord.listed identityX; IdentityPoolRecord.listed identityY ].

(** Pool A is described with a domain, and the domain-delete call is
    rejected. *)
Definition domainDeleteRejected : list Scripted :=
  [ UserPoolAnswer
      (DescribeUserPoolResponse.mk
         (Some (UserPoolType.mk (Some "eu-central-1_A") (Some "auth-a"))));
    Rejects throttled;
    Deleted ].

(* ===================================================================== *)
(** * Properties                                                          *)
(* ===================================================================== *)

(** ** Strings *)

Lemma substring_all (s : string) : String.substring 0 (String.length s) s = s.
Proof. induction s as [|c s IH]; simpl; [reflexivity | now rewrite IH]. Qed.

Lemma append_cons (x : ascii) (a b : string) :
  String x a +:+ b = String x (a +:+ b).
Proof. reflexivity. Qed.

Lemma append_empty (b : string) : EmptyString +:+ b = b.
Proof. reflexivity. Qed.

Lemma substring_skip_app (a b : string) :
  String.substring (String.length a) (String.length b) (a +:+ b) = b.
Proof. induction a as [|c a IH]; simpl; [apply substring_all | exact IH]. Qed.

Lemma string_length_app (a b : string) :
  String.length (a +:+ b) = (String.length a + String.length b)%nat.
Proof.
  induction a as [|c a IH]; [reflexivity|].
  rewrite append_cons. simpl. now rewrite IH.
Qed.

Lemma endsWith_app (a b : string) : JS.endsWith (a +:+ b) b = true.
Proof.
  unfold JS.endsWith. rewrite string_length_app.
  destruct (Nat.leb_spec (String.length b) (String.length a + String.length b)) as [_|Hlt];
    [|lia].
  replace (String.length a + String.length b - String.length b)%nat
    with (String.length a) by lia.
  rewrite substring_skip_app. apply String.eqb_refl.
Qed.

Lemma string_app_assoc (a b c : string) : (a +:+ b) +:+ c = a +:+ (b +:+ c).
Proof.
  induction a as [|x a IH]; [reflexivity|].
  rewrite !append_cons. now rewrite IH.
Qed.

(** [hasChar c s]: the character occurs in the string. *)
Fixpoint hasChar (c : ascii) (s : string) : bool :=
  match s with
  | EmptyString => false
  | String x s' => Ascii.eqb x c || hasChar c s'
  end.

Lemma index_char_None (c : ascii) (s : string) :
  String.index 0 (String c EmptyString) s = None <-> hasChar c s = false.
Proof.
  induction s as [|x s IH]; simpl; [tauto|].
  destruct (ascii_dec c x) as [->|Hne].
  - rewrite Ascii.eqb_refl. simpl. destruct s; split; discriminate.
  - assert (Ascii.eqb x c = false) as -> by (apply Ascii.eqb_neq; congruence).
    simpl. destruct (String.index 0 (String c "") s); split; intros Hx.
    + discriminate.
    + apply IH in Hx. discriminate.
    + now apply IH.
    + reflexivity.
Qed.

Lemma indexOf_char_absent (c : ascii) (s : string) :
  JS.indexOf s (String c EmptyString) = (-1)%Z <-> hasChar c s = false.
Proof.
  unfold JS.indexOf. rewrite <- index_char_None.
  destruct (String.index 0 (String c "") s); split; intros Hx; try reflexivity;
    try discriminate; lia.
Qed.

Lemma hasChar_app (c : ascii) (a b : string) :
  hasChar c (a +:+ b) = hasChar c a || hasChar c b.
Proof.
  induction a as [|x a IH]; [reflexivity|].
  rewrite append_cons. simpl. now rewrite IH, orb_assoc.
Qed.

Lemma hasChar_replace (c pat : ascii) (by_ s : string) :
  hasChar c s = false -> hasChar c by_ = false ->
  hasChar c (JS.replace s pat by_) = false.
Proof.
  intros Hs Hby. induction s as [|x s IH]; simpl in *; [reflexivity|].
  apply orb_false_iff in Hs as [Hx Hs].
  destruct (Ascii.eqb x pat).
  - rewrite hasChar_app, Hby, Hs. reflexivity.
  - simpl. rewrite Hx. simpl. now apply IH.
Qed.

Lemma substring_negative (s : string) : JS.substring s (-1) = s.
Proof.
  unfold JS.substring. simpl. rewrite Nat.sub_0_r. apply substring_all.
Qed.

Lemma substring_app_before (a b : string) (i : nat) :
  (i <= String.length a)%nat ->
  String.substring i (String.length (a +:+ b) - i) (a +:+ b)
  = String.substring i (String.length a - i) a +:+ b.
Proof.
  revert i. induction a as [|x a IH]; intros i Hi.
  - simpl in Hi. assert (i = 0)%nat as -> by lia.
    rewrite append_empty, Nat.sub_0_r. simpl. apply substring_all.
  - rewrite append_cons. destruct i as [|i].
    + rewrite !Nat.sub_0_r.
      change (String.length (String x (a +:+ b))) with (S (String.length (a +:+ b))).
      change (String.length (String x a)) with (S (String.length a)).
      simpl. rewrite append_cons. f_equal.
      specialize (IH 0%nat ltac:(lia)). now rewrite !Nat.sub_0_r in IH.
    + simpl in Hi. simpl. apply IH. lia.
Qed.

Lemma index_char_app (c : ascii) (a d : string) :
  exists i, String.index 0 (String c EmptyString) (a +:+ String c d) = Some i
            /\ (i <= String.length a)%nat.
Proof.
  induction a as [|x a [i [Hi Hle]]].
  - exists 0%nat. rewrite append_empty. simpl.
    destruct (ascii_dec c c); [|congruence]. destruct d; split; (reflexivity || lia).
  - rewrite append_cons. simpl. destruct (ascii_dec c x).
    + exists 0%nat. destruct (a +:+ String c d); split; (reflexivity || lia).
    + exists (S i). rewrite Hi. split; [reflexivity | simpl; lia].
Qed.

(** The part of an address from its first [@] on still ends with the
    domain the address ends with. *)
Lemma domain_part_endsWith (localPart domain : string) :
  let address := localPart +:+ "@" +:+ domain in
  JS.endsWith (JS.substring address (JS.indexOf address "@")) domain = true.
Proof.
  intros address. subst address.
  change (localPart +:+ "@" +:+ domain) with (localPart +:+ String "@" domain).
  unfold JS.indexOf.
  destruct (index_char_app "@" localPart domain) as [i [-> Hle]].
  unfold JS.substring. rewrite Z.max_r by lia. rewrite Nat2Z.id.
  rewrite substring_app_before by exact Hle.
  change (String "@" domain) with ("@" +:+ domain).
  rewrite <- string_app_assoc. apply endsWith_app.
Qed.

(** ** Anonymization *)

Section AnonymizeFacts.
Context `{Moniker}.

Lemma memo_hit (key : string) (st : ScrubState) (id : Identity) :
  cache st !! key = Some id -> scrubbedEmailMemo key st = (id, st).
Proof. intros Hhit. unfold scrubbedEmailMemo, memoize. now rewrite Hhit. Qed.

Lemma memo_stores (key : string) (st : ScrubState) :
  cache (snd (scrubbedEmailMemo key st)) !! key = Some (fst (scrubbedEmailMemo key st)).
Proof.
  unfold scrubbedEmailMemo, memoize.
  destruct (cache st !! key) as [id|] eqn:Hk; [exact Hk|].
  destruct (scrubbedEmail key (rng st)) as [id g']. simpl.
  apply lookup_insert_eq.
Qed.

Lemma memo_keeps (key other : string) (st : ScrubState) (id : Identity) :
  cache st !! key = Some id ->
  cache (snd (scrubbedEmailMemo other st)) !! key = Some id.
Proof.
  intros Hk. unfold scrubbedEmailMemo, memoize.
  destruct (cache st !! other) as [id'|] eqn:Ho; [exact Hk|].
  destruct (scrubbedEmail other (rng st)) as [id' g']. simpl.
  rewrite lookup_insert_ne; [exact Hk | congruence].
Qed.

Lemma scrubAll_keeps (between : list string) (key : string) (st : ScrubState)
    (id : Identity) :
  cache st !! key = Some id -> cache (scrubAll between st) !! key = Some id.
Proof.
  revert st. induction between as [|e es IH]; intros st Hk; simpl; [exact Hk|].
  apply IH. now apply memo_keeps.
Qed.

Lemma memo_fabricated (key : string) (st : ScrubState) :
  cacheFabricated st ->
  fabricated key (fst (scrubbedEmailMemo key st))
  /\ cacheFabricated (snd (scrubbedEmailMemo key st)).
Proof.
  intros Hinv. unfold scrubbedEmailMemo, memoize.
  destruct (cache st !! key) as [id|] eqn:Hk.
  - split; [now apply Hinv | exact Hinv].
  - destruct (scrubbedEmail key (rng st)) as [id g'] eqn:Hf. simpl. split.
    + exists (rng st). now rewrite Hf.
    + intros k v. simpl. destruct (decide (key = k)) as [->|Hne].
      * rewrite lookup_insert_eq. intros [= <-]. exists (rng st). now rewrite Hf.
      * rewrite lookup_insert_ne by exact Hne. apply Hinv.
Qed.

Lemma allowListed_suffix (localPart domain : string) :
  In domain ["cleo.com"; "mailosaur.io"] ->
  JS.endsWith (localPart +:+ "@" +:+ domain) "cleo.com"
  || JS.endsWith (localPart +:+ "@" +:+ domain) "mailosaur.io" = true.
Proof.
  intros [<-|[<-|[]]].
  - change (localPart +:+ "@" +:+ "cleo.com")
      with (localPart +:+ ("@" +:+ "cleo.com")).
    rewrite <- string_app_assoc, endsWith_app. reflexivity.
  - change (localPart +:+ "@" +:+ "mailosaur.io")
      with (localPart +:+ ("@" +:+ "mailosaur.io")).
    rewrite <- string_app_assoc, endsWith_app. apply orb_true_r.
Qed.

(** C7. Within one run the anonymization transform is deterministic: a
    second call of [scrubbedEmailMemo] with the same original address, after
    any number of calls for other addresses, yields the same
    [{first, last, email}] as the first; and a user or member whose address
    is on [cleo.com] or [mailosaur.io] is returned unchanged, without
    touching the memo table or the generator. *)
Theorem scrubbedEmailMemo_deterministic
    (st : ScrubState) (original : string) (between : list string) :
  let firstCall := scrubbedEmailMemo original st in
  fst (scrubbedEmailMemo original (scrubAll between (snd firstCall))) = fst firstCall
  /\ (forall (user : UserType) (localPart domain : string),
        In domain ["cleo.com"; "mailosaur.io"] ->
        oldEmail user = Some (localPart +:+ "@" +:+ domain) ->
        scrubPoolUser user st = (inr user, st))
  /\ (forall (member : Member) (localPart domain : string),
        In domain ["cleo.com"; "mailosaur.io"] ->
        member_email_S member = localPart +:+ "@" +:+ domain ->
        scrubMember member st = (member, st)).
Proof.
  intros firstCall. split; [|split].
  - subst firstCall.
    pose proof (memo_stores original st) as Hst.
    apply (scrubAll_keeps between) in Hst.
    now rewrite (memo_hit _ _ _ Hst).
  - intros user localPart domain Hdom Hmail. unfold scrubPoolUser.
    rewrite Hmail, (allowListed_suffix _ _ Hdom). reflexivity.
  - intros member localPart domain Hdom Hmail. unfold scrubMember. rewrite Hmail.
    assert (JS.endsWith
              (JS.substring (localPart +:+ "@" +:+ domain)
                            (JS.indexOf (localPart +:+ "@" +:+ domain) "@")) "cleo.com"
            || JS.endsWith
                 (JS.substring (localPart +:+ "@" +:+ domain)
                               (JS.indexOf (localPart +:+ "@" +:+ domain) "@"))
                 "mailosaur.io" = true) as ->; [|reflexivity].
    destruct Hdom as [<-|[<-|[]]].
    + rewrite (domain_part_endsWith localPart "cleo.com"). reflexivity.
    + rewrite (domain_part_endsWith localPart "mailosaur.io"). apply orb_true_r.
Qed.

Lemma filter_kept_twice {A} (f : A -> bool) (l : list A) :
  List.filter f (List.filter f l) = List.filter f l.
Proof.
  induction l as [|x l IH]; simpl; [reflexivity|].
  destruct (f x) eqn:Hx; simpl; [rewrite Hx; now f_equal | exact IH].
Qed.

Lemma filter_dropped {A} (f : A -> bool) (l : list A) :
  List.filter f (List.filter (fun x => negb (f x)) l) = [].
Proof.
  induction l as [|x l IH]; simpl; [reflexivity|].
  destruct (f x) eqn:Hx; simpl; [exact IH | now rewrite Hx].
Qed.

(** What [scrubPoolUser] returns on the anonymizing path. *)
Lemma scrubPoolUser_anonymizes (user : UserType) (st : ScrubState) (e : string) :
  oldEmail user = Some e ->
  JS.endsWith e "cleo.com" || JS.endsWith e "mailosaur.io" = false ->
  let id := fst (scrubbedEmailMemo e st) in
  scrubPoolUser user st =
    (inr {| Username := if (0 <=? JS.indexOf (Username user) "@")%Z
                        then email id else Username user;
            Attributes :=
              List.filter (fun attr => negb (isScrubbedAttr attr)) (Attributes user)
              ++ [ mkAttr "email" (Some (email id));
                   mkAttr "given_name" (first id);
                   mkAttr "family_name" (last id) ];
            UserCreateDate := UserCreateDate user;
            UserLastModifiedDate := UserLastModifiedDate user;
            Enabled := Enabled user;
            UserStatus := UserStatus user;
            MFAOptions := MFAOptions user |},
     snd (scrubbedEmailMemo e st)).
Proof.
  intros Hmail Hallow id. subst id. unfold scrubPoolUser.
  rewrite Hmail, Hallow.
  destruct (scrubbedEmailMemo e st) as [id st']. reflexivity.
Qed.

(** C8, as the code has it. For a user whose address is anonymized,
    [scrubPoolUser] keeps every attribute whose name is not [given_name],
    [family_name], [preferred_name] or [email], with its value and in the
    original relative order; the attributes with those four names are
    replaced by exactly three new ones ([email], [given_name],
    [family_name]), so a [preferred_name] attribute is dropped; [Username]
    changes only when it contains an [@]; every other field is copied. *)
Theorem scrubPoolUser_frame (user : UserType) (st : ScrubState) (e : string) :
  oldEmail user = Some e ->
  JS.endsWith e "cleo.com" || JS.endsWith e "mailosaur.io" = false ->
  exists user' : UserType,
    let id := fst (scrubbedEmailMemo e st) in
    scrubPoolUser user st = (inr user', snd (scrubbedEmailMemo e st))
    /\ List.filter (fun attr => negb (isScrubbedAttr attr)) (Attributes user')
       = List.filter (fun attr => negb (isScrubbedAttr attr)) (Attributes user)
    /\ List.filter isScrubbedAttr (Attributes user')
       = [ mkAttr "email" (Some (email id));
           mkAttr "given_name" (first id);
           mkAttr "family_name" (last id) ]
    /\ Username user'
       = (if (0 <=? JS.indexOf (Username user) "@")%Z then email id else Username user)
    /\ UserCreateDate user' = UserCreateDate user
    /\ UserLastModifiedDate user' = UserLastModifiedDate user
    /\ Enabled user' = Enabled user
    /\ UserStatus user' = UserStatus user
    /\ MFAOptions user' = MFAOptions user.
Proof.
  intros Hmail Hallow.
  eexists. cbv zeta. split; [apply (scrubPoolUser_anonymizes user st e Hmail Hallow)|].
  cbn [Attributes Username UserCreateDate UserLastModifiedDate Enabled UserStatus MFAOptions].
  rewrite !List.filter_app, filter_dropped.
  rewrite (filter_kept_twice (fun attr => negb (isScrubbedAttr attr))).
  repeat split; try reflexivity.
  apply app_nil_r.
Qed.

(** C10, as the code has it. Names drawn from the generator contain no
    [@], and the memo table holds only identities the transform made.
    Then a user without an [email] attribute is anonymized under the key
    [""]: the new address is the drawn name with its first [-] turned into
    [.], it contains no [@], and every later user without an [email]
    attribute receives the same three attributes. A user whose address has
    no [@] and does not end in [cleo.com] or [mailosaur.io] is anonymized
    too: the derived domain is the whole address, and the new address
    contains no [@]. *)
Theorem scrubPoolUser_without_at (st : ScrubState) (user : UserType) :
  (forall g, JS.indexOf (fst (choose g)) "@" = (-1)%Z) ->
  cacheFabricated st ->
  (List.find isEmailAttr (Attributes user) = None ->
   oldEmail user = Some ""
   /\ exists user' : UserType,
       let id := fst (scrubbedEmailMemo "" st) in
       scrubPoolUser user st = (inr user', snd (scrubbedEmailMemo "" st))
       /\ In (mkAttr "email" (Some (email id))) (Attributes user')
       /\ (exists g, email id = JS.replace (fst (choose g)) "-" ".")
       /\ JS.indexOf (email id) "@" = (-1)%Z
       /\ forall (between : list string) (other : UserType),
            List.find isEmailAttr (Attributes other) = None ->
            exists other' st',
              scrubPoolUser other (scrubAll between (snd (scrubbedEmailMemo "" st)))
              = (inr other', st')
              /\ List.filter isScrubbedAttr (Attributes other')
                 = List.filter isScrubbedAttr (Attributes user'))
  /\ (forall e : string,
        oldEmail user = Some e ->
        JS.indexOf e "@" = (-1)%Z ->
        JS.endsWith e "cleo.com" || JS.endsWith e "mailosaur.io" = false ->
        JS.substring e (JS.indexOf e "@") = e
        /\ exists user' : UserType,
            let id := fst (scrubbedEmailMemo e st) in
            scrubPoolUser user st = (inr user', snd (scrubbedEmailMemo e st))
            /\ In (mkAttr "email" (Some (email id))) (Attributes user')
            /\ (exists g, email id = JS.replace (fst (choose g)) "-" "." +:+ e)
            /\ JS.indexOf (email id) "@" = (-1)%Z).
Proof.
  intros Hnames Hinv.
  assert (Hgen : forall e, JS.indexOf e "@" = (-1)%Z ->
            (exists g, email (fst (scrubbedEmailMemo e st))
                       = JS.replace (fst (choose g)) "-" "." +:+ e)
            /\ JS.indexOf (email (fst (scrubbedEmailMemo e st))) "@" = (-1)%Z).
  { intros e He.
    destruct (memo_fabricated e st Hinv) as [[g Hg] _].
    assert (email (fst (scrubbedEmailMemo e st))
            = JS.replace (fst (choose g)) "-" "." +:+ e) as Hmail.
    { rewrite Hg. unfold scrubbedEmail. rewrite He, substring_negative.
      destruct (choose g) as [name g']. reflexivity. }
    split; [now exists g|].
    rewrite Hmail. apply indexOf_char_absent. rewrite hasChar_app.
    apply indexOf_char_absent in He. rewrite He, orb_false_r.
    apply hasChar_replace; [|reflexivity].
    apply indexOf_char_absent, Hnames. }
  assert (Hempty : forall u, List.find isEmailAttr (Attributes u) = None ->
            oldEmail u = Some "").
  { intros u Hu. unfold oldEmail. fold isEmailAttr. now rewrite Hu. }
  split.
  - intros Hnone. split; [now apply Hempty|].
    eexists. cbv zeta.
    split; [apply (scrubPoolUser_anonymizes user st "" (Hempty _ Hnone) eq_refl)|].
    cbn [Attributes].
    destruct (Hgen "" eq_refl) as [[g Hg] Hno].
    split; [apply in_or_app; right; left; reflexivity|].
    split; [exists g; rewrite Hg; clear; induction (JS.replace (fst (choose g)) "-" ".");
            [reflexivity | rewrite append_cons; now f_equal]|].
    split; [exact Hno|].
    intros between other Hother.
    pose proof (scrubAll_keeps between _ _ _ (memo_stores "" st)) as Hkept.
    eexists. eexists.
    split; [apply (scrubPoolUser_anonymizes other _ "" (Hempty _ Hother) eq_refl)|].
    cbn [Attributes]. rewrite (memo_hit _ _ _ Hkept). cbn [fst].
    rewrite !List.filter_app, !filter_dropped. reflexivity.
  - intros e Hmail He Hallow. split; [rewrite He; apply substring_negative|].
    eexists. cbv zeta.
    split; [apply (scrubPoolUser_anonymizes user st e Hmail Hallow)|].
    cbn [Attributes].
    destruct (Hgen e He) as [Hg Hno].
    split; [apply in_or_app; right; left; reflexivity|].
    split; [exact Hg | exact Hno].
Qed.

End AnonymizeFacts.

(** A second call for the same address, with another address scrubbed in
    between, and a user on [cleo.com]. *)
Lemma scrubbedEmailMemo_deterministic_witness :
  fst (scrubbedEmailMemo "alice@example.com"
         (scrubAll ["bob@example.org"]
            (snd (scrubbedEmailMemo "alice@example.com" freshScrub))))
  = fst (scrubbedEmailMemo "alice@example.com" freshScrub)
  /\ scrubPoolUser internalUser freshScrub = (inr internalUser, freshScrub).
Proof.
  destruct (scrubbedEmailMemo_deterministic freshScrub "alice@example.com"
              ["bob@example.org"]) as (Hsame & Huser & _).
  split; [exact Hsame|].
  apply (Huser internalUser "dana" "cleo.com"); [simpl; tauto | reflexivity].
Defined.

(** C8 as stated fails: the [preferred_name] attribute of [bobby] does not
    pass through. *)
Lemma scrubPoolUser_drops_preferred_name :
  exists user' st',
    scrubPoolUser bobby freshScrub = (inr user', st')
    /\ In (mkAttr "preferred_name" (Some "Bobby")) (Attributes bobby)
    /\ ~ In (mkAttr "preferred_name" (Some "Bobby")) (Attributes user').
Proof.
  eexists. eexists. split; [reflexivity|]. split; [simpl; tauto|].
  simpl. intros [Hx|[Hx|[Hx|[Hx|[]]]]]; discriminate Hx.
Qed.

Lemma scrubPoolUser_frame_witness :
  exists user' : UserType,
    scrubPoolUser bobby freshScrub
    = (inr user', snd (scrubbedEmailMemo "bob@example.org" freshScrub))
    /\ List.filter (fun attr => negb (isScrubbedAttr attr)) (Attributes user')
       = [ mkAttr "custom:company" (Some "Example") ].
Proof.
  destruct (scrubPoolUser_frame bobby freshScrub "bob@example.org" eq_refl eq_refl)
    as (user' & Hrun & Hother & _).
  exists user'. split; [exact Hrun | exact Hother].
Defined.

(** C10 as stated fails: the address of [noAtUser] contains no [@], and
    the record is skipped, not anonymized. *)
Lemma scrubPoolUser_skips_address_without_at :
  oldEmail noAtUser = Some "cleo.com"
  /\ JS.indexOf "cleo.com" "@" = (-1)%Z
  /\ scrubPoolUser noAtUser freshScrub = (inr noAtUser, freshScrub).
Proof. repeat split. Qed.

Lemma sampleNames_without_at (g : nat) :
  JS.indexOf (fst (@choose sampleMoniker g)) "@" = (-1)%Z.
Proof.
  pose proof (Nat.mod_upper_bound g 3 ltac:(lia)) as Hlt.
  unfold choose, sampleMoniker. cbn [fst].
  revert Hlt. generalize (g mod 3)%nat. intros [|[|[|n]]] Hlt; try reflexivity. lia.
Qed.

Lemma freshScrub_fabricated : cacheFabricated freshScrub.
Proof. intros key id Hk. simpl in Hk. now rewrite lookup_empty in Hk. Qed.

Lemma scrubPoolUser_without_at_witness :
  oldEmail emailLess1 = Some ""
  /\ exists user' : UserType,
      scrubPoolUser emailLess1 freshScrub
      = (inr user', snd (scrubbedEmailMemo "" freshScrub))
      /\ In (mkAttr "email" (Some "quiet.river")) (Attributes user').
Proof.
  destruct (scrubPoolUser_without_at freshScrub emailLess1
              sampleNames_without_at freshScrub_fabricated) as [Hless _].
  destruct (Hless eq_refl) as (Hold & user' & Hrun & Hin & _).
  split; [exact Hold|]. exists user'. split; [exact Hrun | exact Hin].
Defined.

(** ** The program monad *)

Section MonadFacts.
Context `{Remote}.

Lemma bind_returned {A B} (m : M A) (k : A -> M B) (st st' : State) (a : A) :
  m st = Returned a st' -> (m ≫= k) st = k a st'.
Proof. intros Hm. unfold mbind, M_bind. now rewrite Hm. Qed.

Lemma bind_thrown {A B} (m : M A) (k : A -> M B) (st st' : State) (e : Error.t) :
  m st = Thrown e st' -> (m ≫= k) st = Thrown e st'.
Proof. intros Hm. unfold mbind, M_bind. now rewrite Hm. Qed.

Lemma bind_pending {A B} (m : M A) (k : A -> M B) (st : State) :
  m st = Pending -> (m ≫= k) st = Pending.
Proof. intros Hm. unfold mbind, M_bind. now rewrite Hm. Qed.

Lemma call_resolved (r : Request) (st : State) (response : Response r) (w : World) :
  send r (world st) = (inr response, w) ->
  call r st = Returned response (afterCall st r false w).
Proof. intros Hs. unfold call. now rewrite Hs. Qed.

Lemma call_rejected (r : Request) (st : State) (error : Error.t) (w : World) :
  send r (world st) = (inl error, w) ->
  call r st = Thrown error (afterCall st r true w).
Proof. intros Hs. unfold call. now rewrite Hs. Qed.


(** One iteration of a loop over cached objects. *)
Lemma forOfCached_cons_inv {A} (store : nat -> A -> M unit) (body : A -> M A)
    (i : nat) (x : A) (rest ys : list A) (st st' : State) :
  forOfCached store i (x :: rest) body st = Returned ys st' ->
  exists y st1 st2 ys',
    body x st = Returned y st1
    /\ store i y st1 = Returned tt st2
    /\ forOfCached store (S i) rest body st2 = Returned ys' st'
    /\ ys = y :: ys'.
Proof.
  simpl. unfold mbind, M_bind.
  destruct (body x st) as [y st1| |] eqn:Hbody; try discriminate.
  destruct (store i y st1) as [[] st2| |] eqn:Hstore; try discriminate.
  destruct (forOfCached store (S i) rest body st2) as [ys' st3| |] eqn:Hrest;
    try discriminate.
  unfold mret, M_ret. intros [= <- <-]. now exists y, st1, st2, ys'.
Qed.

Lemma forOfCached_cons {A} (store : nat -> A -> M unit) (body : A -> M A)
    (i : nat) (x y : A) (rest : list A) (st st1 st2 : State) :
  body x st = Returned y st1 ->
  store i y st1 = Returned tt st2 ->
  forOfCached store i (x :: rest) body st
  = (ys ← forOfCached store (S i) rest body; mret (y :: ys)) st2.
Proof.
  intros Hbody Hstore. simpl.
  rewrite (bind_returned _ _ _ _ _ Hbody). now rewrite (bind_returned _ _ _ _ _ Hstore).
Qed.

(** A loop over cached objects returns one object per item. *)
Lemma forOfCached_length {A} (store : nat -> A -> M unit) (body : A -> M A)
    (items : list A) :
  forall i ys st st',
    forOfCached store i items body st = Returned ys st' -> length ys = length items.
Proof.
  induction items as [|x rest IH]; intros i ys st st' Hrun.
  - simpl in Hrun. now injection Hrun as <- _.
  - apply forOfCached_cons_inv in Hrun as (y & st1 & st2 & ys' & _ & _ & Hrest & ->).
    simpl. f_equal. exact (IH _ _ _ _ Hrest).
Qed.

(** A loop over cached objects whose body rejects at some item stops
    there: the items after it are not visited. *)
Lemma forOfCached_thrown {A} (store : nat -> A -> M unit) (body : A -> M A)
    (before : list A) (x : A) (after : list A) (e : Error.t) (st2 : State) :
  forall i st done st1,
    forOfCached store i before body st = Returned done st1 ->
    body x st1 = Thrown e st2 ->
    forOfCached store i (before ++ x :: after) body st = Thrown e st2.
Proof.
  induction before as [|b before IH]; intros i st done st1 Hbefore Hx.
  - simpl in Hbefore. injection Hbefore as <- <-. simpl. now apply bind_thrown.
  - apply forOfCached_cons_inv in Hbefore
      as (y & sta & stb & ys' & Hbody & Hstore & Hrest & ->).
    rewrite <- app_comm_cons, (forOfCached_cons _ _ _ _ _ _ _ _ _ Hbody Hstore).
    now rewrite (bind_thrown _ _ _ _ _ (IH _ _ _ _ Hrest Hx)).
Qed.


(** Each object a loop over cached objects returns is what the body
    made of one item, in the state the loop over the items before it
    ended in. *)
Lemma forOfCached_In {A} (store : nat -> A -> M unit) (body : A -> M A)
    (items : list A) :
  forall i ys st st' y,
    forOfCached store i items body st = Returned ys st' ->
    In y ys ->
    exists before x after done st1 st2,
      items = before ++ x :: after
      /\ forOfCached store i before body st = Returned done st1
      /\ body x st1 = Returned y st2.
Proof.
  induction items as [|x rest IH]; intros i ys st st' y Hrun Hin.
  - simpl in Hrun. injection Hrun as <- _. destruct Hin.
  - apply forOfCached_cons_inv in Hrun
      as (y0 & st1 & st2 & ys' & Hbody & Hstore & Hrest & ->).
    destruct Hin as [<-|Hin].
    + exists [], x, rest, [], st, st1. repeat split. exact Hbody.
    + destruct (IH _ _ _ _ _ Hrest Hin)
        as (before & x' & after & done & sta & stb & -> & Hprefix & Hx').
      exists (x :: before), x', after, (y0 :: done), sta, stb.
      split; [reflexivity|]. split; [|exact Hx'].
      rewrite (forOfCached_cons _ _ _ _ _ _ _ _ _ Hbody Hstore).
      now rewrite (bind_returned _ _ _ _ _ Hprefix).
Qed.

End MonadFacts.

(** ** Paged fetch *)

Section PagedFetchFacts.
Context `{Remote}.
Context {TAPIResult TData TNextToken TParams : Type}.
Context `{Truthy TAPIResult} `{Truthy TNextToken}.
Variable action : TParams -> option TNextToken -> M TAPIResult.
Variable params : TParams.
Variable accessor : TAPIResult -> option (list TData).
Variable getNextToken : TAPIResult -> list TData -> M (option TNextToken).

Local Abbreviation loop := (pagedAWSCall_loop action params accessor getNextToken).
Local Abbreviation items := (pageItems accessor).
Local Abbreviation cursorAfter := (pageCursor getNextToken).
Local Abbreviation fetched := (Fetched action params accessor getNextToken).

(** Lines 49-51 add exactly the page's items. *)
Lemma accumulate_page (response : TAPIResult) (result : list TData) :
  (if truthy response && truthy (accessor response)
   then result ++ default [] (accessor response)
   else result) = result ++ items response.
Proof.
  unfold pageItems. destruct (truthy response); simpl.
  - destruct (accessor response) as [l|]; simpl; [reflexivity | now rewrite app_nil_r].
  - now rewrite app_nil_r.
Qed.

(** One iteration of the loop. *)
Lemma loop_step (fuel : nat) (result : list TData) (cursor : option TNextToken)
    (st st1 st2 : State) (response : TAPIResult) (next : option TNextToken) :
  action params cursor st = Returned response st1 ->
  cursorAfter response (result ++ items response) st1 = Returned next st2 ->
  loop (S fuel) result cursor st =
    if truthy next
    then loop fuel (result ++ items response) next st2
    else Returned (result ++ items response) st2.
Proof.
  intros Hact Hcur. simpl.
  rewrite (bind_returned _ _ _ _ _ Hact), accumulate_page.
  unfold pageCursor in Hcur.
  rewrite (bind_returned _ _ _ _ _ Hcur).
  destruct (truthy next); reflexivity.
Qed.

Lemma loop_sound (fuel : nat) :
  forall (result : list TData) (cursor : option TNextToken) (st st' : State)
         (all : list TData),
    loop fuel result cursor st = Returned all st' ->
    exists pages,
      fetched st cursor result pages st'
      /\ all = result ++ concat (map items pages)
      /\ (length pages <= fuel)%nat.
Proof.
  induction fuel as [|fuel IH]; intros result cursor st st' all Hrun;
    [discriminate|].
  destruct (action params cursor st) as [response st1| |] eqn:Hact;
    try (simpl in Hrun; unfold mbind, M_bind in Hrun; rewrite Hact in Hrun; discriminate).
  destruct (cursorAfter response (result ++ items response) st1)
    as [next st2| |] eqn:Hcur.
  - rewrite (loop_step _ _ _ _ _ _ _ _ Hact Hcur) in Hrun.
    destruct (truthy next) eqn:Hnext.
    + destruct (IH _ _ _ _ _ Hrun) as (pages & Hf & -> & Hlen).
      exists (response :: pages). split; [|split].
      * eapply Fetched_more; eauto.
      * simpl. now rewrite app_assoc.
      * simpl. lia.
    + injection Hrun as <- <-. exists [response]. split; [|split].
      * eapply Fetched_last; eauto.
      * simpl. now rewrite app_nil_r.
      * simpl. lia.
  - simpl in Hrun. rewrite (bind_returned _ _ _ _ _ Hact), accumulate_page in Hrun.
    unfold pageCursor in Hcur. rewrite (bind_thrown _ _ _ _ _ Hcur) in Hrun.
    discriminate.
  - simpl in Hrun. rewrite (bind_returned _ _ _ _ _ Hact), accumulate_page in Hrun.
    unfold pageCursor in Hcur. rewrite (bind_pending _ _ _ Hcur) in Hrun.
    discriminate.
Qed.

Lemma loop_complete (pages : list TAPIResult) :
  forall (result : list TData) (cursor : option TNextToken) (st st' : State),
    fetched st cursor result pages st' ->
    forall fuel, (length pages <= fuel)%nat ->
      loop fuel result cursor st = Returned (result ++ concat (map items pages)) st'.
Proof.
  intros result cursor st st' Hf.
  induction Hf as [st cursor result response st1 next st2 Hact Hcur Hnext
                  |st cursor result response st1 next st2 pages st3 Hact Hcur Hnext Hf IH];
    intros [|fuel] Hlen; simpl in Hlen; try lia.
  - rewrite (loop_step _ _ _ _ _ _ _ _ Hact Hcur), Hnext. simpl.
    now rewrite app_nil_r.
  - rewrite (loop_step _ _ _ _ _ _ _ _ Hact Hcur), Hnext.
    rewrite IH by lia. simpl. now rewrite app_assoc.
Qed.

(** C3. [pagedAWSCall] returns exactly when the action, invoked first
    without a token and then with each extracted cursor, yields a finite
    run of pages ending in a page after which no (truthy) cursor is
    extracted; the action is invoked once per page of that run; the result
    is the concatenation of the pages' items, first page first and in page
    order; and a page without items does not end the loop while a cursor is
    extracted after it. *)
Theorem pagedAWSCall_drains_pages :
  (forall fuel st all st',
      pagedAWSCall action params accessor getNextToken fuel st = Returned all st' ->
      exists pages,
        fetched st None [] pages st'
        /\ all = concat (map items pages)
        /\ (length pages <= fuel)%nat)
  /\ (forall st pages st',
        fetched st None [] pages st' ->
        forall fuel, (length pages <= fuel)%nat ->
          pagedAWSCall action params accessor getNextToken fuel st
          = Returned (concat (map items pages)) st')
  /\ (forall fuel result cursor st response st1 next st2,
        action params cursor st = Returned response st1 ->
        items response = [] ->
        cursorAfter response result st1 = Returned next st2 ->
        loop (S fuel) result cursor st =
          if truthy next then loop fuel result next st2 else Returned result st2).
Proof.
  split; [|split].
  - intros fuel st all st' Hrun. apply loop_sound in Hrun as (pages & Hf & -> & Hlen).
    now exists pages.
  - intros st pages st' Hf fuel Hlen.
    apply (loop_complete pages [] None st st' Hf fuel Hlen).
  - intros fuel result cursor st response st1 next st2 Hact Hnone Hcur.
    assert (result ++ items response = result) as Hsame
      by (rewrite Hnone; apply app_nil_r).
    rewrite <- Hsame in Hcur.
    rewrite (loop_step _ _ _ _ _ _ _ _ Hact Hcur), Hsame. reflexivity.
Qed.

End PagedFetchFacts.

(** Three pages, the middle one empty: all items, in order, after exactly
    three calls. *)
Lemma pagedAWSCall_drains_pages_witness :
  fetchUserPools 3 (startScript threePages)
  = Returned [poolA; poolB; poolC]
      (mkState (H := scripted) []
         [ Sent (ListUserPools 60 None) false;
           Sent (ListUserPools 60 (Some "t1")) false;
           Sent (ListUserPools 60 (Some "t2")) false ] [] []).
Proof.
  destruct (@pagedAWSCall_drains_pages scripted _ _ _ _ _ _
              (fun (params : nat) nextToken => call (ListUserPools params nextToken))
              60%nat
              (fun response => ListUserPoolsResponse.UserPools response)
              (fun response _ => mret (ListUserPoolsResponse.NextToken response)))
    as (_ & Hcomplete & _).
  apply (Hcomplete (startScript threePages)
           [ ListUserPoolsResponse.mk (Some [poolA; poolB]) (Some "t1");
             ListUserPoolsResponse.mk (Some []) (Some "t2");
             ListUserPoolsResponse.mk (Some [poolC]) None ]);
    [|simpl; lia].
  eapply Fetched_more; [reflexivity | reflexivity | reflexivity |].
  eapply Fetched_more; [reflexivity | reflexivity | reflexivity |].
  eapply Fetched_last; reflexivity.
Defined.

(** ** User enumeration *)

Section EnumerationFacts.
Context `{Remote}.

Lemma rejections_app (events : list Event) (r : Request) (rejected : bool) :
  rejections (events ++ [Sent r rejected])
  = (rejections events + if rejected then 1 else 0)%nat.
Proof.
  unfold rejections. rewrite List.filter_app, length_app.
  destruct rejected; reflexivity.
Qed.

(** A rejected [listUsers] call: retry the same call, or rethrow. *)
Lemma getAllUsers_rejected (fuel : nat) (poolId : string)
    (accumedUsers : list UserType) (includeCustomAttrs : bool)
    (pageToken : option string) (st : State) (error : Error.t) (w : World) :
  send (ListUsers poolId pageToken) (world st) = (inl error, w) ->
  getAllUsers (S fuel) poolId accumedUsers includeCustomAttrs pageToken st
  = if includeCustomAttrs && isMissingAttributes error
    then getAllUsers fuel poolId accumedUsers false pageToken
           (afterCall st (ListUsers poolId pageToken) true w)
    else Thrown error (afterCall st (ListUsers poolId pageToken) true w).
Proof.
  intros Hsend. simpl. unfold mbind, M_bind, attempt, call. rewrite Hsend.
  destruct (includeCustomAttrs && isMissingAttributes error); reflexivity.
Qed.

(** A resolved [listUsers] call. *)
Lemma getAllUsers_resolved (fuel : nat) (poolId : string)
    (accumedUsers : list UserType) (includeCustomAttrs : bool)
    (pageToken : option string) (st : State) (response : ListUsersResponse.t)
    (w : World) :
  send (ListUsers poolId pageToken) (world st) = (inr response, w) ->
  getAllUsers (S fuel) poolId accumedUsers includeCustomAttrs pageToken st
  = match ListUsersResponse.Users response with
    | Some cognitoUsers =>
        if truthy (ListUsersResponse.PaginationToken response)
        then getAllUsers fuel poolId (accumedUsers ++ cognitoUsers) includeCustomAttrs
               (ListUsersResponse.PaginationToken response)
               (afterCall st (ListUsers poolId pageToken) false w)
        else Returned (accumedUsers ++ cognitoUsers)
               (afterCall st (ListUsers poolId pageToken) false w)
    | None =>
        Thrown (Error.TypeError "cognitoUsers is not iterable")
               (afterCall st (ListUsers poolId pageToken) false w)
    end.
Proof.
  intros Hsend. simpl. unfold mbind, M_bind, attempt, call. rewrite Hsend.
  destruct (ListUsersResponse.Users response) as [cognitoUsers|]; simpl.
  - destruct (truthy (ListUsersResponse.PaginationToken response)); reflexivity.
  - destruct includeCustomAttrs; reflexivity.
Qed.

(** With the flag off nothing is retried: a returned enumeration saw no
    rejection, a thrown one at most one. The result extends what was
    accumulated. *)
Lemma getAllUsers_flag_off (fuel : nat) :
  forall (poolId : string) (accumedUsers : list UserType) (pageToken : option string)
         (st : State),
    match getAllUsers fuel poolId accumedUsers false pageToken st with
    | Returned users st' =>
        rejections (trace st') = rejections (trace st)
        /\ exists more, users = accumedUsers ++ more
    | Thrown _ st' => (rejections (trace st') <= S (rejections (trace st)))%nat
    | Pending => True
    end.
Proof.
  induction fuel as [|fuel IH]; intros poolId accumedUsers pageToken st; [exact I|].
  destruct (send (ListUsers poolId pageToken) (world st)) as [[error|response] w] eqn:Hsend.
  - rewrite (getAllUsers_rejected _ _ _ _ _ _ _ _ Hsend). simpl.
    rewrite rejections_app. lia.
  - rewrite (getAllUsers_resolved _ _ _ _ _ _ _ _ Hsend).
    destruct (ListUsersResponse.Users response) as [cognitoUsers|].
    + destruct (truthy (ListUsersResponse.PaginationToken response)).
      * specialize (IH poolId (accumedUsers ++ cognitoUsers)
                       (ListUsersResponse.PaginationToken response)
                       (afterCall st (ListUsers poolId pageToken) false w)).
        destruct (getAllUsers fuel poolId (accumedUsers ++ cognitoUsers) false _ _)
          as [users st'|e st'|]; [| |exact I].
        -- destruct IH as [Hrej [more ->]]. simpl in Hrej.
           rewrite rejections_app in Hrej. split; [lia|].
           exists (cognitoUsers ++ more). now rewrite app_assoc.
        -- simpl in IH. rewrite rejections_app in IH. lia.
      * simpl. rewrite rejections_app. split; [lia | now exists cognitoUsers].
    + simpl. rewrite rejections_app. lia.
Qed.

(** With the flag on at most one call of a returned enumeration was
    rejected. *)
Lemma getAllUsers_flag_on (fuel : nat) :
  forall (poolId : string) (accumedUsers : list UserType) (pageToken : option string)
         (st : State),
    match getAllUsers fuel poolId accumedUsers true pageToken st with
    | Returned users st' =>
        (rejections (trace st') <= S (rejections (trace st)))%nat
        /\ exists more, users = accumedUsers ++ more
    | _ => True
    end.
Proof.
  induction fuel as [|fuel IH]; intros poolId accumedUsers pageToken st; [exact I|].
  destruct (send (ListUsers poolId pageToken) (world st)) as [[error|response] w] eqn:Hsend.
  - rewrite (getAllUsers_rejected _ _ _ _ _ _ _ _ Hsend). simpl.
    destruct (isMissingAttributes error); [|exact I].
    pose proof (getAllUsers_flag_off fuel poolId accumedUsers pageToken
                  (afterCall st (ListUsers poolId pageToken) true w)) as Hoff.
    destruct (getAllUsers fuel poolId accumedUsers false pageToken _)
      as [users st'|e st'|]; try exact I.
    destruct Hoff as [Hrej Hmore]. simpl in Hrej. rewrite rejections_app in Hrej.
    split; [lia | exact Hmore].
  - rewrite (getAllUsers_resolved _ _ _ _ _ _ _ _ Hsend).
    destruct (ListUsersResponse.Users response) as [cognitoUsers|]; [|exact I].
    destruct (truthy (ListUsersResponse.PaginationToken response)).
    + specialize (IH poolId (accumedUsers ++ cognitoUsers)
                     (ListUsersResponse.PaginationToken response)
                     (afterCall st (ListUsers poolId pageToken) false w)).
      destruct (getAllUsers fuel poolId (accumedUsers ++ cognitoUsers) true _ _)
        as [users st'|e st'|]; try exact I.
      destruct IH as [Hrej [more ->]]. simpl in Hrej.
      rewrite rejections_app in Hrej. split; [lia|].
      exists (cognitoUsers ++ more). now rewrite app_assoc.
    + simpl. rewrite rejections_app. split; [lia | now exists cognitoUsers].
Qed.

(** C4, as the code has it. When a [listUsers] call is rejected,
    [getAllUsers] re-issues that same call (same page token, same
    accumulated users) with the flag off if the flag was on and the error
    is an [InvalidParameterException] about missing attributes, and
    otherwise rethrows the error. After the retry nothing is retried
    again: an enumeration that returns saw no further rejection and its
    result starts with the users accumulated before the failure; a further
    rejection is thrown to the caller. Over a whole enumeration that
    returns, at most one call was rejected. *)
Theorem getAllUsers_retry_resumes (fuel : nat) (poolId : string)
    (accumedUsers : list UserType) (includeCustomAttrs : bool)
    (pageToken : option string) (st : State) (error : Error.t) (w : World) :
  send (ListUsers poolId pageToken) (world st) = (inl error, w) ->
  let failed := afterCall st (ListUsers poolId pageToken) true w in
  getAllUsers (S fuel) poolId accumedUsers includeCustomAttrs pageToken st
  = (if includeCustomAttrs && isMissingAttributes error
     then getAllUsers fuel poolId accumedUsers false pageToken failed
     else Thrown error failed)
  /\ (forall users st',
        getAllUsers fuel poolId accumedUsers false pageToken failed = Returned users st' ->
        rejections (trace st') = rejections (trace failed)
        /\ exists more, users = accumedUsers ++ more)
  /\ (forall error' st',
        getAllUsers fuel poolId accumedUsers false pageToken failed = Thrown error' st' ->
        (rejections (trace st') <= S (rejections (trace failed)))%nat)
  /\ (forall users st',
        getAllUsers (S fuel) poolId accumedUsers includeCustomAttrs pageToken st
        = Returned users st' ->
        rejections (trace st') = S (rejections (trace st))).
Proof.
  intros Hsend failed.
  pose proof (getAllUsers_flag_off fuel poolId accumedUsers pageToken failed) as Hoff.
  split; [apply (getAllUsers_rejected _ _ _ _ _ _ _ _ Hsend)|].
  split; [|split].
  - intros users st' Hrun. now rewrite Hrun in Hoff.
  - intros error' st' Hrun. now rewrite Hrun in Hoff.
  - intros users st' Hrun.
    rewrite (getAllUsers_rejected _ _ _ _ _ _ _ _ Hsend) in Hrun.
    destruct (includeCustomAttrs && isMissingAttributes error); [|discriminate].
    fold failed in Hrun. rewrite Hrun in Hoff. destruct Hoff as [-> _].
    subst failed. simpl. rewrite rejections_app. lia.
Qed.

End EnumerationFacts.

(** C4 as stated fails: after the rejection on the second page the code
    asks for that page again and keeps [alice], where an enumeration
    restarted from the beginning would ask for the first page. *)
Lemma getAllUsers_retry_keeps_partial_results :
  @getAllUsers scripted 3 "eu-central-1_A" [] true None (startScript rejectedOnSecondPage)
  = Returned [alice; bob]
      (mkState (H := scripted) []
         [ Sent (ListUsers "eu-central-1_A" None) false;
           Sent (ListUsers "eu-central-1_A" (Some "t1")) true;
           Sent (ListUsers "eu-central-1_A" (Some "t1")) false ] [] [])
  /\ @getAllUsers_restarting scripted 3 "eu-central-1_A" [] true None
       (startScript rejectedOnSecondPage)
     = Returned [bob]
         (mkState (H := scripted) []
            [ Sent (ListUsers "eu-central-1_A" None) false;
              Sent (ListUsers "eu-central-1_A" (Some "t1")) true;
              Sent (ListUsers "eu-central-1_A" None) false ] [] [])
  /\ @getAllUsers scripted 3 "eu-central-1_A" [] true None (startScript rejectedOnSecondPage)
     <> @getAllUsers_restarting scripted 3 "eu-central-1_A" [] true None
          (startScript rejectedOnSecondPage).
Proof. split; [reflexivity | split; [reflexivity | discriminate]]. Qed.

(** The rejected second call of [rejectedOnSecondPage] is retried with the
    same token, keeping [alice]. *)
Lemma getAllUsers_retry_resumes_witness :
  @getAllUsers scripted 2 "eu-central-1_A" [alice] true (Some "t1")
    (mkState (H := scripted) [Rejects missingAttributes; usersPage [bob] None]
             [Sent (ListUsers "eu-central-1_A" None) false] [] [])
  = @getAllUsers scripted 1 "eu-central-1_A" [alice] false (Some "t1")
      (mkState (H := scripted) [usersPage [bob] None]
               [ Sent (ListUsers "eu-central-1_A" None) false;
                 Sent (ListUsers "eu-central-1_A" (Some "t1")) true ] [] []).
Proof.
  exact (proj1 (@getAllUsers_retry_resumes scripted 1 "eu-central-1_A" [alice] true
                  (Some "t1")
                  (mkState (H := scripted)
                     [Rejects missingAttributes; usersPage [bob] None]
                     [Sent (ListUsers "eu-central-1_A" None) false] [] [])
                  missingAttributes [usersPage [bob] None] eq_refl)).
Defined.

(** ** Classification *)

Section ClassificationFacts.
Context `{Remote}.

Lemma forallb_status (users : list UserType) :
  forallb (fun poolUser =>
             bool_decide (UserStatus poolUser = Some "FORCE_CHANGE_PASSWORD")) users
  = true
  <-> Forall (fun poolUser => UserStatus poolUser = Some "FORCE_CHANGE_PASSWORD") users.
Proof.
  rewrite forallb_forall, List.Forall_forall.
  split; intros Hall u Hu; specialize (Hall u Hu);
    [now apply bool_decide_eq_true in Hall | now apply bool_decide_eq_true].
Qed.

(** C1. When the enumeration of a pool's users succeeds, the loop body
    marks the pool [isPrepareToDelete] with reason ["Is empty users"] if
    the list is empty, with reason ["Is all users force change password"]
    if it is non-empty and every user has status [FORCE_CHANGE_PASSWORD],
    and otherwise leaves the record untouched, so that a pool that was
    unmarked stays in the keep set. *)
Theorem classifyUserPool_verdict (fuel : nat) (pool : UserPool.t)
    (st st' : State) (poolUsers : list UserType) :
  getAllUsers fuel (UserPool.Id pool) [] true None st = Returned poolUsers st' ->
  exists pool' : UserPool.t,
    classifyUserPool fuel pool st = Returned pool' st'
    /\ (poolUsers = [] ->
        pool' = UserPool.mk (UserPool.description pool) (Some true)
                            (Some "Is empty users") (Some []))
    /\ (poolUsers <> [] ->
        Forall (fun poolUser => UserStatus poolUser = Some "FORCE_CHANGE_PASSWORD")
               poolUsers ->
        pool' = UserPool.mk (UserPool.description pool) (Some true)
                            (Some "Is all users force change password")
                            (Some poolUsers))
    /\ (Exists (fun poolUser => UserStatus poolUser <> Some "FORCE_CHANGE_PASSWORD")
               poolUsers ->
        pool' = pool
        /\ (UserPool.isPrepareToDelete pool = None ->
            List.filter (fun p => truthy (UserPool.isPrepareToDelete p)) [pool'] = []
            /\ List.filter (fun p => negb (truthy (UserPool.isPrepareToDelete p))) [pool']
               = [pool'])).
Proof.
  intros Hrun. unfold classifyUserPool, mbind, M_bind, attempt.
  rewrite Hrun. cbn beta iota.
  eexists. split; [reflexivity|].
  destruct poolUsers as [|u us].
  - split; [reflexivity|]. split; [congruence|].
    intros Hex. inversion Hex.
  - split; [discriminate|].
    change (length (u :: us) =? 0)%nat with false.
    change (0 <? length (u :: us))%nat with true. cbn iota. rewrite andb_true_l.
    split.
    + intros _ Hall. apply forallb_status in Hall. rewrite Hall. reflexivity.
    + intros Hex.
      assert (forallb (fun poolUser =>
                bool_decide (UserStatus poolUser = Some "FORCE_CHANGE_PASSWORD"))
                (u :: us) = false) as ->.
      { apply not_true_is_false. intros Hall. apply forallb_status in Hall.
        apply List.Exists_exists in Hex as (x & Hin & Hx).
        rewrite List.Forall_forall in Hall. exact (Hx (Hall x Hin)). }
      split; [reflexivity|]. intros Hnone. unfold List.filter.
      rewrite Hnone. split; reflexivity.
Qed.

Lemma filter_nil_iff {A} (f : A -> bool) (l : list A) :
  List.filter f l = [] <-> forall x, In x l -> f x = false.
Proof.
  induction l as [|y l IH]; simpl; [tauto|].
  destruct (f y) eqn:Hy; split.
  - discriminate.
  - intros Hall. specialize (Hall y (or_introl eq_refl)). congruence.
  - intros Hnil x [<-|Hin]; [exact Hy | now apply IH].
  - intros Hall. apply IH. intros x Hin. apply Hall. now right.
Qed.

(** What [findUserPoolByProviderName] finds is empty unless the name has
    the Cognito prefix and ends with [/] and the id of a retained pool. *)
Lemma findUserPoolByProviderName_empty (realPools : list UserPool.t) (name : string) :
  findUserPoolByProviderName realPools (Some name) = []
  <-> ~ (JS.startsWith name "cognito-idp" = true
         /\ exists pool, In pool realPools
                         /\ JS.endsWith name ("/" +:+ UserPool.Id pool) = true).
Proof.
  unfold findUserPoolByProviderName.
  change (truthy ((fun p => JS.startsWith p "cognito-idp") <$> Some name))
    with (JS.startsWith name "cognito-idp").
  destruct (List.filter _ realPools) as [|m ms] eqn:Hmatches.
  - rewrite andb_false_r. split; [|reflexivity].
    intros _ [_ (pool & Hin & Hends)].
    assert (In pool []) as [].
    rewrite <- Hmatches. apply List.filter_In. split; [exact Hin | exact Hends].
  - assert (In m (m :: ms)) as Hm by now left.
    rewrite <- Hmatches in Hm. apply List.filter_In in Hm as [Hin Hends].
    change (JS.endsWith name ("/" +:+ UserPool.Id m) = true) in Hends.
    change (0 <? length (m :: ms))%nat with true. rewrite andb_true_r.
    destruct (JS.startsWith name "cognito-idp").
    + split; [discriminate|]. intros Hno. exfalso. apply Hno.
      split; [reflexivity|]. now exists m.
    + split; [|reflexivity]. intros _ [Hfalse _]. discriminate.
Qed.

(** C2. Given the providers the describe call reports for an identity
    pool, the loop body marks the pool [isPrepareToDelete] with reason
    ["CognitoIdentityProviders empty"] when there are none; with exactly
    one provider it leaves the record untouched when the provider's name
    starts with [cognito-idp] and ends with [/] followed by the id of a
    user pool that is not marked for deletion, and marks it with a reason
    quoting the provider's name otherwise (the word [undefined] when the
    provider has no name); with two or more providers it leaves the record
    untouched. *)
Theorem classifyIdentityPool_verdict (pools : list UserPool.t)
    (identityPool : IdentityPoolRecord.t) (st : State)
    (response : IdentityPool.t) (w : World)
    (providers : list CognitoIdentityProvider.t) :
  let request := DescribeIdentityPool (IdentityPoolRecord.IdentityPoolId identityPool) in
  let realPools :=
    List.filter (fun pool => negb (truthy (UserPool.isPrepareToDelete pool))) pools in
  send request (world st) = (inr response, w) ->
  IdentityPool.CognitoIdentityProviders response = Some providers ->
  exists identityPool' : IdentityPoolRecord.t,
    classifyIdentityPool realPools identityPool st
    = Returned identityPool' (afterCall st request false w)
    /\ (providers = [] ->
        identityPool'
        = IdentityPoolRecord.mk (IdentityPoolRecord.description identityPool)
            (Some true) (Some "CognitoIdentityProviders empty"))
    /\ (forall provider name,
          providers = [provider] ->
          CognitoIdentityProvider.ProviderName provider = Some name ->
          let retained :=
            JS.startsWith name "cognito-idp" = true
            /\ exists pool,
                In pool pools
                /\ truthy (UserPool.isPrepareToDelete pool) = false
                /\ JS.endsWith name ("/" +:+ UserPool.Id pool) = true in
          (retained -> identityPool' = identityPool)
          /\ (~ retained ->
              identityPool'
              = IdentityPoolRecord.mk (IdentityPoolRecord.description identityPool)
                  (Some true)
                  (Some ("ProviderName " +:+ name +:+ " not match any user pool"))))
    /\ (forall provider,
          providers = [provider] ->
          CognitoIdentityProvider.ProviderName provider = None ->
          identityPool'
          = IdentityPoolRecord.mk (IdentityPoolRecord.description identityPool)
              (Some true)
              (Some "ProviderName undefined not match any user pool"))
    /\ ((2 <= length providers)%nat -> identityPool' = identityPool).
Proof.
  intros request realPools Hsend Hproviders.
  unfold classifyIdentityPool.
  rewrite (bind_returned _ _ _ _ _ (call_resolved _ _ _ _ Hsend)), Hproviders.
  destruct providers as [|provider [|provider2 rest]].
  - eexists. split; [reflexivity|]. split; [reflexivity|].
    split; [discriminate|]. split; [discriminate | simpl; lia].
  - change (length [provider] =? 0)%nat with false.
    change (length [provider] =? 1)%nat with true. cbn iota.
    change ([provider] !! 0%nat ≫= CognitoIdentityProvider.ProviderName)
      with (CognitoIdentityProvider.ProviderName provider).
    set (found := findUserPoolByProviderName realPools
                    (CognitoIdentityProvider.ProviderName provider)).
    exists (if (length found =? 0)%nat
            then IdentityPoolRecord.mk (IdentityPoolRecord.description identityPool)
                   (Some true)
                   (Some ("ProviderName "
                          +:+ JS.template (CognitoIdentityProvider.ProviderName provider)
                          +:+ " not match any user pool"))
            else identityPool).
    split; [destruct (length found =? 0)%nat; reflexivity|].
    split; [discriminate|].
    split; [|split; [|simpl; lia]];
      [|intros provider' [= <-] Hname; subst found; rewrite Hname; reflexivity].
    intros provider' name [= <-] Hname. subst found. rewrite Hname.
    match goal with |- (?R -> _) /\ _ => set (retained := R) end.
    assert (Hiff : findUserPoolByProviderName realPools (Some name) = [] <-> ~ retained).
    { rewrite findUserPoolByProviderName_empty. subst retained realPools.
      split; intros Hno [Hprefix (pool & Hpool)]; apply Hno; (split; [exact Hprefix|]);
        exists pool.
      - destruct Hpool as (Hin & Hkeep & Hends). split; [|exact Hends].
        apply List.filter_In. split; [exact Hin | now rewrite Hkeep].
      - destruct Hpool as (Hin & Hends). apply List.filter_In in Hin as [Hin Hkeep].
        split; [exact Hin|]. split; [|exact Hends].
        now apply negb_true_iff in Hkeep. }
    destruct (findUserPoolByProviderName realPools (Some name)) as [|m ms].
    + split; [|reflexivity]. intros Hret. exfalso. now apply (proj1 Hiff).
    + split; [reflexivity|]. intros Hno. apply Hiff in Hno. discriminate.
  - eexists. split; [reflexivity|]. split; [discriminate|].
    split; [intros provider' name [=]|].
    split; [intros provider' [=] | reflexivity].
Qed.

End ClassificationFacts.

(** Pool B of [sampleAccount]: every user still has to change the
    password. *)
Lemma classifyUserPool_verdict_witness :
  exists st',
    @classifyUserPool account 1 (UserPool.listed poolB) (startAccount sampleAccount)
    = Returned (UserPool.mk poolB (Some true)
                            (Some "Is all users force change password")
                            (Some [bob; carol])) st'.
Proof.
  destruct (@classifyUserPool_verdict account 1 (UserPool.listed poolB)
              (startAccount sampleAccount) _ [bob; carol] eq_refl)
    as (pool' & Hrun & _ & Hall & _).
  eexists. rewrite Hrun. f_equal. apply Hall; [discriminate | repeat constructor].
Defined.

(** Identity pool Y of [sampleAccount] trusts pool C, which is retained. *)
Lemma classifyIdentityPool_verdict_witness :
  exists st',
    @classifyIdentityPool account [UserPool.listed poolC]
      (IdentityPoolRecord.listed identityY) (startAccount sampleAccount)
    = Returned (IdentityPoolRecord.listed identityY) st'.
Proof.
  destruct (@classifyIdentityPool_verdict account [UserPool.listed poolC]
              (IdentityPoolRecord.listed identityY) (startAccount sampleAccount)
              _ _ _ eq_refl eq_refl)
    as (identityPool' & Hrun & _ & Hone & _ & _).
  eexists. simpl in Hrun. rewrite Hrun. f_equal.
  apply (Hone _ _ eq_refl eq_refl). split; [reflexivity|].
  exists (UserPool.listed poolC). repeat split. now left.
Defined.

(** ** Inventory caches *)

Section CacheFacts.
Context `{Remote}.

(** The two caches of a state. *)
Lemma call_keeps_caches (r : Request) (st st' : State) (response : Response r) :
  call r st = Returned response st' ->
  cachedUserPoolIds st' = cachedUserPoolIds st
  /\ cachedIdentityPoolIds st' = cachedIdentityPoolIds st.
Proof.
  unfold call. destruct (send r (world st)) as [[e|a] w]; [discriminate|].
  intros [= _ <-]. split; reflexivity.
Qed.

Section Fetch.
Context {TAPIResult TData TNextToken TParams : Type}.
Context `{Truthy TAPIResult} `{Truthy TNextToken}.
Variable action : TParams -> option TNextToken -> M TAPIResult.
Variable params : TParams.
Variable accessor : TAPIResult -> option (list TData).
Variable getNextToken : TAPIResult -> list TData -> M (option TNextToken).

Hypothesis action_keeps_caches :
  forall cursor st response st',
    action params cursor st = Returned response st' ->
    cachedUserPoolIds st' = cachedUserPoolIds st
    /\ cachedIdentityPoolIds st' = cachedIdentityPoolIds st.

Hypothesis getNextToken_keeps_state :
  forall response result st next st',
    getNextToken response result st = Returned next st' -> st' = st.

Lemma fetched_keeps_caches st cursor result pages st' :
  Fetched action params accessor getNextToken st cursor result pages st' ->
  cachedUserPoolIds st' = cachedUserPoolIds st
  /\ cachedIdentityPoolIds st' = cachedIdentityPoolIds st.
Proof.
  assert (Hcur : forall response acc st1 next st2,
             pageCursor getNextToken response acc st1 = Returned next st2 -> st2 = st1).
  { intros response acc st1 next st2. unfold pageCursor.
    destruct (truthy response); [apply getNextToken_keeps_state|].
    now intros [= _ <-]. }
  induction 1 as [st cursor result response st1 next st2 Hact Hnext _
                 |st cursor result response st1 next st2 pages st3 Hact Hnext _ _ IH].
  - apply Hcur in Hnext as ->. now apply action_keeps_caches in Hact.
  - apply Hcur in Hnext as ->. apply action_keeps_caches in Hact as [Hu Hi].
    destruct IH as [Hu' Hi']. split; congruence.
Qed.

End Fetch.

(** A non-empty cache answers without a remote call; an empty one is
    filled from the drained listing. *)
Lemma listUserPools_cached (fuel : nat) (st : State) :
  cachedUserPoolIds st <> [] ->
  listUserPools fuel st = Returned (cachedUserPoolIds st) st.
Proof.
  intros Hne. unfold listUserPools, mbind, M_bind, getState.
  destruct (cachedUserPoolIds st) as [|p ps] eqn:Hc; [congruence|].
  simpl. now rewrite Hc.
Qed.

Lemma listIdentityPools_cached (fuel : nat) (st : State) :
  cachedIdentityPoolIds st <> [] ->
  listIdentityPools fuel st = Returned (cachedIdentityPoolIds st) st.
Proof.
  intros Hne. unfold listIdentityPools, mbind, M_bind, getState.
  destruct (cachedIdentityPoolIds st) as [|p ps] eqn:Hc; [congruence|].
  simpl. now rewrite Hc.
Qed.

Lemma listUserPools_fetches (fuel : nat) (st st' : State) (pools : list UserPool.t) :
  cachedUserPoolIds st = [] ->
  listUserPools fuel st = Returned pools st' ->
  exists result st1,
    pagedAWSCall
      (fun (params : nat) nextToken => call (ListUserPools params nextToken))
      60%nat
      (fun response => ListUserPoolsResponse.UserPools response)
      (fun response _ => mret (ListUserPoolsResponse.NextToken response))
      fuel st = Returned result st1
    /\ pools = map UserPool.listed result
    /\ st' = mkState (world st1) (trace st1) pools (cachedIdentityPoolIds st1).
Proof.
  intros Hempty. unfold listUserPools, mbind at 1, M_bind at 1, getState.
  rewrite Hempty. cbn [length Nat.eqb]. unfold mbind at 1, M_bind at 1.
  unfold mbind at 1, M_bind at 1.
  destruct (pagedAWSCall _ _ _ _ fuel st) as [result st1| |] eqn:Hfetch;
    try discriminate.
  assert (cachedUserPoolIds st1 = []) as Hstill.
  { unfold pagedAWSCall in Hfetch.
    apply loop_sound in Hfetch as (pages & Hf & _ & _).
    apply fetched_keeps_caches in Hf as [-> _]; [exact Hempty| |].
    - intros cursor s response s' Hc.
      exact (call_keeps_caches (ListUserPools 60 cursor) _ _ _ Hc).
    - intros response acc s next s'. now intros [= _ <-]. }
  unfold mbind, M_bind, setCachedUserPoolIds. rewrite Hstill. simpl.
  intros [= <- <-]. exists result, st1. repeat split.
Qed.

Lemma listIdentityPools_fetches (fuel : nat) (st st' : State)
    (pools : list IdentityPoolRecord.t) :
  cachedIdentityPoolIds st = [] ->
  listIdentityPools fuel st = Returned pools st' ->
  exists result st1,
    pagedAWSCall
      (fun (params : nat) nextToken => call (ListIdentityPools params nextToken))
      60%nat
      (fun response => ListIdentityPoolsResponse.IdentityPools response)
      (fun response _ => mret (ListIdentityPoolsResponse.NextToken response))
      fuel st = Returned result st1
    /\ pools = map IdentityPoolRecord.listed result
    /\ st' = mkState (world st1) (trace st1) (cachedUserPoolIds st1) pools.
Proof.
  intros Hempty. unfold listIdentityPools, mbind at 1, M_bind at 1, getState.
  rewrite Hempty. cbn [length Nat.eqb]. unfold mbind at 1, M_bind at 1.
  unfold mbind at 1, M_bind at 1.
  destruct (pagedAWSCall _ _ _ _ fuel st) as [result st1| |] eqn:Hfetch;
    try discriminate.
  assert (cachedIdentityPoolIds st1 = []) as Hstill.
  { unfold pagedAWSCall in Hfetch.
    apply loop_sound in Hfetch as (pages & Hf & _ & _).
    apply fetched_keeps_caches in Hf as [_ ->]; [exact Hempty| |].
    - intros cursor s response s' Hc.
      exact (call_keeps_caches (ListIdentityPools 60 cursor) _ _ _ Hc).
    - intros response acc s next s'. now intros [= _ <-]. }
  unfold mbind, M_bind, setCachedIdentityPoolIds. rewrite Hstill. simpl.
  intros [= <- <-]. exists result, st1. repeat split.
Qed.

Lemma listUserPools_drains (fuel : nat) (st st1 : State)
    (pages : list ListUserPoolsResponse.t) :
  cachedUserPoolIds st = [] ->
  Fetched (fun (params : nat) nextToken => call (ListUserPools params nextToken))
          60%nat
          (fun response => ListUserPoolsResponse.UserPools response)
          (fun response _ => mret (ListUserPoolsResponse.NextToken response))
          st None [] pages st1 ->
  (length pages <= fuel)%nat ->
  let pools :=
    map UserPool.listed
        (concat (map (pageItems (fun response => ListUserPoolsResponse.UserPools response))
                     pages)) in
  listUserPools fuel st
  = Returned pools (mkState (world st1) (trace st1) pools (cachedIdentityPoolIds st1)).
Proof.
  intros Hempty Hf Hlen pools.
  pose proof (loop_complete _ _ _ _ pages [] None st st1 Hf fuel Hlen) as Hrun.
  cbn [app] in Hrun.
  assert (cachedUserPoolIds st1 = []) as Hstill.
  { apply fetched_keeps_caches in Hf as [-> _]; [exact Hempty| |].
    - intros cursor s response s' Hc.
      exact (call_keeps_caches (ListUserPools 60 cursor) _ _ _ Hc).
    - intros response acc s next s'. now intros [= _ <-]. }
  unfold listUserPools, mbind at 1, M_bind at 1, getState.
  rewrite Hempty. cbn [length Nat.eqb]. unfold mbind at 1, M_bind at 1.
  unfold mbind at 1, M_bind at 1. unfold pagedAWSCall. rewrite Hrun.
  unfold mbind, M_bind, setCachedUserPoolIds, getState. rewrite Hstill. reflexivity.
Qed.

Lemma listIdentityPools_drains (fuel : nat) (st st1 : State)
    (pages : list ListIdentityPoolsResponse.t) :
  cachedIdentityPoolIds st = [] ->
  Fetched (fun (params : nat) nextToken => call (ListIdentityPools params nextToken))
          60%nat
          (fun response => ListIdentityPoolsResponse.IdentityPools response)
          (fun response _ => mret (ListIdentityPoolsResponse.NextToken response))
          st None [] pages st1 ->
  (length pages <= fuel)%nat ->
  let pools :=
    map IdentityPoolRecord.listed
        (concat (map (pageItems
                        (fun response => ListIdentityPoolsResponse.IdentityPools response))
                     pages)) in
  listIdentityPools fuel st
  = Returned pools (mkState (world st1) (trace st1) (cachedUserPoolIds st1) pools).
Proof.
  intros Hempty Hf Hlen pools.
  pose proof (loop_complete _ _ _ _ pages [] None st st1 Hf fuel Hlen) as Hrun.
  cbn [app] in Hrun.
  assert (cachedIdentityPoolIds st1 = []) as Hstill.
  { apply fetched_keeps_caches in Hf as [_ ->]; [exact Hempty| |].
    - intros cursor s response s' Hc.
      exact (call_keeps_caches (ListIdentityPools 60 cursor) _ _ _ Hc).
    - intros response acc s next s'. now intros [= _ <-]. }
  unfold listIdentityPools, mbind at 1, M_bind at 1, getState.
  rewrite Hempty. cbn [length Nat.eqb]. unfold mbind at 1, M_bind at 1.
  unfold mbind at 1, M_bind at 1. unfold pagedAWSCall. rewrite Hrun.
  unfold mbind, M_bind, setCachedIdentityPoolIds, getState. rewrite Hstill. reflexivity.
Qed.

(** C9, as the code has it. A list call on a non-empty cache returns the
    cache and leaves the state, hence the backend and the trace, as they
    are. A list call on an empty cache drains the paginated listing,
    stores it and returns it; if that listing is non-empty, every later
    list call returns it without a remote call. An empty stored listing
    does not stop the next list call from fetching again. The first list
    call does return: when the backend answers the listing with a finite
    run of pages, a list call with one unit of fuel per page returns
    their pools, stored in the cache, in the state the last page left. *)
Theorem inventory_cache_once_when_nonempty (fuel : nat) (st : State) :
  (cachedUserPoolIds st <> [] ->
   listUserPools fuel st = Returned (cachedUserPoolIds st) st)
  /\ (cachedUserPoolIds st = [] ->
      forall pools st',
        listUserPools fuel st = Returned pools st' ->
        (exists result st1,
            pagedAWSCall
              (fun (params : nat) nextToken => call (ListUserPools params nextToken))
              60%nat
              (fun response => ListUserPoolsResponse.UserPools response)
              (fun response _ => mret (ListUserPoolsResponse.NextToken response))
              fuel st = Returned result st1
            /\ pools = map UserPool.listed result
            /\ world st' = world st1 /\ trace st' = trace st1)
        /\ cachedUserPoolIds st' = pools
        /\ (pools <> [] ->
            forall fuel', listUserPools fuel' st' = Returned pools st'))
  /\ (cachedIdentityPoolIds st <> [] ->
      listIdentityPools fuel st = Returned (cachedIdentityPoolIds st) st)
  /\ (cachedIdentityPoolIds st = [] ->
      forall pools st',
        listIdentityPools fuel st = Returned pools st' ->
        (exists result st1,
            pagedAWSCall
              (fun (params : nat) nextToken => call (ListIdentityPools params nextToken))
              60%nat
              (fun response => ListIdentityPoolsResponse.IdentityPools response)
              (fun response _ => mret (ListIdentityPoolsResponse.NextToken response))
              fuel st = Returned result st1
            /\ pools = map IdentityPoolRecord.listed result
            /\ world st' = world st1 /\ trace st' = trace st1)
        /\ cachedIdentityPoolIds st' = pools
        /\ (pools <> [] ->
            forall fuel', listIdentityPools fuel' st' = Returned pools st'))
  /\ (cachedUserPoolIds st = [] ->
      forall pages st1,
        Fetched (fun (params : nat) nextToken => call (ListUserPools params nextToken))
                60%nat
                (fun response => ListUserPoolsResponse.UserPools response)
                (fun response _ => mret (ListUserPoolsResponse.NextToken response))
                st None [] pages st1 ->
        (length pages <= fuel)%nat ->
        let pools :=
          map UserPool.listed
              (concat (map (pageItems
                              (fun response => ListUserPoolsResponse.UserPools response))
                           pages)) in
        listUserPools fuel st
        = Returned pools
            (mkState (world st1) (trace st1) pools (cachedIdentityPoolIds st1)))
  /\ (cachedIdentityPoolIds st = [] ->
      forall pages st1,
        Fetched (fun (params : nat) nextToken => call (ListIdentityPools params nextToken))
                60%nat
                (fun response => ListIdentityPoolsResponse.IdentityPools response)
                (fun response _ => mret (ListIdentityPoolsResponse.NextToken response))
                st None [] pages st1 ->
        (length pages <= fuel)%nat ->
        let pools :=
          map IdentityPoolRecord.listed
              (concat (map (pageItems
                              (fun response =>
                                 ListIdentityPoolsResponse.IdentityPools response))
                           pages)) in
        listIdentityPools fuel st
        = Returned pools
            (mkState (world st1) (trace st1) (cachedUserPoolIds st1) pools)).
Proof.
  split; [apply listUserPools_cached|].
  split; [|split; [apply listIdentityPools_cached|split; [|split]]].
  - intros Hempty pools st' Hrun.
    destruct (listUserPools_fetches fuel st st' pools Hempty Hrun)
      as (result & st1 & Hfetch & Hpools & ->).
    split; [exists result, st1; repeat split; assumption|].
    split; [reflexivity|].
    intros Hne fuel'. now apply listUserPools_cached.
  - intros Hempty pools st' Hrun.
    destruct (listIdentityPools_fetches fuel st st' pools Hempty Hrun)
      as (result & st1 & Hfetch & Hpools & ->).
    split; [exists result, st1; repeat split; assumption|].
    split; [reflexivity|].
    intros Hne fuel'. now apply listIdentityPools_cached.
  - intros Hempty pages st1 Hf Hlen. now apply listUserPools_drains.
  - intros Hempty pages st1 Hf Hlen. now apply listIdentityPools_drains.
Qed.

End CacheFacts.

(** C9 as stated fails: the account has no user pools, so the first
    listing is empty, and the second list call sends the request again. *)
Lemma listUserPools_refetches_empty_listing :
  exists st1 st2,
    @listUserPools account 1 (startAccount emptyAccount) = Returned [] st1
    /\ trace st1 = [Sent (ListUserPools 60 None) false]
    /\ @listUserPools account 1 st1 = Returned [] st2
    /\ trace st2 = [Sent (ListUserPools 60 None) false;
                    Sent (ListUserPools 60 None) false].
Proof. eexists. eexists. repeat split. Qed.

(** The listing of [sampleAccount] is one page: the first list call
    returns it after one request, and the next list call is served from
    the cache, even without fuel. *)
Lemma inventory_cache_once_when_nonempty_witness :
  exists pools st',
    @listUserPools account 1 (startAccount sampleAccount) = Returned pools st'
    /\ pools = map UserPool.listed [poolA; poolB; poolC]
    /\ trace st' = [Sent (ListUserPools 60 None) false]
    /\ @listUserPools account 0 st' = Returned pools st'.
Proof.
  destruct (@inventory_cache_once_when_nonempty account 1 (startAccount sampleAccount))
    as (_ & Hfill & _ & _ & Hdrain & _).
  pose proof (Hdrain eq_refl
                [ListUserPoolsResponse.mk (Some [poolA; poolB; poolC]) None]
                (mkState (H := account) sampleAccount
                         [Sent (ListUserPools 60 None) false] [] [])
                ltac:(eapply Fetched_last; reflexivity)
                ltac:(simpl; lia)) as Hrun.
  cbv zeta in Hrun.
  eexists. eexists. split; [exact Hrun|].
  split; [reflexivity|]. split; [reflexivity|].
  destruct (Hfill eq_refl _ _ Hrun) as (_ & _ & Hlater).
  apply Hlater. discriminate.
Defined.

(** ** The bodies of the loops *)

Section LoopFacts.
Context `{Remote}.

(** What a computation appends to the trace when it settles. *)
Lemma getAllUsers_trace (fuel : nat) :
  forall (poolId : string) (accumedUsers : list UserType) (flag : bool)
         (pageToken : option string) (st : State),
    match getAllUsers fuel poolId accumedUsers flag pageToken st with
    | Returned _ st' | Thrown _ st' =>
        exists rejected more,
          trace st' = trace st ++ Sent (ListUsers poolId pageToken) rejected :: more
    | Pending => True
    end.
Proof.
  induction fuel as [|fuel IH]; intros poolId accumedUsers flag pageToken st;
    [exact I|].
  destruct (send (ListUsers poolId pageToken) (world st)) as [[error|response] w] eqn:Hsend.
  - rewrite (getAllUsers_rejected _ _ _ _ _ _ _ _ Hsend).
    destruct (flag && isMissingAttributes error).
    + specialize (IH poolId accumedUsers false pageToken
                     (afterCall st (ListUsers poolId pageToken) true w)).
      destruct (getAllUsers fuel poolId accumedUsers false pageToken _)
        as [users st'|e st'|]; [| |exact I];
        destruct IH as (rejected & more & ->); simpl;
        exists true; eexists; rewrite <- app_assoc; reflexivity.
    + simpl. exists true, []. reflexivity.
  - rewrite (getAllUsers_resolved _ _ _ _ _ _ _ _ Hsend).
    destruct (ListUsersResponse.Users response) as [cognitoUsers|].
    + destruct (truthy (ListUsersResponse.PaginationToken response)).
      * specialize (IH poolId (accumedUsers ++ cognitoUsers) flag
                       (ListUsersResponse.PaginationToken response)
                       (afterCall st (ListUsers poolId pageToken) false w)).
        destruct (getAllUsers fuel poolId (accumedUsers ++ cognitoUsers) flag _ _)
          as [users st'|e st'|]; [| |exact I];
          destruct IH as (rejected & more & ->); simpl;
          exists false; eexists; rewrite <- app_assoc; reflexivity.
      * simpl. exists false, []. reflexivity.
    + simpl. exists false, []. reflexivity.
Qed.

(** The [catch] of the user-pool loop swallows every rejection. *)
Lemma classifyUserPool_settles (fuel : nat) (pool : UserPool.t) (st : State) :
  match classifyUserPool fuel pool st with
  | Returned pool' st' =>
      UserPool.description pool' = UserPool.description pool
      /\ exists rejected more,
          trace st' = trace st ++ Sent (ListUsers (UserPool.Id pool) None) rejected :: more
  | Thrown _ _ => False
  | Pending => True
  end.
Proof.
  pose proof (getAllUsers_trace fuel (UserPool.Id pool) [] true None st) as Htrace.
  unfold classifyUserPool, mbind, M_bind, attempt.
  destruct (getAllUsers fuel (UserPool.Id pool) [] true None st)
    as [poolUsers st'|e st'|]; [| |exact I].
  - cbn beta iota. split; [|exact Htrace].
    destruct (length poolUsers =? 0)%nat,
             ((0 <? length poolUsers)%nat && forallb _ poolUsers); reflexivity.
  - cbn beta iota. split; [reflexivity | exact Htrace].
Qed.

Lemma classifyUserPool_swallows (fuel : nat) (pool : UserPool.t) (st st' : State)
    (error : Error.t) :
  getAllUsers fuel (UserPool.Id pool) [] true None st = Thrown error st' ->
  classifyUserPool fuel pool st = Returned pool st'.
Proof.
  intros Hrun. unfold classifyUserPool, mbind, M_bind, attempt. now rewrite Hrun.
Qed.

Lemma storeCachedUserPool_run (i : nat) (pool : UserPool.t) (st : State) :
  storeCachedUserPool i pool st
  = Returned tt (mkState (world st) (trace st)
                         (<[i := pool]> (cachedUserPoolIds st))
                         (cachedIdentityPoolIds st)).
Proof. reflexivity. Qed.

Lemma storeCachedIdentityPool_run (i : nat) (pool : IdentityPoolRecord.t) (st : State) :
  storeCachedIdentityPool i pool st
  = Returned tt (mkState (world st) (trace st) (cachedUserPoolIds st)
                         (<[i := pool]> (cachedIdentityPoolIds st))).
Proof. reflexivity. Qed.








(** [src/index.ts]: a pool whose description carries a non-empty domain
    has the domain deleted right before the pool is. *)
Lemma Index_retireUserPool_domain_first (pool : UserPool.t) (st st' : State)
    (described : DescribeUserPoolResponse.t) (w : World) (domain : string) :
  send (DescribeUserPool (UserPool.Id pool)) (world st) = (inr described, w) ->
  DescribeUserPoolResponse.UserPool described ≫= UserPoolType.Domain = Some domain ->
  domain <> "" ->
  Index.retireUserPool pool st = Returned tt st' ->
  trace st' = trace st ++
    [ Sent (DescribeUserPool (UserPool.Id pool)) false;
      Sent (DeleteUserPoolDomain (UserPool.Id pool) domain) false;
      Sent (DeleteUserPool (UserPool.Id pool)) false ].
Proof.
  intros Hsend Hdomain Hne. unfold Index.retireUserPool.
  rewrite (bind_returned _ _ _ _ _ (call_resolved _ _ _ _ Hsend)), Hdomain.
  assert (truthy (Some domain) = true) as ->.
  { unfold truthy, undefined_truthy, string_truthy.
    apply negb_true_iff, String.eqb_neq, Hne. }
  change (default "" (Some domain)) with domain.
  set (st1 := afterCall st (DescribeUserPool (UserPool.Id pool)) false w).
  destruct (send (DeleteUserPoolDomain (UserPool.Id pool) domain) (world st1))
    as [[e|[]] w1] eqn:Hs1.
  { rewrite (bind_thrown _ _ _ _ _ (call_rejected _ _ _ _ Hs1)). discriminate. }
  rewrite (bind_returned _ _ _ _ _ (call_resolved _ _ _ _ Hs1)).
  set (st2 := afterCall st1 (DeleteUserPoolDomain (UserPool.Id pool) domain) false w1).
  destruct (send (DeleteUserPool (UserPool.Id pool)) (world st2)) as [[e|[]] w2] eqn:Hs2.
  { rewrite (call_rejected _ _ _ _ Hs2). discriminate. }
  rewrite (call_resolved _ _ _ _ Hs2).
  intros [= <-]. subst st2 st1. cbn [trace afterCall]. now rewrite <- !app_assoc.
Qed.






End LoopFacts.

(** C5. In [src/unnamed/part_000] the claim fails: pool A of
    [accountWithDomain] has no users and the domain [auth-a]; the run
    marks it for deletion and sends the pool-delete call without any
    domain-delete call, while the run of [src/index.ts] on the same
    account deletes the domain first. *)
Theorem Part000_main_never_deletes_domain :
  fst (accountSend (DescribeUserPool "eu-central-1_A") accountWithDomain)
  = inr (DescribeUserPoolResponse.mk
           (Some (UserPoolType.mk (Some "eu-central-1_A") (Some "auth-a"))))
  /\ match @Part000.main account 5 (startAccount accountWithDomain) with
     | Returned _ st' =>
         requests (trace st')
         = [ (ListUserPools 60 None, false);
             (ListUsers "eu-central-1_A" None, false);
             (ListIdentityPools 60 None, false);
             (DeleteUserPool "eu-central-1_A", false) ]
     | _ => False
     end
  /\ match @Index.main account 5 (startAccount accountWithDomain) with
     | Returned _ st' =>
         requests (trace st')
         = [ (ListUserPools 60 None, false);
             (ListUsers "eu-central-1_A" None, false);
             (ListIdentityPools 60 None, false);
             (DescribeUserPool "eu-central-1_A", false);
             (DeleteUserPoolDomain "eu-central-1_A" "auth-a", false);
             (DeleteUserPool "eu-central-1_A", false) ]
     | _ => False
     end.
Proof. vm_compute. repeat split. Qed.


(** ** Footprints of the run *)

Section FootprintFacts.
Context `{Remote}.

Global Instance appended_preorder (P : Event -> Prop) : PreOrder (appended P).
Proof.
  split.
  - intros st. exists []. split; [now rewrite app_nil_r | constructor].
  - intros st1 st2 st3 (m1 & H1 & P1) (m2 & H2 & P2).
    exists (m1 ++ m2). split; [now rewrite H2, H1, app_assoc|].
    apply Forall_app. now split.
Qed.

Global Instance sameIdentityCache_preorder : PreOrder sameIdentityCache.
Proof.
  split; [intros st; reflexivity|].
  intros st1 st2 st3 H1 H2. unfold sameIdentityCache in *. congruence.
Qed.

Global Instance sameUserCache_preorder : PreOrder sameUserCache.
Proof.
  split; [intros st; reflexivity|].
  intros st1 st2 st3 H1 H2. unfold sameUserCache in *. congruence.
Qed.

Section Generic.
Variable R : State -> State -> Prop.
Context `{!PreOrder R}.

Lemma settled_ret {A} (a : A) : settled R (mret a).
Proof. intros st. simpl. reflexivity. Qed.

Lemma settled_throw {A} (error : Error.t) : settled R (@throw _ A error).
Proof. intros st. simpl. reflexivity. Qed.

Lemma settled_pending {A} : settled R (@pending _ A).
Proof. intros st. exact I. Qed.

Lemma settled_bind {A B} (m : M A) (k : A -> M B) :
  settled R m -> (forall a, settled R (k a)) -> settled R (m ≫= k).
Proof.
  intros Hm Hk st. unfold mbind, M_bind. specialize (Hm st).
  destruct (m st) as [a st1|e st1|]; [|exact Hm|exact I].
  specialize (Hk a st1). destruct (k a st1) as [b st2|e st2|]; [| |exact I];
    now transitivity st1.
Qed.

Lemma settled_attempt {A} (m : M A) : settled R m -> settled R (attempt m).
Proof.
  intros Hm st. unfold attempt. specialize (Hm st).
  destruct (m st); exact Hm.
Qed.

Lemma settled_forOf {A B} (body : A -> M B) (items : list A) :
  (forall x, In x items -> settled R (body x)) -> settled R (forOf items body).
Proof.
  induction items as [|x items IH]; intros Hbody; [apply settled_ret|].
  simpl. apply settled_bind; [apply Hbody; now left|]. intros y.
  apply settled_bind; [apply IH; intros z Hz; apply Hbody; now right|].
  intros ys. apply settled_ret.
Qed.

Lemma settled_forOfCached {A} (store : nat -> A -> M unit) (body : A -> M A)
    (items : list A) :
  (forall x, In x items -> settled R (body x)) ->
  (forall i y, settled R (store i y)) ->
  forall i, settled R (forOfCached store i items body).
Proof.
  intros Hbody Hstore.
  induction items as [|x items IH]; intros i; [apply settled_ret|].
  simpl. apply settled_bind; [apply Hbody; now left|]. intros y.
  apply settled_bind; [apply Hstore|]. intros _.
  apply settled_bind; [apply IH; intros z Hz; apply Hbody; now right|].
  intros ys. apply settled_ret.
Qed.

Lemma settled_call (r : Request) :
  (forall st rejected w, R st (afterCall st r rejected w)) -> settled R (call r).
Proof.
  intros Hr st. unfold call.
  destruct (send r (world st)) as [[e|a] w]; apply Hr.
Qed.

Lemma settled_pagedAWSCall {TAPIResult TData TNextToken TParams : Type}
    `{Truthy TAPIResult} `{Truthy TNextToken}
    (action : TParams -> option TNextToken -> M TAPIResult) (params : TParams)
    (accessor : TAPIResult -> option (list TData))
    (getNextToken : TAPIResult -> list TData -> M (option TNextToken)) (fuel : nat) :
  (forall cursor, settled R (action params cursor)) ->
  (forall response result, settled R (getNextToken response result)) ->
  forall result cursor,
    settled R (pagedAWSCall_loop action params accessor getNextToken fuel result cursor).
Proof.
  intros Haction Hnext. induction fuel as [|fuel IH]; intros result cursor;
    [apply settled_pending|].
  simpl. apply settled_bind; [apply Haction|]. intros response.
  apply settled_bind.
  - destruct (truthy response); [apply Hnext | apply settled_ret].
  - intros next. destruct (truthy next); [apply IH | apply settled_ret].
Qed.

Lemma settled_getAllUsers (fuel : nat) (poolId : string) :
  (forall token st rejected w, R st (afterCall st (ListUsers poolId token) rejected w)) ->
  forall accumedUsers flag pageToken,
    settled R (getAllUsers fuel poolId accumedUsers flag pageToken).
Proof.
  intros Hcall. induction fuel as [|fuel IH]; intros accumedUsers flag pageToken;
    [apply settled_pending|].
  simpl. apply settled_bind.
  - apply settled_attempt, settled_bind;
      [apply (settled_call (ListUsers poolId pageToken)), Hcall|].
    intros response. destruct (ListUsersResponse.Users response);
      [apply settled_ret | apply settled_throw].
  - intros [error|[cognitoUsers nextPageToken]].
    + destruct (flag && isMissingAttributes error); [apply IH | apply settled_throw].
    + destruct (truthy nextPageToken); [apply IH | apply settled_ret].
Qed.

Lemma settled_classifyUserPool (fuel : nat) (pool : UserPool.t) :
  (forall poolId token st rejected w,
      R st (afterCall st (ListUsers poolId token) rejected w)) ->
  settled R (classifyUserPool fuel pool).
Proof.
  intros Hcall. unfold classifyUserPool. apply settled_bind.
  - apply settled_attempt, settled_bind; [apply settled_getAllUsers, Hcall|].
    intros poolUsers. apply settled_ret.
  - intros [error|pool']; apply settled_ret.
Qed.

Lemma settled_classifyIdentityPool (realPools : list UserPool.t)
    (identityPool : IdentityPoolRecord.t) :
  (forall id st rejected w, R st (afterCall st (DescribeIdentityPool id) rejected w)) ->
  settled R (classifyIdentityPool realPools identityPool).
Proof.
  intros Hcall. unfold classifyIdentityPool.
  apply settled_bind;
    [apply (settled_call (DescribeIdentityPool
                            (IdentityPoolRecord.IdentityPoolId identityPool))), Hcall|].
  intros response.
  destruct (IdentityPool.CognitoIdentityProviders response) as [providers|];
    [|apply settled_throw].
  destruct (length providers =? 0)%nat; [apply settled_ret|].
  destruct (length providers =? 1)%nat; [|apply settled_ret].
  destruct (length _ =? 0)%nat; apply settled_ret.
Qed.

Lemma settled_getState : settled R getState.
Proof. intros st. simpl. reflexivity. Qed.

Lemma settled_storeCachedUserPool (i : nat) (pool : UserPool.t) :
  (forall st pools, R st (mkState (world st) (trace st) pools (cachedIdentityPoolIds st))) ->
  settled R (storeCachedUserPool i pool).
Proof. intros Hset st. rewrite storeCachedUserPool_run. apply Hset. Qed.

Lemma settled_storeCachedIdentityPool (i : nat) (pool : IdentityPoolRecord.t) :
  (forall st pools, R st (mkState (world st) (trace st) (cachedUserPoolIds st) pools)) ->
  settled R (storeCachedIdentityPool i pool).
Proof. intros Hset st. rewrite storeCachedIdentityPool_run. apply Hset. Qed.

Lemma settled_listUserPools (fuel : nat) :
  (forall token st rejected w,
      R st (afterCall st (ListUserPools 60 token) rejected w)) ->
  (forall st pools, R st (mkState (world st) (trace st) pools (cachedIdentityPoolIds st))) ->
  settled R (listUserPools fuel).
Proof.
  intros Hcall Hset. unfold listUserPools.
  apply settled_bind; [apply settled_getState|]. intros st0.
  apply settled_bind; [|intros _; apply settled_bind;
                         [apply settled_getState | intros st1; apply settled_ret]].
  destruct (length (cachedUserPoolIds st0) =? 0)%nat; [|apply settled_ret].
  apply settled_bind.
  - apply settled_pagedAWSCall;
      [intros cursor; apply (settled_call (ListUserPools 60 cursor)), Hcall|].
    intros response result. apply settled_ret.
  - intros result. apply settled_bind; [apply settled_getState|].
    intros st1 st. apply Hset.
Qed.

Lemma settled_listIdentityPools (fuel : nat) :
  (forall token st rejected w,
      R st (afterCall st (ListIdentityPools 60 token) rejected w)) ->
  (forall st pools, R st (mkState (world st) (trace st) (cachedUserPoolIds st) pools)) ->
  settled R (listIdentityPools fuel).
Proof.
  intros Hcall Hset. unfold listIdentityPools.
  apply settled_bind; [apply settled_getState|]. intros st0.
  apply settled_bind; [|intros _; apply settled_bind;
                         [apply settled_getState | intros st1; apply settled_ret]].
  destruct (length (cachedIdentityPoolIds st0) =? 0)%nat; [|apply settled_ret].
  apply settled_bind.
  - apply settled_pagedAWSCall;
      [intros cursor; apply (settled_call (ListIdentityPools 60 cursor)), Hcall|].
    intros response result. apply settled_ret.
  - intros result. apply settled_bind; [apply settled_getState|].
    intros st1 st. apply Hset.
Qed.

(** The user-pool phase and the identity-pool phase of the audit. *)
Lemma settled_auditUserPools (fuel : nat) :
  (forall r st rejected w, readsOnly r -> R st (afterCall st r rejected w)) ->
  (forall st pools, R st (mkState (world st) (trace st) pools (cachedIdentityPoolIds st))) ->
  (forall path content, settled R (writeFileSync path content)) ->
  settled R (auditUserPools fuel).
Proof.
  intros Hcall Hset Hwrite. unfold auditUserPools.
  apply settled_bind.
  { apply settled_listUserPools; [|exact Hset].
    intros token st rejected w. now apply Hcall. }
  intros pools0. apply settled_bind.
  { apply settled_forOfCached.
    - intros pool _. apply settled_classifyUserPool.
      intros poolId token st rejected w. now apply Hcall.
    - intros i pool. now apply settled_storeCachedUserPool. }
  intros pools. apply settled_bind; [apply Hwrite|].
  intros _. apply settled_bind; [apply Hwrite|].
  intros _. apply settled_ret.
Qed.

Lemma settled_auditIdentityPools (fuel : nat) (realPools : list UserPool.t) :
  (forall r st rejected w, readsOnly r -> R st (afterCall st r rejected w)) ->
  (forall st pools, R st (mkState (world st) (trace st) (cachedUserPoolIds st) pools)) ->
  (forall path content, settled R (writeFileSync path content)) ->
  settled R (auditIdentityPools fuel realPools).
Proof.
  intros Hcall Hset Hwrite. unfold auditIdentityPools.
  apply settled_bind.
  { apply settled_listIdentityPools; [|exact Hset].
    intros token st rejected w. now apply Hcall. }
  intros pools0. apply settled_bind.
  { apply settled_forOfCached.
    - intros pool _. apply settled_classifyIdentityPool.
      intros id st rejected w. now apply Hcall.
    - intros i pool. now apply settled_storeCachedIdentityPool. }
  intros pools. apply settled_bind; [apply Hwrite|].
  intros _. apply settled_bind; [apply Hwrite|].
  intros _. apply settled_ret.
Qed.

End Generic.

End FootprintFacts.

(** ** Inverting runs *)

Section AuditFacts.
Context `{Remote}.

Lemma bind_returned_inv {A B} (m : M A) (k : A -> M B) (st st' : State) (b : B) :
  (m ≫= k) st = Returned b st' ->
  exists a st1, m st = Returned a st1 /\ k a st1 = Returned b st'.
Proof.
  unfold mbind, M_bind. destruct (m st) as [a st1|e st1|]; try discriminate.
  intros Hk. now exists a, st1.
Qed.

Lemma bind_thrown_inv {A B} (m : M A) (k : A -> M B) (st st' : State) (e : Error.t) :
  (m ≫= k) st = Thrown e st' ->
  m st = Thrown e st'
  \/ exists a st1, m st = Returned a st1 /\ k a st1 = Thrown e st'.
Proof.
  unfold mbind, M_bind. destruct (m st) as [a st1|e1 st1|]; try discriminate.
  - intros Hk. right. now exists a, st1.
  - intros [= -> ->]. now left.
Qed.

Lemma appended_call (P : Event -> Prop) (r : Request) :
  (forall rejected, P (Sent r rejected)) ->
  forall st rejected w, appended P st (afterCall st r rejected w).
Proof.
  intros HP st rejected w. exists [Sent r rejected]. split; [reflexivity|].
  constructor; [apply HP | constructor].
Qed.

Lemma appended_same_trace (P : Event -> Prop) (st st' : State) :
  trace st' = trace st -> appended P st st'.
Proof. intros Heq. exists []. split; [now rewrite app_nil_r | constructor]. Qed.

Lemma appended_impl (P Q : Event -> Prop) (st st' : State) :
  (forall ev, P ev -> Q ev) -> appended P st st' -> appended Q st st'.
Proof.
  intros HPQ (more & Ht & HP). exists more. split; [exact Ht|].
  eapply Forall_impl; eassumption.
Qed.

Lemma settled_impl {A} (R R' : State -> State -> Prop) (m : M A) :
  (forall st st', R st st' -> R' st st') -> settled R m -> settled R' m.
Proof.
  intros HR Hm st. specialize (Hm st). destruct (m st); auto.
Qed.

(** The reading phase sends read requests only. *)
Lemma listUserPools_reads (fuel : nat) : settled (appended readEvent) (listUserPools fuel).
Proof.
  apply settled_listUserPools; [apply _| |].
  - intros token. now apply appended_call.
  - intros st pools. now apply appended_same_trace.
Qed.

Lemma listIdentityPools_reads (fuel : nat) :
  settled (appended readEvent) (listIdentityPools fuel).
Proof.
  apply settled_listIdentityPools; [apply _| |].
  - intros token. now apply appended_call.
  - intros st pools. now apply appended_same_trace.
Qed.

Lemma classifyUserPools_read (fuel : nat) (pools : list UserPool.t) (i : nat) :
  settled (appended readEvent)
          (forOfCached storeCachedUserPool i pools (classifyUserPool fuel)).
Proof.
  apply settled_forOfCached; [apply _| |].
  - intros pool _. apply settled_classifyUserPool; [apply _|].
    intros poolId token. now apply appended_call.
  - intros j pool. apply settled_storeCachedUserPool.
    intros st pools'. now apply appended_same_trace.
Qed.

Lemma classifyIdentityPools_read (realPools : list UserPool.t)
    (pools : list IdentityPoolRecord.t) (i : nat) :
  settled (appended readEvent)
          (forOfCached storeCachedIdentityPool i pools (classifyIdentityPool realPools)).
Proof.
  apply settled_forOfCached; [apply _| |].
  - intros pool _. apply settled_classifyIdentityPool; [apply _|].
    intros id. now apply appended_call.
  - intros j pool. apply settled_storeCachedIdentityPool.
    intros st pools'. now apply appended_same_trace.
Qed.

(** The user-pool phase leaves the identity-pool cache alone. *)
Lemma auditUserPools_keeps_identity (fuel : nat) :
  settled sameIdentityCache (auditUserPools fuel).
Proof.
  apply settled_auditUserPools; [apply _| | |]; try reflexivity.
  intros path content st. reflexivity.
Qed.

(** What the lists hold when a list call returns. *)
Lemma listUserPools_unmarked (fuel : nat) (st st' : State) (pools : list UserPool.t) :
  Forall unmarked (cachedUserPoolIds st) ->
  listUserPools fuel st = Returned pools st' ->
  Forall unmarked pools.
Proof.
  intros Hcache Hrun.
  destruct (cachedUserPoolIds st) as [|p ps] eqn:Hc.
  - destruct (listUserPools_fetches fuel st st' pools Hc Hrun)
      as (result & st1 & _ & -> & _).
    apply List.Forall_forall. intros pool Hin. apply in_map_iff in Hin as (d & <- & _).
    reflexivity.
  - rewrite listUserPools_cached in Hrun by (rewrite Hc; discriminate).
    injection Hrun as <- _. now rewrite Hc.
Qed.

Lemma listIdentityPools_unmarked (fuel : nat) (st st' : State)
    (pools : list IdentityPoolRecord.t) :
  Forall unmarkedIdentity (cachedIdentityPoolIds st) ->
  listIdentityPools fuel st = Returned pools st' ->
  Forall unmarkedIdentity pools.
Proof.
  intros Hcache Hrun.
  destruct (cachedIdentityPoolIds st) as [|p ps] eqn:Hc.
  - destruct (listIdentityPools_fetches fuel st st' pools Hc Hrun)
      as (result & st1 & _ & -> & _).
    apply List.Forall_forall. intros pool Hin. apply in_map_iff in Hin as (d & <- & _).
    reflexivity.
  - rewrite listIdentityPools_cached in Hrun by (rewrite Hc; discriminate).
    injection Hrun as <- _. now rewrite Hc.
Qed.

(** A pool the loop body marks carries the users its enumeration
    returned: none, or users that all still have to change their
    password. *)
Lemma classifyUserPool_marks (fuel : nat) (pool pool' : UserPool.t) (st st' : State) :
  unmarked pool ->
  classifyUserPool fuel pool st = Returned pool' st' ->
  truthy (UserPool.isPrepareToDelete pool') = true ->
  UserPool.isPrepareToDelete pool' = Some true
  /\ UserPool.description pool' = UserPool.description pool
  /\ exists users,
      UserPool.poolUsers pool' = Some users
      /\ Forall (fun poolUser => UserStatus poolUser = Some "FORCE_CHANGE_PASSWORD") users
      /\ getAllUsers fuel (UserPool.Id pool) [] true None st = Returned users st'.
Proof.
  intros Hpool. unfold classifyUserPool, mbind, M_bind, attempt.
  destruct (getAllUsers fuel (UserPool.Id pool) [] true None st)
    as [poolUsers st1|e st1|]; [| |discriminate]; cbn beta iota.
  - destruct poolUsers as [|u us].
    + intros [= <- <-] _. split; [reflexivity|]. split; [reflexivity|].
      exists []. split; [reflexivity|]. split; [constructor | reflexivity].
    + change (length (u :: us) =? 0)%nat with false.
      change (0 <? length (u :: us))%nat with true. cbn iota. rewrite andb_true_l.
      destruct (forallb _ (u :: us)) eqn:Hall; intros [= <- <-].
      * intros _. split; [reflexivity|]. split; [reflexivity|].
        exists (u :: us). split; [reflexivity|].
        split; [now apply forallb_status | reflexivity].
      * unfold unmarked in Hpool. rewrite Hpool. discriminate.
  - intros [= <- <-]. unfold unmarked in Hpool. rewrite Hpool. discriminate.
Qed.

(** An identity pool the loop body marks was described without
    providers, or with a sole provider that matches no retained pool. *)
Lemma classifyIdentityPool_marks (realPools : list UserPool.t)
    (pool pool' : IdentityPoolRecord.t) (st st' : State) :
  unmarkedIdentity pool ->
  classifyIdentityPool realPools pool st = Returned pool' st' ->
  truthy (IdentityPoolRecord.isPrepareToDelete pool') = true ->
  IdentityPoolRecord.isPrepareToDelete pool' = Some true
  /\ IdentityPoolRecord.description pool' = IdentityPoolRecord.description pool
  /\ exists response,
      call (DescribeIdentityPool (IdentityPoolRecord.IdentityPoolId pool)) st
      = Returned response st'
      /\ ((IdentityPool.CognitoIdentityProviders response = Some []
           /\ IdentityPoolRecord.reasonDelete pool'
              = Some "CognitoIdentityProviders empty")
          \/ exists provider,
              IdentityPool.CognitoIdentityProviders response = Some [provider]
              /\ findUserPoolByProviderName
                   realPools (CognitoIdentityProvider.ProviderName provider) = []
              /\ IdentityPoolRecord.reasonDelete pool'
                 = Some ("ProviderName "
                         +:+ JS.template (CognitoIdentityProvider.ProviderName provider)
                         +:+ " not match any user pool")).
Proof.
  intros Hpool Hrun Hmarked. unfold classifyIdentityPool in Hrun.
  apply bind_returned_inv in Hrun as (response & st1 & Hcall & Hrun).
  destruct (IdentityPool.CognitoIdentityProviders response) as [providers|] eqn:Hproviders;
    [|discriminate].
  destruct providers as [|provider [|provider2 providers]].
  - injection Hrun as <- <-. split; [reflexivity|]. split; [reflexivity|].
    exists response. split; [exact Hcall|]. left.
    split; [exact Hproviders | reflexivity].
  - cbn [length Nat.eqb lookup list_lookup mbind option_bind] in Hrun.
    destruct (findUserPoolByProviderName realPools
                (CognitoIdentityProvider.ProviderName provider)) as [|m ms] eqn:Hfind.
    + injection Hrun as <- <-. split; [reflexivity|]. split; [reflexivity|].
      exists response. split; [exact Hcall|]. right. exists provider.
      split; [exact Hproviders|]. split; [exact Hfind | reflexivity].
    + injection Hrun as <- <-.
      unfold unmarkedIdentity in Hpool. rewrite Hpool in Hmarked. discriminate.
  - injection Hrun as <- <-.
    unfold unmarkedIdentity in Hpool. rewrite Hpool in Hmarked. discriminate.
Qed.

(** The two phases of the audit, when they return. *)
Lemma auditUserPools_returned (fuel : nat) (st st' : State)
    (deletePools realPools : list UserPool.t) :
  auditUserPools fuel st = Returned (deletePools, realPools) st' ->
  exists pools0 st0 pools st1,
    listUserPools fuel st = Returned pools0 st0
    /\ forOfCached storeCachedUserPool 0 pools0 (classifyUserPool fuel) st0
       = Returned pools st1
    /\ deletePools
       = List.filter (fun pool => truthy (UserPool.isPrepareToDelete pool)) pools
    /\ realPools
       = List.filter (fun pool => negb (truthy (UserPool.isPrepareToDelete pool))) pools
    /\ trace st' = trace st1 ++ [ Wrote deletePoolsPath (UserPools deletePools);
                                  Wrote keepPoolsPath (UserPools realPools) ]
    /\ cachedUserPoolIds st' = cachedUserPoolIds st1
    /\ cachedIdentityPoolIds st' = cachedIdentityPoolIds st1.
Proof.
  intros Hrun. unfold auditUserPools in Hrun.
  apply bind_returned_inv in Hrun as (pools0 & st0 & Hlist & Hrun).
  apply bind_returned_inv in Hrun as (pools & st1 & Hclassify & Hrun).
  apply bind_returned_inv in Hrun as ([] & st2 & Hw1 & Hrun).
  injection Hw1 as <-.
  apply bind_returned_inv in Hrun as ([] & st3 & Hw2 & Hrun).
  injection Hw2 as <-.
  injection Hrun as <- <- <-.
  exists pools0, st0, pools, st1. repeat split; try assumption.
  cbn [trace]. now rewrite <- app_assoc.
Qed.

Lemma auditIdentityPools_returned (fuel : nat) (realPools : list UserPool.t)
    (st st' : State) (deleteIdentityPools : list IdentityPoolRecord.t) :
  auditIdentityPools fuel realPools st = Returned deleteIdentityPools st' ->
  exists pools0 st0 pools st1,
    listIdentityPools fuel st = Returned pools0 st0
    /\ forOfCached storeCachedIdentityPool 0 pools0 (classifyIdentityPool realPools) st0
       = Returned pools st1
    /\ deleteIdentityPools
       = List.filter (fun pool => truthy (IdentityPoolRecord.isPrepareToDelete pool))
                     pools
    /\ trace st'
       = trace st1 ++
         [ Wrote deleteIdentityPoolsPath (IdentityPools deleteIdentityPools);
           Wrote keepIdentityPoolsPath
                 (IdentityPools
                    (List.filter
                       (fun pool =>
                          negb (truthy (IdentityPoolRecord.isPrepareToDelete pool)))
                       pools)) ]
    /\ cachedUserPoolIds st' = cachedUserPoolIds st1
    /\ cachedIdentityPoolIds st' = cachedIdentityPoolIds st1.
Proof.
  intros Hrun. unfold auditIdentityPools in Hrun.
  apply bind_returned_inv in Hrun as (pools0 & st0 & Hlist & Hrun).
  apply bind_returned_inv in Hrun as (pools & st1 & Hclassify & Hrun).
  apply bind_returned_inv in Hrun as ([] & st2 & Hw1 & Hrun).
  injection Hw1 as <-.
  apply bind_returned_inv in Hrun as ([] & st3 & Hw2 & Hrun).
  injection Hw2 as <-.
  injection Hrun as <- <-.
  exists pools0, st0, pools, st1. repeat split; try assumption.
  cbn [trace]. now rewrite <- app_assoc.
Qed.

Lemma audit_returned_inv (fuel : nat) (st st' : State)
    (deletePools : list UserPool.t) (deleteIdentityPools : list IdentityPoolRecord.t) :
  audit fuel st = Returned (deletePools, deleteIdentityPools) st' ->
  exists realPools stA,
    auditUserPools fuel st = Returned (deletePools, realPools) stA
    /\ auditIdentityPools fuel realPools stA = Returned deleteIdentityPools st'.
Proof.
  intros Hrun. unfold audit in Hrun.
  apply bind_returned_inv in Hrun as ([dp realPools] & stA & Husers & Hrun).
  apply bind_returned_inv in Hrun as (dip & st2 & Hidentity & Hrun).
  injection Hrun as <- <- <-. now exists realPools, stA.
Qed.

(** When the audit completes, its trace has the shape [auditTrace]. *)
Lemma audit_returned (fuel : nat) (st st' : State)
    (deletePools : list UserPool.t) (deleteIdentityPools : list IdentityPoolRecord.t) :
  audit fuel st = Returned (deletePools, deleteIdentityPools) st' ->
  exists reads1 reads2 keepPools keepIdentityPools,
    trace st' = trace st ++
      auditTrace reads1 reads2 deletePools keepPools
                 deleteIdentityPools keepIdentityPools
    /\ Forall readEvent reads1 /\ Forall readEvent reads2.
Proof.
  intros Hrun.
  apply audit_returned_inv in Hrun as (realPools & stA & Husers & Hidentity).
  apply auditUserPools_returned in Husers
    as (pools0 & st0 & pools & st1 & Hlist & Hclassify & _ & _ & HtA & _).
  apply auditIdentityPools_returned in Hidentity
    as (ipools0 & st2 & ipools & st3 & Hilist & Hiclassify & _ & Ht' & _).
  pose proof (listUserPools_reads fuel st) as Hx1. rewrite Hlist in Hx1.
  destruct Hx1 as (r1 & Ht1 & Hr1).
  pose proof (classifyUserPools_read fuel pools0 0 st0) as Hx2.
  rewrite Hclassify in Hx2. destruct Hx2 as (r2 & Ht2 & Hr2).
  pose proof (listIdentityPools_reads fuel stA) as Hx3. rewrite Hilist in Hx3.
  destruct Hx3 as (r3 & Ht3 & Hr3).
  pose proof (classifyIdentityPools_read realPools ipools0 0 st2) as Hx4.
  rewrite Hiclassify in Hx4. destruct Hx4 as (r4 & Ht4 & Hr4).
  exists (r1 ++ r2), (r3 ++ r4). eexists. eexists. split.
  { rewrite Ht', Ht4, Ht3, HtA, Ht2, Ht1. unfold auditTrace.
    rewrite <- !app_assoc. reflexivity. }
  split; apply Forall_app; now split.
Qed.

(** Every user pool the audit hands over for deletion was marked by the
    loop body, from what the enumeration of its users returned. *)
Lemma audit_condemns (fuel : nat) (st st' : State)
    (deletePools : list UserPool.t) (deleteIdentityPools : list IdentityPoolRecord.t)
    (pool : UserPool.t) :
  Forall unmarked (cachedUserPoolIds st) ->
  audit fuel st = Returned (deletePools, deleteIdentityPools) st' ->
  In pool deletePools ->
  UserPool.isPrepareToDelete pool = Some true
  /\ exists users,
      UserPool.poolUsers pool = Some users
      /\ Forall (fun poolUser => UserStatus poolUser = Some "FORCE_CHANGE_PASSWORD") users
      /\ enumeratedAs fuel st pool users.
Proof.
  intros Hcache Hrun Hin.
  apply audit_returned_inv in Hrun as (realPools & stA & Husers & _).
  apply auditUserPools_returned in Husers
    as (pools0 & st0 & pools & st1 & Hlist & Hclassify & -> & _ & _).
  apply List.filter_In in Hin as [Hin Hmarked].
  destruct (forOfCached_In _ _ _ _ _ _ _ _ Hclassify Hin)
    as (before & x & after & done & sta & stb & Hsplit & Hprefix & Hbody).
  pose proof (listUserPools_unmarked fuel st st0 pools0 Hcache Hlist) as Hall.
  rewrite Hsplit in Hall. apply Forall_app in Hall as [_ Hall].
  inversion Hall as [|? ? Hx _]; subst.
  destruct (classifyUserPool_marks fuel x pool sta stb Hx Hbody Hmarked)
    as (Hsome & Hdesc & users & Husers & Hstatus & Henum).
  split; [exact Hsome|]. exists users. split; [exact Husers|]. split; [exact Hstatus|].
  exists before, x, after, st0, done, sta, stb.
  split; [exact Hlist|]. split; [exact Hprefix|]. split; [now symmetry|].
  unfold UserPool.Id in *. now rewrite Hdesc.
Qed.

(** Every identity pool the audit hands over for deletion was marked by
    the loop body, from what its describe call answered. *)
Lemma audit_condemns_identity (fuel : nat) (st st' : State)
    (deletePools : list UserPool.t) (deleteIdentityPools : list IdentityPoolRecord.t)
    (pool : IdentityPoolRecord.t) :
  Forall unmarkedIdentity (cachedIdentityPoolIds st) ->
  audit fuel st = Returned (deletePools, deleteIdentityPools) st' ->
  In pool deleteIdentityPools ->
  IdentityPoolRecord.isPrepareToDelete pool = Some true
  /\ exists realPools response,
      describedAs fuel st pool realPools response
      /\ ((IdentityPool.CognitoIdentityProviders response = Some []
           /\ IdentityPoolRecord.reasonDelete pool
              = Some "CognitoIdentityProviders empty")
          \/ exists provider,
              IdentityPool.CognitoIdentityProviders response = Some [provider]
              /\ findUserPoolByProviderName
                   realPools (CognitoIdentityProvider.ProviderName provider) = []
              /\ IdentityPoolRecord.reasonDelete pool
                 = Some ("ProviderName "
                         +:+ JS.template (CognitoIdentityProvider.ProviderName provider)
                         +:+ " not match any user pool")).
Proof.
  intros Hcache Hrun Hin.
  apply audit_returned_inv in Hrun as (realPools & stA & Husers & Hidentity).
  apply auditIdentityPools_returned in Hidentity
    as (pools0 & st0 & pools & st1 & Hlist & Hclassify & -> & _).
  apply List.filter_In in Hin as [Hin Hmarked].
  destruct (forOfCached_In _ _ _ _ _ _ _ _ Hclassify Hin)
    as (before & x & after & done & sta & stb & Hsplit & Hprefix & Hbody).
  assert (Hall : Forall unmarkedIdentity pools0).
  { apply (listIdentityPools_unmarked fuel stA st0); [|exact Hlist].
    pose proof (auditUserPools_keeps_identity fuel st) as Hkeep.
    rewrite Husers in Hkeep. unfold sameIdentityCache in Hkeep. now rewrite Hkeep. }
  rewrite Hsplit in Hall. apply Forall_app in Hall as [_ Hall].
  inversion Hall as [|? ? Hx _]; subst.
  destruct (classifyIdentityPool_marks realPools x pool sta stb Hx Hbody Hmarked)
    as (Hsome & Hdesc & response & Hcall & Hreason).
  split; [exact Hsome|]. exists realPools, response. split; [|exact Hreason].
  exists deletePools, stA, before, x, after, st0, done, sta, stb.
  split; [exact Husers|]. split; [exact Hlist|]. split; [exact Hprefix|].
  split; [now symmetry|].
  unfold IdentityPoolRecord.IdentityPoolId in *. now rewrite Hdesc.
Qed.

End AuditFacts.

(** ** Whole runs of the two entry points *)

Section RunFacts.
Context `{Remote}.

Lemma readEvent_not_deletion (ev : Event) : readEvent ev -> ~ isDeletion ev.
Proof. destruct ev as [[] ?|]; simpl; tauto. Qed.

Lemma auditTrace_no_deletion reads1 reads2 dp kp dip kip :
  Forall readEvent reads1 -> Forall readEvent reads2 ->
  Forall (fun ev => ~ isDeletion ev) (auditTrace reads1 reads2 dp kp dip kip).
Proof.
  intros H1 H2. unfold auditTrace.
  repeat (apply Forall_app; split);
    try (eapply Forall_impl; [eassumption | exact readEvent_not_deletion]);
    repeat constructor; simpl; tauto.
Qed.

(** The audit sends no deleting call, however it ends. *)
Lemma audit_no_deletion (fuel : nat) :
  settled (appended (fun ev => ~ isDeletion ev)) (audit fuel).
Proof.
  assert (Hcall : forall r st rejected w,
            readsOnly r ->
            appended (fun ev => ~ isDeletion ev) st (afterCall st r rejected w)).
  { intros r st rejected w Hr. apply appended_call. intros rejected'.
    destruct r; simpl in *; tauto. }
  assert (Hwrite : forall path content,
            settled (appended (fun ev => ~ isDeletion ev)) (writeFileSync path content)).
  { intros path content st. exists [Wrote path content]. split; [reflexivity|].
    repeat constructor. simpl. tauto. }
  unfold audit.
  apply settled_bind; [apply _| |].
  { apply settled_auditUserPools; [apply _|exact Hcall| |exact Hwrite].
    intros st pools. now apply appended_same_trace. }
  intros [deletePools realPools]. apply settled_bind; [apply _| |].
  { apply settled_auditIdentityPools; [apply _|exact Hcall| |exact Hwrite].
    intros st pools. now apply appended_same_trace. }
  intros deleteIdentityPools. apply settled_ret. apply _.
Qed.

(** What the retirement of one pool may send. *)
Lemma Index_retireUserPool_footprint (ids : list string) (pool : UserPool.t) :
  In (UserPool.Id pool) ids ->
  settled (appended (retiresUserPool ids)) (Index.retireUserPool pool).
Proof.
  intros Hin. unfold Index.retireUserPool.
  apply settled_bind; [apply _| |].
  { apply (settled_call _ (DescribeUserPool (UserPool.Id pool))).
    now apply appended_call. }
  intros deleteUP. apply settled_bind; [apply _| |].
  { destruct (truthy _); [|apply settled_ret; apply _].
    apply (settled_call _ (DeleteUserPoolDomain (UserPool.Id pool) _)).
    now apply appended_call. }
  intros _. apply (settled_call _ (DeleteUserPool (UserPool.Id pool))).
  now apply appended_call.
Qed.

Lemma Part000_retireUserPool_footprint (ids : list string) (pool : UserPool.t) :
  In (UserPool.Id pool) ids ->
  settled (appended (retiresUserPool ids)) (Part000.retireUserPool pool).
Proof.
  intros Hin. apply (settled_call _ (DeleteUserPool (UserPool.Id pool))).
  now apply appended_call.
Qed.

Lemma retireIdentityPool_footprint (ids : list string) (pool : IdentityPoolRecord.t) :
  In (IdentityPoolRecord.IdentityPoolId pool) ids ->
  settled (appended (retiresIdentityPool ids)) (retireIdentityPool pool).
Proof.
  intros Hin.
  apply (settled_call _ (DeleteIdentityPool (IdentityPoolRecord.IdentityPoolId pool))).
  now apply appended_call.
Qed.


Section Run.
Variable retire : UserPool.t -> M unit.




Hypothesis retire_footprint :
  forall ids pool, In (UserPool.Id pool) ids ->
                   settled (appended (retiresUserPool ids)) (retire pool).

Lemma retirement_footprint (dp : list UserPool.t) (dip : list IdentityPoolRecord.t) :
  settled
    (appended (fun ev =>
       retiresUserPool (map UserPool.Id dp) ev
       \/ retiresIdentityPool (map IdentityPoolRecord.IdentityPoolId dip) ev))
    (forOf dp retire;; forOf dip retireIdentityPool;; mret tt).
Proof.
  apply settled_bind; [apply _| |].
  { apply settled_forOf; [apply _|]. intros pool Hin.
    eapply settled_impl; [|apply (retire_footprint (map UserPool.Id dp))].
    - intros st st'. apply appended_impl. tauto.
    - now apply in_map. }
  intros _. apply settled_bind; [apply _| |].
  { apply settled_forOf; [apply _|]. intros pool Hin.
    eapply settled_impl;
      [|apply (retireIdentityPool_footprint
                 (map IdentityPoolRecord.IdentityPoolId dip))].
    - intros st st'. apply appended_impl. tauto.
    - now apply in_map. }
  intros _. apply settled_ret. apply _.
Qed.

(** A run either ends inside the audit, having deleted nothing, or
    completes the audit and then sends only retirement calls for the
    pools the audit handed over. *)
Lemma run_shape (fuel : nat) (st st' : State) :
  endsIn (runWith retire fuel) st st' ->
  (exists ext, trace st' = trace st ++ ext /\ Forall (fun ev => ~ isDeletion ev) ext)
  \/ exists dp dip st1 reads1 reads2 kp kip after,
      audit fuel st = Returned (dp, dip) st1
      /\ trace st' = trace st ++ auditTrace reads1 reads2 dp kp dip kip ++ after
      /\ Forall readEvent reads1 /\ Forall readEvent reads2
      /\ Forall (fun ev =>
                   retiresUserPool (map UserPool.Id dp) ev
                   \/ retiresIdentityPool
                        (map IdentityPoolRecord.IdentityPoolId dip) ev) after.
Proof.
  intros Hend.
  assert (Hcases :
    (exists e, audit fuel st = Thrown e st')
    \/ exists dp dip st1,
        audit fuel st = Returned (dp, dip) st1
        /\ appended (fun ev =>
             retiresUserPool (map UserPool.Id dp) ev
             \/ retiresIdentityPool (map IdentityPoolRecord.IdentityPoolId dip) ev)
             st1 st').
  { unfold endsIn, runWith in Hend.
    destruct Hend as [Hret|[e Hthrow]].
    - apply bind_returned_inv in Hret as ([dp dip] & st1 & Haudit & Hrest).
      right. exists dp, dip, st1. split; [exact Haudit|].
      pose proof (retirement_footprint dp dip st1) as Hfoot.
      now rewrite Hrest in Hfoot.
    - apply bind_thrown_inv in Hthrow as [Haudit|([dp dip] & st1 & Haudit & Hrest)].
      + left. now exists e.
      + right. exists dp, dip, st1. split; [exact Haudit|].
        pose proof (retirement_footprint dp dip st1) as Hfoot.
        now rewrite Hrest in Hfoot. }
  destruct Hcases as [[e Haudit]|(dp & dip & st1 & Haudit & after & Hafter & Hret)].
  - left. pose proof (audit_no_deletion fuel st) as Hno. now rewrite Haudit in Hno.
  - right.
    destruct (audit_returned fuel st st1 dp dip Haudit)
      as (reads1 & reads2 & kp & kip & Htrace & Hr1 & Hr2).
    exists dp, dip, st1, reads1, reads2, kp, kip, after.
    split; [exact Haudit|].
    split; [now rewrite Hafter, Htrace, <- app_assoc|].
    repeat split; assumption.
Qed.

End Run.

End RunFacts.

Lemma app_split_after {A} (P : A -> Prop) (xs after before : list A) (x : A)
    (rest : list A) :
  xs ++ after = before ++ x :: rest -> Forall P xs -> ~ P x ->
  exists middle, before = xs ++ middle /\ after = middle ++ x :: rest.
Proof.
  revert before. induction xs as [|y xs IH]; intros before Heq Hall Hx.
  - exists before. split; [reflexivity | exact Heq].
  - inversion Hall as [|? ? Hy Hxs]; subst.
    destruct before as [|b before]; simpl in Heq.
    + injection Heq as -> _. contradiction.
    + injection Heq as <- Heq. destruct (IH before Heq Hxs Hx) as (middle & -> & ->).
      now exists middle.
Qed.

(** ** Runs stop at the first call that is rejected outside the enumeration *)

Section FailFastFacts.
Context `{Remote}.
























End FailFastFacts.

Section RunTheorems.
Context `{Remote}.

(** The shape of a run of either entry point. *)
Lemma entry_point_shape (fuel : nat) (st st' : State) :
  endsIn (Index.main fuel) st st' \/ endsIn (Part000.main fuel) st st' ->
  (exists ext, trace st' = trace st ++ ext /\ Forall (fun ev => ~ isDeletion ev) ext)
  \/ exists dp dip st1 reads1 reads2 kp kip after,
      audit fuel st = Returned (dp, dip) st1
      /\ trace st' = trace st ++ auditTrace reads1 reads2 dp kp dip kip ++ after
      /\ Forall readEvent reads1 /\ Forall readEvent reads2
      /\ Forall (fun ev =>
                   retiresUserPool (map UserPool.Id dp) ev
                   \/ retiresIdentityPool
                        (map IdentityPoolRecord.IdentityPoolId dip) ev) after.
Proof.
  intros [Hend|Hend].
  - apply (run_shape Index.retireUserPool Index_retireUserPool_footprint fuel).
    exact Hend.
  - apply (run_shape Part000.retireUserPool Part000_retireUserPool_footprint fuel).
    exact Hend.
Qed.

(** What precedes a deleting call of a run, and for which pools the run
    was allowed to send it. *)
Lemma deletion_after_audit (fuel : nat) (st st' : State)
    (before : list Event) (ev : Event) (after : list Event) :
  endsIn (Index.main fuel) st st' \/ endsIn (Part000.main fuel) st st' ->
  trace st' = trace st ++ before ++ ev :: after ->
  isDeletion ev ->
  exists dp dip st1 reads1 reads2 kp kip retiring,
    audit fuel st = Returned (dp, dip) st1
    /\ before = auditTrace reads1 reads2 dp kp dip kip ++ retiring
    /\ Forall readEvent reads1 /\ Forall readEvent reads2
    /\ Forall (fun ev =>
                 retiresUserPool (map UserPool.Id dp) ev
                 \/ retiresIdentityPool (map IdentityPoolRecord.IdentityPoolId dip) ev)
              (retiring ++ [ev]).
Proof.
  intros Hend Htrace Hdel.
  destruct (entry_point_shape fuel st st' Hend) as [(ext' & Hext' & Hno)|Hshape].
  - rewrite Htrace in Hext'. apply app_inv_head in Hext' as <-.
    rewrite List.Forall_forall in Hno. destruct (Hno ev); [|exact Hdel].
    apply in_or_app. right. now left.
  - destruct Hshape
      as (dp & dip & st1 & reads1 & reads2 & kp & kip & rest
          & Haudit & Htrace' & Hr1 & Hr2 & Hafter).
    rewrite Htrace in Htrace'. apply app_inv_head in Htrace'. symmetry in Htrace'.
    destruct (app_split_after (fun ev => ~ isDeletion ev) _ _ _ _ _ Htrace'
                (auditTrace_no_deletion _ _ _ _ _ _ Hr1 Hr2) ltac:(tauto))
      as (middle & -> & Hrest).
    exists dp, dip, st1, reads1, reads2, kp, kip, middle.
    split; [exact Haudit|]. split; [reflexivity|].
    split; [exact Hr1|]. split; [exact Hr2|].
    rewrite Hrest in Hafter. apply Forall_app in Hafter as [Hmiddle Hev].
    apply Forall_app. split; [exact Hmiddle|].
    inversion Hev as [|? ? Hhead _]; subst.
    constructor; [exact Hhead | constructor].
Qed.



(** X1. However a run of either entry point ends, a domain-delete or
    pool-delete call for a user pool comes after the [delete-pools.json]
    snapshot of the same run, and that snapshot lists the pool, marked
    for deletion together with the users the enumeration of this run
    returned for it, which are none or all in status
    [FORCE_CHANGE_PASSWORD]. (The cache at the start holds no marked
    record, as the empty cache of a fresh process does.) *)
Theorem main_deletes_only_condemned_user_pools (fuel : nat) (st st' : State) :
  Forall unmarked (cachedUserPoolIds st) ->
  endsIn (Index.main fuel) st st' \/ endsIn (Part000.main fuel) st st' ->
  forall before ev after id,
    trace st' = trace st ++ before ++ ev :: after ->
    deletesUserPool id ev ->
    exists earlier deletePools later pool users,
      before = earlier ++ Wrote deletePoolsPath (UserPools deletePools) :: later
      /\ In pool deletePools
      /\ UserPool.Id pool = id
      /\ UserPool.isPrepareToDelete pool = Some true
      /\ UserPool.poolUsers pool = Some users
      /\ Forall (fun poolUser => UserStatus poolUser = Some "FORCE_CHANGE_PASSWORD")
                users
      /\ enumeratedAs fuel st pool users.
Proof.
  intros Hcache Hend before ev after id Htrace Hev.
  assert (Hdel : isDeletion ev) by (destruct ev as [[] ?|]; simpl in *; tauto).
  destruct (deletion_after_audit fuel st st' before ev after Hend Htrace Hdel)
    as (dp & dip & st1 & reads1 & reads2 & kp & kip & retiring
        & Haudit & -> & Hr1 & Hr2 & Hretiring).
  apply Forall_app in Hretiring as [_ Hretires].
  inversion Hretires as [|? ? Hretire _]; subst.
  assert (Hin : In id (map UserPool.Id dp)).
  { destruct Hretire as [Hretire|Hretire];
      destruct ev as [[] ?|]; simpl in *; try contradiction; now subst. }
  apply in_map_iff in Hin as (pool & Hid & Hpool).
  destruct (audit_condemns fuel st st1 dp dip pool Hcache Haudit Hpool)
    as (Hmarked & users & Husers & Hstatus & Henum).
  exists reads1, dp. eexists. exists pool, users.
  split; [unfold auditTrace; rewrite <- !app_assoc; reflexivity|].
  repeat split; assumption.
Qed.

(** X2. However a run of either entry point ends, a delete call for an
    identity pool comes after the [delete-identity-pools.json] snapshot
    of the same run, and that snapshot lists the pool, marked for
    deletion with the reason that fits what its describe call answered
    in this run: no providers, or a sole provider that matches none of
    the user pools retained at that time. (The cache at the start holds
    no marked record.) *)
Theorem main_deletes_only_condemned_identity_pools (fuel : nat) (st st' : State) :
  Forall unmarkedIdentity (cachedIdentityPoolIds st) ->
  endsIn (Index.main fuel) st st' \/ endsIn (Part000.main fuel) st st' ->
  forall before rejected after id,
    trace st' = trace st ++ before ++ Sent (DeleteIdentityPool id) rejected :: after ->
    exists earlier deleteIdentityPools later pool realPools response,
      before
      = earlier
        ++ Wrote deleteIdentityPoolsPath (IdentityPools deleteIdentityPools) :: later
      /\ In pool deleteIdentityPools
      /\ IdentityPoolRecord.IdentityPoolId pool = id
      /\ IdentityPoolRecord.isPrepareToDelete pool = Some true
      /\ describedAs fuel st pool realPools response
      /\ ((IdentityPool.CognitoIdentityProviders response = Some []
           /\ IdentityPoolRecord.reasonDelete pool
              = Some "CognitoIdentityProviders empty")
          \/ exists provider,
              IdentityPool.CognitoIdentityProviders response = Some [provider]
              /\ findUserPoolByProviderName
                   realPools (CognitoIdentityProvider.ProviderName provider) = []
              /\ IdentityPoolRecord.reasonDelete pool
                 = Some ("ProviderName "
                         +:+ JS.template (CognitoIdentityProvider.ProviderName provider)
                         +:+ " not match any user pool")).
Proof.
  intros Hcache Hend before rejected after id Htrace.
  destruct (deletion_after_audit fuel st st' before _ after Hend Htrace I)
    as (dp & dip & st1 & reads1 & reads2 & kp & kip & retiring
        & Haudit & -> & Hr1 & Hr2 & Hretiring).
  apply Forall_app in Hretiring as [_ Hretires].
  inversion Hretires as [|? ? Hretire _]; subst.
  destruct Hretire as [[]|Hin]. simpl in Hin.
  apply in_map_iff in Hin as (pool & Hid & Hpool).
  destruct (audit_condemns_identity fuel st st1 dp dip pool Hcache Haudit Hpool)
    as (Hmarked & realPools & response & Hdescribed & Hreason).
  exists (reads1 ++ [Wrote deletePoolsPath (UserPools dp);
                     Wrote keepPoolsPath (UserPools kp)] ++ reads2), dip.
  eexists. exists pool, realPools, response.
  split; [unfold auditTrace; rewrite <- !app_assoc; reflexivity|].
  repeat split; assumption.
Qed.

(** X3. In a run of either entry point, whatever precedes a deleting
    call (domain, user pool or identity pool) starts with the complete
    trace of the audit: the reads, the two user-pool snapshots, the reads,
    and the two identity-pool snapshots. No deletion is sent before all
    four snapshots are written. *)
Theorem snapshots_precede_deletions (fuel : nat) (st st' : State) :
  endsIn (Index.main fuel) st st' \/ endsIn (Part000.main fuel) st st' ->
  forall before ev after,
    trace st' = trace st ++ before ++ ev :: after ->
    isDeletion ev ->
    exists reads1 reads2 deletePools keepPools deleteIdentityPools keepIdentityPools
           retiring,
      before = auditTrace reads1 reads2 deletePools keepPools
                          deleteIdentityPools keepIdentityPools ++ retiring
      /\ Forall readEvent reads1 /\ Forall readEvent reads2
      /\ Forall (fun ev => ~ readEvent ev /\ forall path content, ev <> Wrote path content)
                retiring.
Proof.
  intros Hend before ev after Htrace Hdel.
  destruct (deletion_after_audit fuel st st' before ev after Hend Htrace Hdel)
    as (dp & dip & st1 & reads1 & reads2 & kp & kip & retiring
        & _ & -> & Hr1 & Hr2 & Hretiring).
  exists reads1, reads2, dp, kp, dip, kip, retiring. split; [reflexivity|].
  split; [exact Hr1|]. split; [exact Hr2|].
  apply Forall_app in Hretiring as [Hmiddle _].
  eapply Forall_impl; [exact Hmiddle|].
  intros [[] ?|] [Hx|Hx]; simpl in *; try contradiction;
    (split; [tauto | intros path content; discriminate]).
Qed.

End RunTheorems.



Lemma sampleEnd_ends : endsIn (@Index.main account 5) sampleStart sampleEnd.
Proof. left. vm_compute. reflexivity. Qed.

(** Pool B of [sampleAccount], whose users all still have to change their
    password, is deleted after the snapshot that lists it with these
    users. *)
Lemma main_deletes_only_condemned_user_pools_witness :
  exists earlier deletePools later pool users,
    firstn 14 (trace sampleEnd)
    = earlier ++ Wrote deletePoolsPath (UserPools deletePools) :: later
    /\ In pool deletePools
    /\ UserPool.Id pool = "eu-central-1_B"
    /\ UserPool.isPrepareToDelete pool = Some true
    /\ UserPool.poolUsers pool = Some users
    /\ Forall (fun poolUser => UserStatus poolUser = Some "FORCE_CHANGE_PASSWORD") users
    /\ enumeratedAs 5 sampleStart pool users.
Proof.
  apply (@main_deletes_only_condemned_user_pools account 5 sampleStart sampleEnd
           ltac:(constructor) (or_introl sampleEnd_ends)
           (firstn 14 (trace sampleEnd))
           (Sent (DeleteUserPool "eu-central-1_B") false)
           (skipn 15 (trace sampleEnd)) "eu-central-1_B").
  - reflexivity.
  - reflexivity.
Defined.

(** Identity pool X of [sampleAccount], which has no providers, is deleted
    after the snapshot that lists it. *)
Lemma main_deletes_only_condemned_identity_pools_witness :
  exists earlier deleteIdentityPools later pool realPools response,
    firstn 15 (trace sampleEnd)
    = earlier
      ++ Wrote deleteIdentityPoolsPath (IdentityPools deleteIdentityPools) :: later
    /\ In pool deleteIdentityPools
    /\ IdentityPoolRecord.IdentityPoolId pool = "eu-central-1:x"
    /\ IdentityPoolRecord.isPrepareToDelete pool = Some true
    /\ describedAs 5 sampleStart pool realPools response
    /\ ((IdentityPool.CognitoIdentityProviders response = Some []
         /\ IdentityPoolRecord.reasonDelete pool = Some "CognitoIdentityProviders empty")
        \/ exists provider,
            IdentityPool.CognitoIdentityProviders response = Some [provider]
            /\ findUserPoolByProviderName
                 realPools (CognitoIdentityProvider.ProviderName provider) = []
            /\ IdentityPoolRecord.reasonDelete pool
               = Some ("ProviderName "
                       +:+ JS.template (CognitoIdentityProvider.ProviderName provider)
                       +:+ " not match any user pool")).
Proof.
  apply (@main_deletes_only_condemned_identity_pools account 5 sampleStart sampleEnd
           ltac:(constructor) (or_introl sampleEnd_ends)
           (firstn 15 (trace sampleEnd)) false
           (skipn 16 (trace sampleEnd)) "eu-central-1:x").
  reflexivity.
Defined.

(** The first deleting call of the run on [sampleAccount] comes after the
    audit's trace. *)
Lemma snapshots_precede_deletions_witness :
  exists reads1 reads2 deletePools keepPools deleteIdentityPools keepIdentityPools
         retiring,
    firstn 12 (trace sampleEnd)
    = auditTrace reads1 reads2 deletePools keepPools
                 deleteIdentityPools keepIdentityPools ++ retiring
    /\ Forall readEvent reads1 /\ Forall readEvent reads2
    /\ Forall (fun ev => ~ readEvent ev /\ forall path content, ev <> Wrote path content)
              retiring.
Proof.
  apply (@snapshots_precede_deletions account 5 sampleStart sampleEnd
           (or_introl sampleEnd_ends)
           (firstn 12 (trace sampleEnd))
           (Sent (DeleteUserPool "eu-central-1_A") false)
           (skipn 13 (trace sampleEnd))).
  - reflexivity.
  - exact I.
Defined.

(** ** The two hand-written pagination loops and the paged fetch engine *)

Section PaginationFacts.
Context `{Remote}.

(** X4. An enumeration of users that returns without any rejected call
    returns exactly what the paged fetch engine returns when it is given
    [listUsers] as action, [Users] as accessor and [PaginationToken] as
    cursor, from the same accumulated users and page token, and leaves the
    same state. *)
Theorem getAllUsers_as_pagedAWSCall (fuel : nat) :
  forall (poolId : string) (accumedUsers : list UserType) (flag : bool)
         (pageToken : option string) (st st' : State) (users : list UserType),
    getAllUsers fuel poolId accumedUsers flag pageToken st = Returned users st' ->
    rejections (trace st') = rejections (trace st) ->
    pagedAWSCall_loop
      (fun poolId token => call (ListUsers poolId token))
      poolId
      (fun response => ListUsersResponse.Users response)
      (fun response _ => mret (ListUsersResponse.PaginationToken response))
      fuel accumedUsers pageToken st
    = Returned users st'.
Proof.
  induction fuel as [|fuel IH];
    intros poolId accumedUsers flag pageToken st st' users Hrun Hrej; [discriminate|].
  destruct (send (ListUsers poolId pageToken) (world st)) as [[error|response] w] eqn:Hsend.
  - exfalso. rewrite (getAllUsers_rejected _ _ _ _ _ _ _ _ Hsend) in Hrun.
    destruct (flag && isMissingAttributes error); [|discriminate].
    pose proof (getAllUsers_flag_off fuel poolId accumedUsers pageToken
                  (afterCall st (ListUsers poolId pageToken) true w)) as Hoff.
    rewrite Hrun in Hoff. destruct Hoff as [Hoff _].
    cbn [trace afterCall] in Hoff. rewrite rejections_app in Hoff. lia.
  - rewrite (getAllUsers_resolved _ _ _ _ _ _ _ _ Hsend) in Hrun.
    rewrite (loop_step _ _ _ _ fuel accumedUsers pageToken st
               (afterCall st (ListUsers poolId pageToken) false w)
               (afterCall st (ListUsers poolId pageToken) false w)
               response (ListUsersResponse.PaginationToken response));
      [|exact (call_resolved (ListUsers poolId pageToken) st response w Hsend)
       |reflexivity].
    unfold pageItems.
    change (truthy response) with true. cbn iota.
    destruct (ListUsersResponse.Users response) as [cognitoUsers|]; [|discriminate].
    cbn [default from_option id].
    destruct (truthy (ListUsersResponse.PaginationToken response)).
    + apply (IH _ _ flag _ _ _ _ Hrun).
      rewrite Hrej. cbn [trace afterCall]. rewrite rejections_app. lia.
    + exact Hrun.
Qed.

Section ScanFacts.
Variable scan : string -> option AttributeMap -> M ScanOutput.

(** X5. A table scan that returns returns exactly what the paged fetch
    engine returns when it is given [scan] as action, [Items] as accessor
    and [LastEvaluatedKey] as cursor; conversely, when the engine returns
    from a run of pages that all carry [Items], so does the table scan,
    with the same items and state. *)
Theorem getAllItems_as_pagedAWSCall :
  (forall (fuel : nat) (tableName : string) (accumedMembers : list AttributeMap)
          (startKey : option AttributeMap) (st st' : State)
          (items : list AttributeMap),
      getAllItems scan fuel tableName accumedMembers startKey st = Returned items st' ->
      pagedAWSCall_loop scan tableName Items
        (fun response _ => mret (LastEvaluatedKey response))
        fuel accumedMembers startKey st
      = Returned items st')
  /\ (forall (tableName : string) (accumedMembers : list AttributeMap)
            (startKey : option AttributeMap) (st st' : State)
            (pages : list ScanOutput),
        Fetched scan tableName Items
                (fun response _ => mret (LastEvaluatedKey response))
                st startKey accumedMembers pages st' ->
        Forall (fun page => Items page <> None) pages ->
        forall fuel, (length pages <= fuel)%nat ->
          getAllItems scan fuel tableName accumedMembers startKey st
          = Returned (accumedMembers ++ concat (map (pageItems Items) pages)) st').
Proof.
  split.
  - induction fuel as [|fuel IH];
      intros tableName accumedMembers startKey st st' items Hrun; [discriminate|].
    simpl in Hrun.
    apply bind_returned_inv in Hrun as (response & st1 & Hscan & Hrun).
    rewrite (loop_step scan tableName Items
               (fun response _ => mret (LastEvaluatedKey response))
               fuel accumedMembers startKey st st1 st1
               response (LastEvaluatedKey response));
      [|exact Hscan|reflexivity].
    unfold pageItems. change (truthy response) with true. cbn iota.
    destruct (Items response) as [items0|]; [|discriminate].
    cbn [default from_option id].
    destruct (truthy (LastEvaluatedKey response)); [now apply IH | exact Hrun].
  - intros tableName accumedMembers startKey st st' pages Hf.
    induction Hf as [st cursor result response st1 next st2 Hact Hcur Hnext
                    |st cursor result response st1 next st2 pages st3 Hact Hcur Hnext Hf IH];
      intros Hitems [|fuel] Hlen; simpl in Hlen; try lia.
    + inversion Hitems as [|? ? Hpage _]; subst.
      unfold pageCursor in Hcur. change (truthy response) with true in Hcur.
      injection Hcur as <- <-.
      simpl. rewrite (bind_returned _ _ _ _ _ Hact).
      unfold pageItems. change (truthy response) with true. cbn iota.
      destruct (Items response) as [items0|]; [|congruence].
      rewrite Hnext. cbn [default from_option id]. now rewrite app_nil_r.
    + inversion Hitems as [|? ? Hpage Hpages]; subst.
      unfold pageCursor in Hcur. change (truthy response) with true in Hcur.
      injection Hcur as <- <-.
      simpl. rewrite (bind_returned _ _ _ _ _ Hact).
      unfold pageItems in *. change (truthy response) with true in *. cbn iota in *.
      destruct (Items response) as [items0|]; [|congruence].
      rewrite Hnext. cbn [default from_option id] in *.
      rewrite (IH Hpages fuel ltac:(lia)). now rewrite app_assoc.
Qed.

End ScanFacts.

End PaginationFacts.

(** ** Addresses, domains and the two scrub functions *)

Lemma domainOf_cons (c : ascii) (s : string) :
  domainOf (String c s)
  = if Ascii.eqb c "@" then String c s
    else if hasChar "@" s then domainOf s else String c s.
Proof.
  unfold domainOf, JS.indexOf, JS.substring.
  cbn [String.index]. destruct (Ascii.eqb_spec c "@") as [->|Hne].
  - cbn [String.prefix]. destruct (ascii_dec "@" "@") as [_|Hx]; [|congruence].
    assert (String.prefix "" s = true) as -> by (destruct s; reflexivity).
    cbn [Z.of_nat Z.max Z.to_nat]. rewrite Nat.sub_0_r. apply substring_all.
  - cbn [String.prefix]. destruct (ascii_dec "@" c) as [Hx|_]; [congruence|].
    destruct (hasChar "@" s) eqn:Hhas.
    + destruct (String.index 0 "@" s) as [i|] eqn:Hi.
      * rewrite Z.max_r by lia. rewrite !Z.max_r by lia. rewrite !Nat2Z.id.
        reflexivity.
      * apply index_char_None in Hi. congruence.
    + apply index_char_None in Hhas. rewrite Hhas.
      cbn [Z.max Z.to_nat]. rewrite Nat.sub_0_r. apply substring_all.
Qed.

Lemma string_eqb_length (a b : string) :
  String.eqb a b = true -> String.length a = String.length b.
Proof. intros Heq. apply String.eqb_eq in Heq. now subst. Qed.

Lemma endsWith_cons (c : ascii) (s suffix : string) :
  JS.endsWith (String c s) suffix
  = if (String.length suffix <=? String.length s)%nat
    then JS.endsWith s suffix
    else String.eqb (String c s) suffix.
Proof.
  unfold JS.endsWith. cbn [String.length].
  destruct (Nat.leb_spec (String.length suffix) (String.length s)) as [Hle|Hgt].
  - assert ((String.length suffix <=? S (String.length s))%nat = true) as ->
      by (apply Nat.leb_le; lia).
    replace (S (String.length s) - String.length suffix)%nat
      with (S (String.length s - String.length suffix)) by lia.
    reflexivity.
  - destruct (Nat.leb_spec (String.length suffix) (S (String.length s))) as [Hle|Hgt'].
    + assert (String.length suffix = S (String.length s)) as Hlen by lia.
      rewrite Hlen, Nat.sub_diag.
      change (S (String.length s)) with (String.length (String c s)).
      now rewrite substring_all.
    + symmetry. apply not_true_is_false. intros Heq.
      apply string_eqb_length in Heq. cbn [String.length] in Heq. lia.
Qed.

(** The domain of an address ends with a suffix free of [@] exactly when
    the address does. *)
Lemma endsWith_domainOf (suffix : string) :
  hasChar "@" suffix = false ->
  forall address, JS.endsWith (domainOf address) suffix = JS.endsWith address suffix.
Proof.
  intros Hsuffix address. induction address as [|c s IH]; [reflexivity|].
  rewrite domainOf_cons. destruct (Ascii.eqb c "@"); [reflexivity|].
  destruct (hasChar "@" s) eqn:Hhas; [|reflexivity].
  rewrite IH, endsWith_cons.
  destruct (Nat.leb_spec (String.length suffix) (String.length s)) as [Hle|Hgt];
    [reflexivity|].
  assert (JS.endsWith s suffix = false) as ->.
  { unfold JS.endsWith.
    destruct (Nat.leb_spec (String.length suffix) (String.length s)); [lia|reflexivity]. }
  symmetry. apply not_true_is_false. intros Heq. apply String.eqb_eq in Heq.
  rewrite <- Heq in Hsuffix. cbn [hasChar] in Hsuffix.
  rewrite Hhas, orb_true_r in Hsuffix. discriminate.
Qed.

Section ScrubAgreement.
Context `{Moniker}.

Lemma allow_lists_agree (address : string) :
  memberAllowListed address = userAllowListed address.
Proof.
  unfold memberAllowListed, userAllowListed.
  now rewrite !endsWith_domainOf by reflexivity.
Qed.

Lemma scrubMember_by_address (member : Member) (st : ScrubState) :
  scrubMember member st
  = if userAllowListed (member_email_S member) then (member, st)
    else (mkMember (email (fst (scrubbedEmailMemo (member_email_S member) st)))
                   (member_columns member),
          snd (scrubbedEmailMemo (member_email_S member) st)).
Proof.
  unfold scrubMember. fold (domainOf (member_email_S member)).
  fold (memberAllowListed (member_email_S member)). rewrite allow_lists_agree.
  destruct (userAllowListed (member_email_S member)); [reflexivity|].
  destruct (scrubbedEmailMemo (member_email_S member) st) as [id st']. reflexivity.
Qed.

(** X6. [scrubMember] and [scrubPoolUser] skip the same addresses: the
    test of [scrubMember] on the part of the address from its first [@]
    and the test of [scrubPoolUser] on the whole address have the same
    outcome for every address. *)
Theorem scrub_allow_lists_agree (address : string) :
  memberAllowListed address = userAllowListed address
  /\ (forall (member : Member) (st : ScrubState),
        member_email_S member = address ->
        scrubMember member st
        = if userAllowListed address then (member, st)
          else (mkMember (email (fst (scrubbedEmailMemo address st)))
                         (member_columns member),
                snd (scrubbedEmailMemo address st))).
Proof.
  split; [apply allow_lists_agree|].
  intros member st <-. apply scrubMember_by_address.
Qed.

(** X7. Within one run, a user record and a member record that carry the
    same address come out consistent, whichever other addresses are
    scrubbed in between: either both are returned unchanged, or the
    member's new address is the value of the user's new [email]
    attribute. *)
Theorem scrub_same_address_consistent (user : UserType) (member : Member)
    (address : string) (between : list string) (st : ScrubState) :
  oldEmail user = Some address ->
  member_email_S member = address ->
  let afterUser := scrubAll between (snd (scrubPoolUser user st)) in
  (fst (scrubPoolUser user st) = inr user
   /\ fst (scrubMember member afterUser) = member)
  \/ exists user' : UserType,
      fst (scrubPoolUser user st) = inr user'
      /\ In (mkAttr "email" (Some (member_email_S (fst (scrubMember member afterUser)))))
            (Attributes user').
Proof.
  intros Hmail Hmember afterUser. subst afterUser.
  rewrite scrubMember_by_address, Hmember.
  destruct (userAllowListed address) eqn:Hallow.
  - left. unfold scrubPoolUser. rewrite Hmail.
    unfold userAllowListed in Hallow. rewrite Hallow. split; reflexivity.
  - right. unfold userAllowListed in Hallow.
    rewrite (scrubPoolUser_anonymizes user st address Hmail Hallow).
    eexists. split; [reflexivity|]. cbn [fst snd Attributes member_email_S].
    pose proof (scrubAll_keeps between _ _ _ (memo_stores address st)) as Hkept.
    rewrite (memo_hit _ _ _ Hkept). cbn [fst].
    apply in_or_app. right. left. reflexivity.
Qed.

End ScrubAgreement.

(** [bobby] and [sampleMember] carry the same address. *)
Lemma scrub_same_address_consistent_witness :
  exists user' : UserType,
    fst (scrubPoolUser bobby freshScrub) = inr user'
    /\ In (mkAttr "email" (Some "quiet.river@example.org")) (Attributes user')
    /\ member_email_S
         (fst (scrubMember sampleMember
                 (scrubAll ["carol@example.org"] (snd (scrubPoolUser bobby freshScrub)))))
       = "quiet.river@example.org".
Proof.
  destruct (scrub_same_address_consistent bobby sampleMember "bob@example.org"
              ["carol@example.org"] freshScrub eq_refl eq_refl)
    as [[Hskip _]|(user' & Hrun & Hin)]; [discriminate Hskip|].
  exists user'. split; [exact Hrun|]. split; [exact Hin | reflexivity].
Defined.

Lemma scrub_allow_lists_agree_witness :
  scrubMember sampleMember freshScrub
  = (mkMember "quiet.river@example.org" [("authPoolId", "eu-central-1_C")],
     snd (scrubbedEmailMemo "bob@example.org" freshScrub)).
Proof.
  exact (proj2 (scrub_allow_lists_agree "bob@example.org") sampleMember freshScrub
               eq_refl).
Defined.

(** ** The fabricated identity *)

Lemma split_no_separator (sep : ascii) (s : string) :
  hasChar sep s = false -> JS.split s sep = [s].
Proof.
  induction s as [|c s IH]; intros Hs; [reflexivity|].
  cbn [hasChar] in Hs. apply orb_false_iff in Hs as [Hc Hs].
  cbn [JS.split]. rewrite Hc, (IH Hs). reflexivity.
Qed.

Lemma split_at_first (sep : ascii) (a b : string) :
  hasChar sep a = false ->
  JS.split (a +:+ String sep b) sep = a :: JS.split b sep.
Proof.
  induction a as [|c a IH]; intros Ha.
  - rewrite append_empty. cbn [JS.split]. now rewrite Ascii.eqb_refl.
  - cbn [hasChar] in Ha. apply orb_false_iff in Ha as [Hc Ha].
    rewrite append_cons. cbn [JS.split]. rewrite Hc, (IH Ha). reflexivity.
Qed.

Lemma replace_no_pattern (pat : ascii) (by_ s : string) :
  hasChar pat s = false -> JS.replace s pat by_ = s.
Proof.
  induction s as [|c s IH]; intros Hs; [reflexivity|].
  cbn [hasChar] in Hs. apply orb_false_iff in Hs as [Hc Hs].
  cbn [JS.replace]. rewrite Hc, (IH Hs). reflexivity.
Qed.

Lemma replace_at_first (pat : ascii) (by_ a b : string) :
  hasChar pat a = false ->
  JS.replace (a +:+ String pat b) pat by_ = a +:+ by_ +:+ b.
Proof.
  induction a as [|c a IH]; intros Ha.
  - rewrite !append_empty. cbn [JS.replace]. now rewrite Ascii.eqb_refl.
  - cbn [hasChar] in Ha. apply orb_false_iff in Ha as [Hc Ha].
    rewrite !append_cons. cbn [JS.replace]. rewrite Hc, (IH Ha). reflexivity.
Qed.

Lemma domainOf_at_first (localPart domain : string) :
  hasChar "@" localPart = false ->
  domainOf (localPart +:+ String "@" domain) = String "@" domain.
Proof.
  induction localPart as [|c l IH]; intros Hl.
  - rewrite append_empty, domainOf_cons. reflexivity.
  - cbn [hasChar] in Hl. apply orb_false_iff in Hl as [Hc Hl].
    rewrite append_cons, domainOf_cons, Hc, hasChar_app.
    cbn [hasChar]. rewrite Ascii.eqb_refl, orb_true_r. now apply IH.
Qed.

Section IdentityShape.
Context `{Moniker}.

(** X8. What the transform makes of an address [local@domain] that is
    not yet in the memo table, for whatever name is drawn; the table then
    holds the identity under the address. A drawn name without [-] is
    used as it is and [last] is undefined. A drawn name [head-rest],
    [head] being the part before its first [-], gives [first = head] and
    [email = head.rest@domain]: only the first [-] is replaced. [last] is
    the second part of the name: [rest] when it has no [-], and the part
    of [rest] before its first [-] otherwise, so that a three-part name
    loses its third part in [last] and keeps a [-] in [email]. *)
Theorem scrubbedEmailMemo_fresh_identity (st : ScrubState)
    (localPart domain name : string) (g' : Rng) :
  let address := localPart +:+ "@" +:+ domain in
  let id := fst (scrubbedEmailMemo address st) in
  cache st !! address = None ->
  hasChar "@" localPart = false ->
  choose (rng st) = (name, g') ->
  snd (scrubbedEmailMemo address st) = mkScrub (<[address := id]> (cache st)) g'
  /\ (hasChar "-" name = false ->
      id = mkIdentity (Some name) None (name +:+ "@" +:+ domain))
  /\ (forall head rest,
        name = head +:+ "-" +:+ rest ->
        hasChar "-" head = false ->
        first id = Some head
        /\ email id = head +:+ "." +:+ rest +:+ "@" +:+ domain
        /\ (hasChar "-" rest = false -> last id = Some rest)
        /\ (forall middle tail,
              rest = middle +:+ "-" +:+ tail ->
              hasChar "-" middle = false ->
              last id = Some middle)).
Proof.
  intros address id Hmiss Hlocal Hchoose. subst id.
  assert (Hdomain : domainOf address = "@" +:+ domain)
    by (apply (domainOf_at_first localPart domain Hlocal)).
  unfold scrubbedEmailMemo, memoize. rewrite Hmiss.
  unfold scrubbedEmail. fold (domainOf address). rewrite Hdomain, Hchoose.
  cbn [fst snd]. split; [reflexivity|]. split.
  - intros Hname.
    rewrite (split_no_separator "-" name Hname), (replace_no_pattern "-" "." name Hname).
    reflexivity.
  - intros head rest -> Hhead.
    change (head +:+ "-" +:+ rest) with (head +:+ String "-" rest).
    rewrite (split_at_first "-" head rest Hhead),
      (replace_at_first "-" "." head rest Hhead).
    cbn [first last email lookup list_lookup].
    split; [reflexivity|]. split; [now rewrite !string_app_assoc|]. split.
    + intros Hrest. now rewrite (split_no_separator "-" rest Hrest).
    + intros middle tail -> Hmiddle.
      change (middle +:+ "-" +:+ tail) with (middle +:+ String "-" tail).
      now rewrite (split_at_first "-" middle tail Hmiddle).
Qed.

End IdentityShape.

(** The draw [old-fashioned-sponge] has three parts. *)
Lemma scrubbedEmailMemo_fresh_identity_witness :
  fst (@scrubbedEmailMemo hyphenatedMoniker "alice@example.com"
         (@mkScrub hyphenatedMoniker ∅ tt))
  = mkIdentity (Some "old") (Some "fashioned") "old.fashioned-sponge@example.com".
Proof.
  destruct (@scrubbedEmailMemo_fresh_identity hyphenatedMoniker
              (@mkScrub hyphenatedMoniker ∅ tt)
              "alice" "example.com" "old-fashioned-sponge" tt
              ltac:(apply lookup_empty) eq_refl eq_refl)
    as (_ & _ & Hparts).
  destruct (Hparts "old" "fashioned-sponge" eq_refl eq_refl)
    as (Hfirst & Hemail & _ & Hlast).
  specialize (Hlast "fashioned" "sponge" eq_refl eq_refl). clear Hparts.
  pose (id := fst (@scrubbedEmailMemo hyphenatedMoniker "alice@example.com"
                     (@mkScrub hyphenatedMoniker ∅ tt))).
  change (first id = Some "old") in Hfirst.
  change (email id = "old.fashioned-sponge@example.com") in Hemail.
  change (last id = Some "fashioned") in Hlast.
  change (id = mkIdentity (Some "old") (Some "fashioned")
                          "old.fashioned-sponge@example.com").
  clearbody id. destruct id as [f l e].
  cbn [first last email] in Hfirst, Hemail, Hlast. now subst.
Defined.

(** Two pages of users: the enumeration and the paged fetch engine agree. *)
Lemma getAllUsers_as_pagedAWSCall_witness :
  @pagedAWSCall_loop scripted _ _ _ _ _ _
    (fun poolId token => call (ListUsers poolId token))
    "eu-central-1_C"
    (fun response => ListUsersResponse.Users response)
    (fun response _ => mret (ListUsersResponse.PaginationToken response))
    2 [] None (startScript twoUserPages)
  = Returned [alice; bob]
      (mkState (H := scripted) []
         [ Sent (ListUsers "eu-central-1_C" None) false;
           Sent (ListUsers "eu-central-1_C" (Some "t1")) false ] [] []).
Proof.
  apply (@getAllUsers_as_pagedAWSCall scripted 2 "eu-central-1_C" [] true None
           (startScript twoUserPages)); reflexivity.
Defined.

(** The sample table has two pages. *)
Lemma getAllItems_as_pagedAWSCall_witness :
  @pagedAWSCall_loop scripted _ _ _ _ _ _ sampleScan "members" Items
    (fun response _ => mret (LastEvaluatedKey response))
    2 [] None (startScript [])
  = Returned [itemNamed "a"; itemNamed "b"; itemNamed "c"] (startScript []).
Proof.
  apply (proj1 (@getAllItems_as_pagedAWSCall scripted sampleScan) 2 "members" [] None
               (startScript [])).
  reflexivity.
Defined.

(** ** Listings that fail *)

Section ListingFacts.
Context `{Remote}.

Lemma fetchUserPools_outcomes (fuel : nat) :
  forall result cursor st,
    match pagedAWSCall_loop
            (fun (params : nat) nextToken => call (ListUserPools params nextToken))
            60%nat
            (fun response => ListUserPoolsResponse.UserPools response)
            (fun response _ => mret (ListUserPoolsResponse.NextToken response))
            fuel result cursor st with
    | Returned _ st' =>
        rejections (trace st') = rejections (trace st)
        /\ sameUserCache st st' /\ sameIdentityCache st st'
    | Thrown _ st' =>
        rejections (trace st') = S (rejections (trace st))
        /\ sameUserCache st st' /\ sameIdentityCache st st'
        /\ exists before token,
            trace st' = trace st ++ before ++ [Sent (ListUserPools 60 token) true]
    | Pending => True
    end.
Proof.
  induction fuel as [|fuel IH]; intros result cursor st; [exact I|].
  destruct (send (ListUserPools 60 cursor) (world st)) as [[error|response] w] eqn:Hsend.
  - simpl. rewrite (bind_thrown _ _ _ _ _ (call_rejected _ _ _ _ Hsend)).
    cbn [trace afterCall]. rewrite rejections_app.
    split; [lia|]. split; [reflexivity|]. split; [reflexivity|].
    exists [], cursor. reflexivity.
  - rewrite (loop_step _ _ _ _ fuel result cursor st
               (afterCall st (ListUserPools 60 cursor) false w)
               (afterCall st (ListUserPools 60 cursor) false w)
               response (ListUserPoolsResponse.NextToken response));
      [|exact (call_resolved (ListUserPools 60 cursor) st response w Hsend)
       |reflexivity].
    destruct (truthy (ListUserPoolsResponse.NextToken response)).
    + specialize (IH (result ++ pageItems (fun r => ListUserPoolsResponse.UserPools r)
                                          response)
                     (ListUserPoolsResponse.NextToken response)
                     (afterCall st (ListUserPools 60 cursor) false w)).
      destruct (pagedAWSCall_loop _ _ _ _ fuel _ _ _) as [all st'|e st'|]; [| |exact I].
      * destruct IH as (Hrej & Hu & Hi). cbn [trace afterCall] in Hrej.
        rewrite rejections_app in Hrej. split; [lia|]. split; assumption.
      * destruct IH as (Hrej & Hu & Hi & before & token & Htrace).
        cbn [trace afterCall] in Hrej, Htrace. rewrite rejections_app in Hrej.
        split; [lia|]. split; [exact Hu|]. split; [exact Hi|].
        exists (Sent (ListUserPools 60 cursor) false :: before), token.
        rewrite Htrace, <- app_assoc. reflexivity.
    + cbn [trace afterCall]. rewrite rejections_app.
      split; [lia|]. split; reflexivity.
Qed.

Lemma fetchIdentityPools_outcomes (fuel : nat) :
  forall result cursor st,
    match pagedAWSCall_loop
            (fun (params : nat) nextToken => call (ListIdentityPools params nextToken))
            60%nat
            (fun response => ListIdentityPoolsResponse.IdentityPools response)
            (fun response _ => mret (ListIdentityPoolsResponse.NextToken response))
            fuel result cursor st with
    | Returned _ st' =>
        rejections (trace st') = rejections (trace st)
        /\ sameUserCache st st' /\ sameIdentityCache st st'
    | Thrown _ st' =>
        rejections (trace st') = S (rejections (trace st))
        /\ sameUserCache st st' /\ sameIdentityCache st st'
        /\ exists before token,
            trace st' = trace st ++ before ++ [Sent (ListIdentityPools 60 token) true]
    | Pending => True
    end.
Proof.
  induction fuel as [|fuel IH]; intros result cursor st; [exact I|].
  destruct (send (ListIdentityPools 60 cursor) (world st))
    as [[error|response] w] eqn:Hsend.
  - simpl. rewrite (bind_thrown _ _ _ _ _ (call_rejected _ _ _ _ Hsend)).
    cbn [trace afterCall]. rewrite rejections_app.
    split; [lia|]. split; [reflexivity|]. split; [reflexivity|].
    exists [], cursor. reflexivity.
  - rewrite (loop_step _ _ _ _ fuel result cursor st
               (afterCall st (ListIdentityPools 60 cursor) false w)
               (afterCall st (ListIdentityPools 60 cursor) false w)
               response (ListIdentityPoolsResponse.NextToken response));
      [|exact (call_resolved (ListIdentityPools 60 cursor) st response w Hsend)
       |reflexivity].
    destruct (truthy (ListIdentityPoolsResponse.NextToken response)).
    + specialize (IH (result ++ pageItems
                                  (fun r => ListIdentityPoolsResponse.IdentityPools r)
                                  response)
                     (ListIdentityPoolsResponse.NextToken response)
                     (afterCall st (ListIdentityPools 60 cursor) false w)).
      destruct (pagedAWSCall_loop _ _ _ _ fuel _ _ _) as [all st'|e st'|]; [| |exact I].
      * destruct IH as (Hrej & Hu & Hi). cbn [trace afterCall] in Hrej.
        rewrite rejections_app in Hrej. split; [lia|]. split; assumption.
      * destruct IH as (Hrej & Hu & Hi & before & token & Htrace).
        cbn [trace afterCall] in Hrej, Htrace. rewrite rejections_app in Hrej.
        split; [lia|]. split; [exact Hu|]. split; [exact Hi|].
        exists (Sent (ListIdentityPools 60 cursor) false :: before), token.
        rewrite Htrace, <- app_assoc. reflexivity.
    + cbn [trace afterCall]. rewrite rejections_app.
      split; [lia|]. split; reflexivity.
Qed.

(** X9. A list call that rejects was started on an empty cache, leaves
    both caches as they were (nothing of the pages fetched so far is
    stored), and its trace ends with the single rejected listing call: the
    listing is not retried. A list call that returns saw no rejection. *)
Theorem rejected_listing_caches_nothing (fuel : nat) (st : State) :
  match listUserPools fuel st with
  | Returned _ st' => rejections (trace st') = rejections (trace st)
  | Thrown _ st' =>
      cachedUserPoolIds st = [] /\ cachedUserPoolIds st' = []
      /\ cachedIdentityPoolIds st' = cachedIdentityPoolIds st
      /\ rejections (trace st') = S (rejections (trace st))
      /\ exists before token,
          trace st' = trace st ++ before ++ [Sent (ListUserPools 60 token) true]
  | Pending => True
  end
  /\ match listIdentityPools fuel st with
     | Returned _ st' => rejections (trace st') = rejections (trace st)
     | Thrown _ st' =>
         cachedIdentityPoolIds st = [] /\ cachedIdentityPoolIds st' = []
         /\ cachedUserPoolIds st' = cachedUserPoolIds st
         /\ rejections (trace st') = S (rejections (trace st))
         /\ exists before token,
             trace st' = trace st ++ before ++ [Sent (ListIdentityPools 60 token) true]
     | Pending => True
     end.
Proof.
  split.
  - destruct (cachedUserPoolIds st) as [|p ps] eqn:Hc.
    + unfold listUserPools, mbind at 1, M_bind at 1, getState. rewrite Hc.
      cbn [length Nat.eqb]. unfold mbind at 1, M_bind at 1. unfold mbind at 1, M_bind at 1.
      unfold pagedAWSCall.
      pose proof (fetchUserPools_outcomes fuel [] None st) as Hout.
      destruct (pagedAWSCall_loop _ _ _ _ fuel [] None st) as [all st1|e st1|];
        [| |exact I].
      * destruct Hout as (Hrej & _). exact Hrej.
      * destruct Hout as (Hrej & Hu & Hi & Hlast). unfold sameUserCache in Hu.
        split; [reflexivity|]. split; [congruence|]. split; [exact Hi|].
        split; [exact Hrej | exact Hlast].
    + rewrite listUserPools_cached by (rewrite Hc; discriminate). reflexivity.
  - destruct (cachedIdentityPoolIds st) as [|p ps] eqn:Hc.
    + unfold listIdentityPools, mbind at 1, M_bind at 1, getState. rewrite Hc.
      cbn [length Nat.eqb]. unfold mbind at 1, M_bind at 1. unfold mbind at 1, M_bind at 1.
      unfold pagedAWSCall.
      pose proof (fetchIdentityPools_outcomes fuel [] None st) as Hout.
      destruct (pagedAWSCall_loop _ _ _ _ fuel [] None st) as [all st1|e st1|];
        [| |exact I].
      * destruct Hout as (Hrej & _). exact Hrej.
      * destruct Hout as (Hrej & Hu & Hi & Hlast). unfold sameIdentityCache in Hi.
        split; [reflexivity|]. split; [congruence|]. split; [exact Hu|].
        split; [exact Hrej | exact Hlast].
    + rewrite listIdentityPools_cached by (rewrite Hc; discriminate). reflexivity.
Qed.

End ListingFacts.

(** ** Frame and edge behaviour of the classification loops *)

Section ClassificationFrame.
Context `{Remote}.

Lemma forOf_keeps {A B C} (f : A -> C) (g : B -> C) (body : A -> M B) :
  (forall x st y st', body x st = Returned y st' -> g y = f x) ->
  forall items st ys st',
    forOf items body st = Returned ys st' -> map g ys = map f items.
Proof.
  intros Hbody items. induction items as [|x items IH]; intros st ys st' Hrun.
  - simpl in Hrun. now injection Hrun as <- _.
  - simpl in Hrun.
    apply bind_returned_inv in Hrun as (y & st1 & Hx & Hrun).
    apply bind_returned_inv in Hrun as (rest & st2 & Hrest & Hrun).
    injection Hrun as <- _. simpl.
    now rewrite (IH _ _ _ Hrest), (Hbody _ _ _ _ Hx).
Qed.

Lemma forOfCached_keeps {A C} (f : A -> C) (store : nat -> A -> M unit)
    (body : A -> M A) :
  (forall x st y st', body x st = Returned y st' -> f y = f x) ->
  forall items i st ys st',
    forOfCached store i items body st = Returned ys st' -> map f ys = map f items.
Proof.
  intros Hbody items. induction items as [|x items IH]; intros i st ys st' Hrun.
  - simpl in Hrun. now injection Hrun as <- _.
  - apply forOfCached_cons_inv in Hrun as (y & st1 & st2 & rest & Hx & _ & Hrest & ->).
    simpl. now rewrite (IH _ _ _ _ Hrest), (Hbody _ _ _ _ Hx).
Qed.

Lemma classifyUserPool_keeps_description (fuel : nat) (pool : UserPool.t)
    (st : State) (pool' : UserPool.t) (st' : State) :
  classifyUserPool fuel pool st = Returned pool' st' ->
  UserPool.description pool' = UserPool.description pool.
Proof.
  intros Hrun. pose proof (classifyUserPool_settles fuel pool st) as Hbody.
  rewrite Hrun in Hbody. now destruct Hbody as [Hdesc _].
Qed.

Lemma classifyIdentityPool_keeps_description (realPools : list UserPool.t)
    (pool : IdentityPoolRecord.t) (st : State) (pool' : IdentityPoolRecord.t)
    (st' : State) :
  classifyIdentityPool realPools pool st = Returned pool' st' ->
  IdentityPoolRecord.description pool' = IdentityPoolRecord.description pool.
Proof.
  intros Hbody. unfold classifyIdentityPool in Hbody.
  apply bind_returned_inv in Hbody as (response & st0 & _ & Hbody).
  destruct (IdentityPool.CognitoIdentityProviders response) as [providers|];
    [|discriminate].
  destruct (length providers =? 0)%nat; [now injection Hbody as <- _|].
  destruct (length providers =? 1)%nat; [|now injection Hbody as <- _].
  destruct (length _ =? 0)%nat; now injection Hbody as <- _.
Qed.

(** X10. When a classification loop returns, it returns the pools it was
    given, one for one and in the same order, each with the description
    (id and name) it had: only the verdict fields can differ. This holds
    of the loop bodies in a plain loop, and of the loops of [main], which
    run over the cached objects, from whatever index they start. *)
Theorem classification_keeps_descriptions :
  (forall fuel pools st pools' st',
      forOf pools (classifyUserPool fuel) st = Returned pools' st' ->
      map UserPool.description pools' = map UserPool.description pools)
  /\ (forall realPools pools st pools' st',
        forOf pools (classifyIdentityPool realPools) st = Returned pools' st' ->
        map IdentityPoolRecord.description pools'
        = map IdentityPoolRecord.description pools)
  /\ (forall fuel pools i st pools' st',
        forOfCached storeCachedUserPool i pools (classifyUserPool fuel) st
        = Returned pools' st' ->
        map UserPool.description pools' = map UserPool.description pools)
  /\ (forall realPools pools i st pools' st',
        forOfCached storeCachedIdentityPool i pools (classifyIdentityPool realPools) st
        = Returned pools' st' ->
        map IdentityPoolRecord.description pools'
        = map IdentityPoolRecord.description pools).
Proof.
  split; [|split; [|split]].
  - intros fuel. apply forOf_keeps.
    intros x st y st'. apply classifyUserPool_keeps_description.
  - intros realPools. apply forOf_keeps.
    intros x st y st'. apply classifyIdentityPool_keeps_description.
  - intros fuel. apply forOfCached_keeps.
    intros x st y st'. apply classifyUserPool_keeps_description.
  - intros realPools. apply forOfCached_keeps.
    intros x st y st'. apply classifyIdentityPool_keeps_description.
Qed.

(** X11. A [listUsers] answer without a [Users] array makes the
    enumeration reject with a [TypeError], with or without the retry
    flag and without a second call; the classification loop then leaves
    the pool as it was. *)
Theorem missing_users_array_keeps_pool (fuel : nat) (pool : UserPool.t)
    (st : State) (response : ListUsersResponse.t) (w : World) :
  send (ListUsers (UserPool.Id pool) None) (world st) = (inr response, w) ->
  ListUsersResponse.Users response = None ->
  let st' := afterCall st (ListUsers (UserPool.Id pool) None) false w in
  (forall flag accumedUsers,
      getAllUsers (S fuel) (UserPool.Id pool) accumedUsers flag None st
      = Thrown (Error.TypeError "cognitoUsers is not iterable") st')
  /\ classifyUserPool (S fuel) pool st = Returned pool st'.
Proof.
  intros Hsend Hnone st'.
  assert (Hthrow : forall flag accumedUsers,
            getAllUsers (S fuel) (UserPool.Id pool) accumedUsers flag None st
            = Thrown (Error.TypeError "cognitoUsers is not iterable") st').
  { intros flag accumedUsers.
    rewrite (getAllUsers_resolved _ _ _ _ _ _ _ _ Hsend), Hnone. reflexivity. }
  split; [exact Hthrow|].
  apply (classifyUserPool_swallows (S fuel) pool st st' _ (Hthrow true [])).
Qed.

End ClassificationFrame.

Lemma missing_users_array_keeps_pool_witness :
  @classifyUserPool scripted 1 (UserPool.listed poolA) (startScript noUsersArray)
  = Returned (UserPool.listed poolA)
      (mkState (H := scripted) [] [Sent (ListUsers "eu-central-1_A" None) false] [] []).
Proof.
  exact (proj2 (@missing_users_array_keeps_pool scripted 0 (UserPool.listed poolA)
                  (startScript noUsersArray) (ListUsersResponse.mk None None) []
                  eq_refl eq_refl)).
Defined.

Lemma classification_keeps_descriptions_witness :
  match @forOfCached account _ storeCachedUserPool 0
          [UserPool.listed poolA; UserPool.listed poolB; UserPool.listed poolC]
          (classifyUserPool 1) sampleStart with
  | Returned pools' _ => map UserPool.description pools' = [poolA; poolB; poolC]
  | _ => False
  end.
Proof.
  destruct (@forOfCached account _ storeCachedUserPool 0
              [UserPool.listed poolA; UserPool.listed poolB; UserPool.listed poolC]
              (classifyUserPool 1) sampleStart) as [pools' st'|e st'|] eqn:Hrun.
  - exact (proj1 (proj2 (proj2 (@classification_keeps_descriptions account)))
                 1 _ _ _ _ _ Hrun).
  - vm_compute in Hrun. discriminate Hrun.
  - vm_compute in Hrun. discriminate Hrun.
Defined.

(** ** Marks are made on the cached objects *)

Section InPlaceMarks.
Context `{Remote}.

(** A loop over the objects of a cache: when the body leaves the cache
    alone and [store] puts an object at its index, the cache holds, in
    place of the items visited, what the body made of them. *)
Lemma forOfCached_cache {A} (get : State -> list A) (store : nat -> A -> M unit)
    (body : A -> M A) :
  (forall x st y st', body x st = Returned y st' -> get st' = get st) ->
  (forall i y st st',
      store i y st = Returned tt st' -> get st' = <[i := y]> (get st)) ->
  forall items prev rest st ys st',
    get st = prev ++ items ++ rest ->
    forOfCached store (length prev) items body st = Returned ys st' ->
    get st' = prev ++ ys ++ rest.
Proof.
  intros Hbody Hstore items.
  induction items as [|x items IH]; intros prev rest st ys st' Hget Hrun.
  - simpl in Hrun. now injection Hrun as <- <-.
  - apply forOfCached_cons_inv in Hrun
      as (y & st1 & st2 & ys' & Hx & Hs & Hrest & ->).
    assert (Hget2 : get st2 = (prev ++ [y]) ++ items ++ rest).
    { rewrite (Hstore _ _ _ _ Hs), (Hbody _ _ _ _ Hx), Hget.
      rewrite insert_app_r_alt by lia. rewrite Nat.sub_diag.
      now rewrite <- app_assoc. }
    replace (S (length prev)) with (length (prev ++ [y])) in Hrest
      by (rewrite length_app; simpl; lia).
    rewrite (IH _ _ _ _ _ Hget2 Hrest), <- app_assoc. reflexivity.
Qed.

Lemma listUserPools_returns_cache (fuel : nat) (st st' : State)
    (pools : list UserPool.t) :
  listUserPools fuel st = Returned pools st' -> cachedUserPoolIds st' = pools.
Proof.
  intros Hrun. destruct (cachedUserPoolIds st) as [|p ps] eqn:Hc.
  - destruct (listUserPools_fetches fuel st st' pools Hc Hrun)
      as (result & st1 & _ & _ & ->). reflexivity.
  - rewrite listUserPools_cached in Hrun by (rewrite Hc; discriminate).
    injection Hrun as <- <-. now rewrite Hc.
Qed.

Lemma listIdentityPools_returns_cache (fuel : nat) (st st' : State)
    (pools : list IdentityPoolRecord.t) :
  listIdentityPools fuel st = Returned pools st' -> cachedIdentityPoolIds st' = pools.
Proof.
  intros Hrun. destruct (cachedIdentityPoolIds st) as [|p ps] eqn:Hc.
  - destruct (listIdentityPools_fetches fuel st st' pools Hc Hrun)
      as (result & st1 & _ & _ & ->). reflexivity.
  - rewrite listIdentityPools_cached in Hrun by (rewrite Hc; discriminate).
    injection Hrun as <- <-. now rewrite Hc.
Qed.

Lemma classifyIdentityPool_keeps_cache (realPools : list UserPool.t)
    (x : IdentityPoolRecord.t) (st : State) :
  match classifyIdentityPool realPools x st with
  | Returned _ st' | Thrown _ st' =>
      cachedIdentityPoolIds st' = cachedIdentityPoolIds st
  | Pending => True
  end.
Proof. apply (settled_classifyIdentityPool sameIdentityCache). reflexivity. Qed.

Lemma classifyIdentityPools_cache (realPools : list UserPool.t)
    (items prev rest done : list IdentityPoolRecord.t) (st st' : State) :
  cachedIdentityPoolIds st = prev ++ items ++ rest ->
  forOfCached storeCachedIdentityPool (length prev) items
              (classifyIdentityPool realPools) st
  = Returned done st' ->
  cachedIdentityPoolIds st' = prev ++ done ++ rest.
Proof.
  apply (forOfCached_cache cachedIdentityPoolIds storeCachedIdentityPool
           (classifyIdentityPool realPools)).
  - intros x s y s' Hx. pose proof (classifyIdentityPool_keeps_cache realPools x s) as Hk.
    now rewrite Hx in Hk.
  - intros i y s s'. rewrite storeCachedIdentityPool_run. now intros [= <-].
Qed.

Lemma classifyUserPools_cache (fuel : nat) (items prev rest done : list UserPool.t)
    (st st' : State) :
  cachedUserPoolIds st = prev ++ items ++ rest ->
  forOfCached storeCachedUserPool (length prev) items (classifyUserPool fuel) st
  = Returned done st' ->
  cachedUserPoolIds st' = prev ++ done ++ rest.
Proof.
  apply (forOfCached_cache cachedUserPoolIds storeCachedUserPool (classifyUserPool fuel)).
  - intros x s y s' Hx.
    pose proof (settled_classifyUserPool sameUserCache fuel x ltac:(reflexivity) s) as Hk.
    now rewrite Hx in Hk.
  - intros i y s s'. rewrite storeCachedUserPool_run. now intros [= <-].
Qed.

(** X14. The classification loops run over the arrays the caches hold,
    and mark the cached objects. A list call returns the content of its
    cache. A classification loop over the content of its cache that
    returns leaves the cache holding the pools it returns, marks
    included. When the body of the identity-pool loop rejects at some
    pool, the cache holds the pools before it as the loop marked them,
    then that pool and the pools after it as they were. *)
Theorem classification_marks_cached_objects :
  (forall fuel st pools st',
      listUserPools fuel st = Returned pools st' -> cachedUserPoolIds st' = pools)
  /\ (forall fuel st pools st',
        listIdentityPools fuel st = Returned pools st' ->
        cachedIdentityPoolIds st' = pools)
  /\ (forall fuel pools st pools' st',
        cachedUserPoolIds st = pools ->
        forOfCached storeCachedUserPool 0 pools (classifyUserPool fuel) st
        = Returned pools' st' ->
        cachedUserPoolIds st' = pools')
  /\ (forall realPools pools st pools' st',
        cachedIdentityPoolIds st = pools ->
        forOfCached storeCachedIdentityPool 0 pools (classifyIdentityPool realPools) st
        = Returned pools' st' ->
        cachedIdentityPoolIds st' = pools')
  /\ (forall realPools before identityPool after st done st1 error st2,
        cachedIdentityPoolIds st = before ++ identityPool :: after ->
        forOfCached storeCachedIdentityPool 0 before (classifyIdentityPool realPools) st
        = Returned done st1 ->
        classifyIdentityPool realPools identityPool st1 = Thrown error st2 ->
        forOfCached storeCachedIdentityPool 0 (before ++ identityPool :: after)
                    (classifyIdentityPool realPools) st
        = Thrown error st2
        /\ cachedIdentityPoolIds st2 = done ++ identityPool :: after).
Proof.
  split; [intros fuel st pools st'; apply listUserPools_returns_cache|].
  split; [intros fuel st pools st'; apply listIdentityPools_returns_cache|].
  split; [|split].
  - intros fuel pools st pools' st' Hcache Hrun.
    rewrite (classifyUserPools_cache fuel pools [] [] pools' st st');
      [apply app_nil_r | now rewrite app_nil_r | exact Hrun].
  - intros realPools pools st pools' st' Hcache Hrun.
    rewrite (classifyIdentityPools_cache realPools pools [] [] pools' st st');
      [apply app_nil_r | now rewrite app_nil_r | exact Hrun].
  - intros realPools before identityPool after st done st1 error st2 Hcache Hbefore Hbody.
    split; [exact (forOfCached_thrown _ _ _ _ _ _ _ _ _ _ _ Hbefore Hbody)|].
    pose proof (classifyIdentityPool_keeps_cache realPools identityPool st1) as Hkeep.
    rewrite Hbody in Hkeep. rewrite Hkeep.
    exact (classifyIdentityPools_cache realPools before [] (identityPool :: after)
             done st st1 Hcache Hbefore).
Qed.

End InPlaceMarks.

(** Identity pool X is described without providers and marked; the
    describe call for Y is rejected: the cache holds X marked. *)
Lemma classification_marks_cached_objects_witness :
  exists st2,
    @forOfCached scripted _ storeCachedIdentityPool 0
      [IdentityPoolRecord.listed identityX; IdentityPoolRecord.listed identityY]
      (classifyIdentityPool []) secondDescribeRejected
    = Thrown throttled st2
    /\ cachedIdentityPoolIds st2
       = [ IdentityPoolRecord.mk identityX (Some true)
                                 (Some "CognitoIdentityProviders empty");
           IdentityPoolRecord.listed identityY ].
Proof.
  eexists.
  apply (proj2 (proj2 (proj2 (proj2 (@classification_marks_cached_objects scripted))))
           [] [IdentityPoolRecord.listed identityX] (IdentityPoolRecord.listed identityY)
           [] secondDescribeRejected
           [ IdentityPoolRecord.mk identityX (Some true)
                                   (Some "CognitoIdentityProviders empty") ]
           (mkState (H := scripted) [Rejects throttled]
              [Sent (DescribeIdentityPool "eu-central-1:x") false] []
              [ IdentityPoolRecord.mk identityX (Some true)
                                      (Some "CognitoIdentityProviders empty");
                IdentityPoolRecord.listed identityY ])
           throttled);
    reflexivity.
Defined.

(** ** The snapshots and the inventory *)


Section Snapshots.
Context `{Remote}.



End Snapshots.


(** ** Provider names and pool ids *)

Lemma substring_split (s : string) :
  forall k, (k <= String.length s)%nat ->
    s = String.substring 0 k s +:+ String.substring k (String.length s - k) s.
Proof.
  induction s as [|c s IH]; intros k Hk.
  - simpl in Hk. assert (k = 0)%nat as -> by lia. reflexivity.
  - destruct k as [|k].
    + cbn [String.substring]. rewrite append_empty, Nat.sub_0_r.
      change (String.length (String c s)) with (S (String.length s)).
      cbn [String.substring]. now rewrite substring_all.
    + cbn [String.length] in *. cbn [String.substring Nat.sub].
      rewrite append_cons. f_equal. apply IH. lia.
Qed.

Lemma endsWith_inv (s suffix : string) :
  JS.endsWith s suffix = true -> exists p, s = p +:+ suffix.
Proof.
  unfold JS.endsWith.
  destruct (Nat.leb_spec (String.length suffix) (String.length s)) as [Hle|Hgt];
    [|discriminate].
  intros Heq. apply String.eqb_eq in Heq.
  exists (String.substring 0 (String.length s - String.length suffix) s).
  pose proof (substring_split s (String.length s - String.length suffix)
                ltac:(lia)) as Hsplit.
  replace (String.length s - (String.length s - String.length suffix))%nat
    with (String.length suffix) in Hsplit by lia.
  now rewrite Heq in Hsplit.
Qed.

Lemma segment_after_separator (c : ascii) (p1 : string) :
  forall p2 a b,
    p1 +:+ String c a = p2 +:+ String c b ->
    hasChar c a = false -> hasChar c b = false -> a = b.
Proof.
  induction p1 as [|x p1 IH]; intros p2 a b Heq Ha Hb.
  - rewrite append_empty in Heq. destruct p2 as [|y p2].
    + rewrite append_empty in Heq. now injection Heq.
    + rewrite append_cons in Heq. injection Heq as _ ->.
      rewrite hasChar_app in Ha. cbn [hasChar] in Ha.
      rewrite Ascii.eqb_refl, orb_true_r in Ha. discriminate.
  - rewrite append_cons in Heq. destruct p2 as [|y p2].
    + rewrite append_empty in Heq. injection Heq as _ <-.
      rewrite hasChar_app in Hb. cbn [hasChar] in Hb.
      rewrite Ascii.eqb_refl, orb_true_r in Hb. discriminate.
    + rewrite append_cons in Heq. injection Heq as _ Heq. now apply (IH p2).
Qed.

Lemma findUserPoolByProviderName_In (realPools : list UserPool.t)
    (providerName : option string) (pool : UserPool.t) :
  In pool (findUserPoolByProviderName realPools providerName) ->
  exists name,
    providerName = Some name
    /\ In pool realPools
    /\ JS.startsWith name "cognito-idp" = true
    /\ JS.endsWith name ("/" +:+ UserPool.Id pool) = true.
Proof.
  unfold findUserPoolByProviderName.
  destruct providerName as [name|]; [|intros []].
  change (truthy ((fun p => JS.startsWith p "cognito-idp") <$> Some name))
    with (JS.startsWith name "cognito-idp").
  destruct (JS.startsWith name "cognito-idp") eqn:Hprefix; [|intros []].
  destruct (0 <? length _)%nat; [|intros []]. cbn [andb].
  intros Hin. apply List.filter_In in Hin as [Hin Hends].
  exists name. split; [reflexivity|]. split; [exact Hin|].
  split; [exact Hprefix | exact Hends].
Qed.

Lemma endsWith_last_segment (prefix id id' : string) :
  hasChar "/" id = false -> hasChar "/" id' = false ->
  JS.endsWith (prefix +:+ "/" +:+ id) ("/" +:+ id') = String.eqb id' id.
Proof.
  intros Hid Hid'. destruct (String.eqb_spec id' id) as [->|Hne].
  - apply endsWith_app.
  - apply not_true_is_false. intros Hends.
    apply endsWith_inv in Hends as [p Hp]. apply Hne. symmetry.
    exact (segment_after_separator "/" prefix p id id' Hp Hid Hid').
Qed.

(** X12. A pool [findUserPoolByProviderName] returns is a retained pool,
    and the provider name has the Cognito prefix and ends with [/] and
    the id of the pool. For a provider name [prefix/id] with the Cognito
    prefix, when neither [id] nor the ids of the retained pools contain
    a [/], the suffix test is an exact test: the function returns
    exactly the retained pools whose id is [id] (a name ending in [/AB]
    matches the id [AB], never the id [B]). *)
Theorem findUserPoolByProviderName_one_id (realPools : list UserPool.t)
    (providerName : option string) :
  (forall pool,
      In pool (findUserPoolByProviderName realPools providerName) ->
      In pool realPools
      /\ exists name,
          providerName = Some name
          /\ JS.startsWith name "cognito-idp" = true
          /\ JS.endsWith name ("/" +:+ UserPool.Id pool) = true)
  /\ (forall prefix id,
        providerName = Some (prefix +:+ "/" +:+ id) ->
        JS.startsWith (prefix +:+ "/" +:+ id) "cognito-idp" = true ->
        hasChar "/" id = false ->
        Forall (fun pool => hasChar "/" (UserPool.Id pool) = false) realPools ->
        findUserPoolByProviderName realPools providerName
        = List.filter (fun pool => String.eqb (UserPool.Id pool) id) realPools).
Proof.
  split.
  - intros pool Hin.
    apply findUserPoolByProviderName_In in Hin as (name & Hname & Hin & Hprefix & Hends).
    split; [exact Hin|]. now exists name.
  - intros prefix id -> Hprefix Hid Hids. unfold findUserPoolByProviderName.
    cbv zeta.
    change (truthy ((fun p => JS.startsWith p "cognito-idp")
                      <$> Some (prefix +:+ "/" +:+ id)))
      with (JS.startsWith (prefix +:+ "/" +:+ id) "cognito-idp").
    rewrite Hprefix, andb_true_l.
    assert (Hsame :
      List.filter
        (fun pool =>
           truthy ((fun p => JS.endsWith p ("/" +:+ UserPool.Id pool))
                     <$> Some (prefix +:+ "/" +:+ id)))
        realPools
      = List.filter (fun pool => String.eqb (UserPool.Id pool) id) realPools).
    { apply List.filter_ext_in. intros pool Hin.
      rewrite List.Forall_forall in Hids.
      change (truthy ((fun p => JS.endsWith p ("/" +:+ UserPool.Id pool))
                        <$> Some (prefix +:+ "/" +:+ id)))
        with (JS.endsWith (prefix +:+ "/" +:+ id) ("/" +:+ UserPool.Id pool)).
      exact (endsWith_last_segment prefix id (UserPool.Id pool) Hid (Hids pool Hin)). }
    rewrite Hsame.
    generalize (List.filter (fun pool => String.eqb (UserPool.Id pool) id) realPools).
    intros [|pool pools]; reflexivity.
Qed.

(** With retained pools [B] and [AB], a name ending in [/AB] matches only
    the latter, which is a retained pool. *)
Lemma findUserPoolByProviderName_one_id_witness :
  findUserPoolByProviderName [poolShortId; poolLongId]
    (Some "cognito-idp.eu-central-1.amazonaws.com/AB") = [poolLongId]
  /\ In poolLongId [poolShortId; poolLongId].
Proof.
  destruct (findUserPoolByProviderName_one_id [poolShortId; poolLongId]
              (Some "cognito-idp.eu-central-1.amazonaws.com/AB"))
    as [Hretained Hexact].
  pose proof (Hexact "cognito-idp.eu-central-1.amazonaws.com" "AB"
                eq_refl eq_refl eq_refl ltac:(repeat constructor)) as Hresult.
  split; [exact Hresult|].
  apply (Hretained poolLongId). rewrite Hresult. now left.
Defined.

(** ** Retirement of one user pool in [src/index.ts] *)

Section RetirementOrder.
Context `{Remote}.

(** X13. The loop body of [src/index.ts] for a pool to delete, once the
    describe call has resolved. Without a domain (undefined or empty) it
    sends the pool-delete call right after the describe call. With a
    domain it sends the domain-delete call first; if that call is
    rejected the body rejects and no pool-delete call is sent. *)
Theorem Index_retireUserPool_order (pool : UserPool.t) (st : State)
    (described : DescribeUserPoolResponse.t) (w : World) :
  let id := UserPool.Id pool in
  let domain := DescribeUserPoolResponse.UserPool described ≫= UserPoolType.Domain in
  let st1 := afterCall st (DescribeUserPool id) false w in
  send (DescribeUserPool id) (world st) = (inr described, w) ->
  (truthy domain = false ->
   Index.retireUserPool pool st = call (DeleteUserPool id) st1)
  /\ (forall name, domain = Some name -> name <> "" ->
      (forall error w1,
          send (DeleteUserPoolDomain id name) w = (inl error, w1) ->
          Index.retireUserPool pool st
          = Thrown error (afterCall st1 (DeleteUserPoolDomain id name) true w1))
      /\ (forall w1,
            send (DeleteUserPoolDomain id name) w = (inr tt, w1) ->
            Index.retireUserPool pool st
            = call (DeleteUserPool id)
                   (afterCall st1 (DeleteUserPoolDomain id name) false w1))).
Proof.
  intros id domain st1 Hsend. unfold Index.retireUserPool.
  rewrite (bind_returned _ _ _ _ _ (call_resolved _ _ _ _ Hsend)).
  fold id domain st1. split.
  - intros Hfalsy. rewrite Hfalsy. reflexivity.
  - intros name Hname Hne.
    assert (truthy domain = true) as ->.
    { rewrite Hname. unfold truthy, undefined_truthy, string_truthy.
      apply negb_true_iff, String.eqb_neq, Hne. }
    rewrite Hname. change (default "" (Some name)) with name. split.
    + intros error w1 Hs1.
      now rewrite (bind_thrown _ _ _ _ _
                     (call_rejected (DeleteUserPoolDomain id name) st1 error w1 Hs1)).
    + intros w1 Hs1.
      now rewrite (bind_returned _ _ _ _ _
                     (call_resolved (DeleteUserPoolDomain id name) st1 tt w1 Hs1)).
Qed.

End RetirementOrder.

(** The domain-delete call is rejected: the pool is not deleted. *)
Lemma Index_retireUserPool_order_witness :
  @Index.retireUserPool scripted (UserPool.listed poolA)
    (startScript domainDeleteRejected)
  = Thrown throttled
      (mkState (H := scripted) [Deleted]
         [ Sent (DescribeUserPool "eu-central-1_A") false;
           Sent (DeleteUserPoolDomain "eu-central-1_A" "auth-a") true ] [] []).
Proof.
  destruct (@Index_retireUserPool_order scripted (UserPool.listed poolA)
              (startScript domainDeleteRejected) _ _ eq_refl) as [_ Hdomain].
  destruct (Hdomain "auth-a" eq_refl ltac:(discriminate)) as [Hrejected _].
  exact (Hrejected throttled [Deleted] eq_refl).
Defined.
